(** * plot_baseten_vs_b200: reconciliation and normalisation rules

    A shallow embedding of [utils/plot_baseten_vs_b200.py].  The script
    loads two sets of benchmark records, selects one B200 record per
    concurrency, filters the Baseten records by a reliability threshold
    and decides, per concurrency, between per-GPU and total throughput.

    Modelling conventions.
    - A decoded JSON scalar is a [value]; a JSON object is a finite map
      from keys to scalars ([record]): the fields the script reads are
      numbers, strings, booleans or null.
    - A finite Python [float] is modelled by the rational it denotes.
      Comparisons are exact in Python and here; [/] and [*] of [Py] give
      the exact quotient and product, which Python rounds to a double, so
      that statements name the operation ([py_truediv], [py_mul]) or are
      about integers that a double holds exactly.
    - The floats NaN and infinity, which [json.load] also returns, and
      file names in any characters are the subject of [Wide], which models
      the two loaders on them.
    - Python exceptions are modelled by the error side of [res].
    - The matplotlib calls are not interpreted: a chart is the data that
      the script hands to the plotting library. *)

From Stdlib Require Import ZArith QArith Qreduction Ascii String List Sorting.Sorted
  Sorting.Permutation OrderedTypeEx Lia Lqa.
From stdpp Require Import base option strings gmap.

Local Open Scope Z_scope.

(** ** Python values *)

Module Py.

Inductive exn : Type :=
  | TypeError
  | ZeroDivisionError
  | KeyError
  | JSONDecodeError
  | SystemExit (code : Z).   (* raised by [sys.exit(code)] *)

Inductive res (A : Type) : Type :=
  | Ok (a : A)
  | Err (e : exn).
Arguments Ok {A} a.
Arguments Err {A} e.

Definition bind {A B : Type} (m : res A) (k : A -> res B) : res B :=
  match m with
  | Ok a => k a
  | Err e => Err e
  end.

Notation "'let*' x ':=' m 'in' k" := (bind m (fun x => k))
  (at level 10, x name, m at level 100, k at level 200).

Inductive value : Type :=
  | VNone
  | VBool (b : bool)
  | VInt (n : Z)
  | VFloat (q : Q)
  | VStr (s : string).

(** [bool] is a subclass of [int]: both behave as integers in arithmetic. *)
Definition as_int (v : value) : option Z :=
  match v with
  | VBool b => Some (if b then 1 else 0)
  | VInt n => Some n
  | _ => None
  end.

Definition as_num (v : value) : option Q :=
  match v with
  | VBool b => Some (inject_Z (if b then 1 else 0))
  | VInt n => Some (inject_Z n)
  | VFloat q => Some q
  | _ => None
  end.

(** [v == w] *)
Definition py_eq (v w : value) : bool :=
  match as_num v, as_num w with
  | Some a, Some b => Qeq_bool a b
  | None, None =>
      match v, w with
      | VNone, VNone => true
      | VStr s, VStr t => String.eqb s t
      | _, _ => false
      end
  | _, _ => false
  end.

Definition Qlt_bool (a b : Q) : bool := negb (Qle_bool b a).

(** [v < w]: numbers with numbers, strings with strings. *)
Definition py_lt (v w : value) : res bool :=
  match as_num v, as_num w with
  | Some a, Some b => Ok (Qlt_bool a b)
  | None, None =>
      match v, w with
      | VStr s, VStr t => Ok (String.ltb s t)
      | _, _ => Err TypeError
      end
  | _, _ => Err TypeError
  end.

(** [v > w] *)
Definition py_gt (v w : value) : res bool :=
  match as_num v, as_num w with
  | Some a, Some b => Ok (Qlt_bool b a)
  | None, None =>
      match v, w with
      | VStr s, VStr t => Ok (String.ltb t s)
      | _, _ => Err TypeError
      end
  | _, _ => Err TypeError
  end.

Fixpoint str_repeat (n : nat) (s : string) : string :=
  match n with
  | O => EmptyString
  | S n' => String.append s (str_repeat n' s)
  end.

(** [v * w]: integer product, float product, or sequence repetition. *)
Definition py_mul (v w : value) : res value :=
  match as_int v, as_int w with
  | Some a, Some b => Ok (VInt (a * b))
  | _, _ =>
      match as_num v, as_num w with
      | Some a, Some b => Ok (VFloat (Qred (a * b)))
      | _, _ =>
          match v, as_int w, as_int v, w with
          | VStr s, Some n, _, _ => Ok (VStr (str_repeat (Z.to_nat n) s))
          | _, _, Some n, VStr s => Ok (VStr (str_repeat (Z.to_nat n) s))
          | _, _, _, _ => Err TypeError
          end
      end
  end.

(** [v / w]: true division, always a float. *)
Definition py_truediv (v w : value) : res value :=
  match as_num v, as_num w with
  | Some a, Some b =>
      if Qeq_bool b 0 then Err ZeroDivisionError
      else Ok (VFloat (Qred (a / b)))
  | _, _ => Err TypeError
  end.

End Py.
Import Py.

(** ** Records *)

(** A decoded JSON object. *)
Abbreviation record := (gmap string value).

(** [r.get(k, d)] *)
Definition get (r : record) (k : string) (d : value) : value :=
  default d (r !! k).

(** [r[k]] *)
Definition getitem (r : record) (k : string) : res value :=
  match r !! k with
  | Some v => Ok v
  | None => Err KeyError
  end.

(** ** Loader B: [load_b200_trt_results] *)

(** The hardware filter of the list comprehension. *)
Definition is_b200_trt (r : record) : bool :=
  py_eq (get r "hw" VNone) (VStr "b200-trt")
  || py_eq (get r "hw" VNone) (VStr "b200-nvs")
  || (py_eq (get r "hw" VNone) (VStr "b200")
      && py_eq (get r "framework" VNone) (VStr "trt")).

(** [best_by_conc] is a Python [dict]: keys are compared with [==] (so
    [16], [16.0] share an entry) and entries keep their insertion order. *)
Definition dict := list (value * record).

Fixpoint dict_lookup (d : dict) (k : value) : option record :=
  match d with
  | [] => None
  | (k', r) :: d' => if py_eq k' k then Some r else dict_lookup d' k
  end.

(** [d[k] = r]: an existing entry keeps its key and its position. *)
Fixpoint dict_set (d : dict) (k : value) (r : record) : dict :=
  match d with
  | [] => [(k, r)]
  | (k', r') :: d' =>
      if py_eq k' k then (k', r) :: d' else (k', r') :: dict_set d' k r
  end.

Definition dict_values (d : dict) : list record := map snd d.

(** One iteration of the selection loop. *)
Definition select_step (best_by_conc : dict) (r : record) : res dict :=
  let conc := get r "conc" (VInt 0) in
  let tp := get r "tp" (VInt 0) in
  let tput_per_gpu := get r "tput_per_gpu" (VInt 0) in
  match dict_lookup best_by_conc conc with
  | None => Ok (dict_set best_by_conc conc r)
  | Some cur =>
      if py_eq tp (VInt 8) then Ok (dict_set best_by_conc conc r)
      else if negb (py_eq (get cur "tp" (VInt 0)) (VInt 8)) then
        let* cur_tput := getitem cur "tput_per_gpu" in
        let* better := py_gt tput_per_gpu cur_tput in
        if better then Ok (dict_set best_by_conc conc r) else Ok best_by_conc
      else Ok best_by_conc
  end.

Fixpoint select_loop (best_by_conc : dict) (rs : list record) : res dict :=
  match rs with
  | [] => Ok best_by_conc
  | r :: rs' =>
      let* d := select_step best_by_conc r in
      select_loop d rs'
  end.

(** [sorted(l, key=key)] and [l.sort(key=key)]: a stable sort that only
    uses [<] on the keys and raises when two keys cannot be compared.  Any
    comparison sort links all the elements by its comparisons, so it raises
    on a list of two or more keys exactly when the keys are not all
    numbers or all strings; a stable insertion sort is taken here. *)
Section Sorted.
Context {A : Type} (key : A -> value).

Fixpoint sort_insert (x : A) (l : list A) : res (list A) :=
  match l with
  | [] => Ok [x]
  | y :: l' =>
      let* lt := py_lt (key y) (key x) in
      if lt then
        let* l'' := sort_insert x l' in Ok (y :: l'')
      else Ok (x :: y :: l')
  end.

Fixpoint py_sorted (l : list A) : res (list A) :=
  match l with
  | [] => Ok []
  | x :: l' =>
      let* s := py_sorted l' in
      sort_insert x s
  end.
End Sorted.

Definition conc_key (r : record) : value := get r "conc" (VInt 0).

(** [all_data]: the objects of the decoded array, in order.  The result is
    the pair (best per concurrency, all filtered records). *)
Definition load_b200_trt_results (all_data : list record)
  : res (list record * list record) :=
  let b200_trt := filter (fun r => is_b200_trt r = true) all_data in
  let* best_by_conc := select_loop [] b200_trt in
  let* best := py_sorted conc_key (dict_values best_by_conc) in
  Ok (best, b200_trt).

(** ** Loader A: [load_baseten_results] *)

(** File names are taken to be ASCII here: [\d] is a decimal digit 0..9
    ([Wide] has the file names in any characters). *)
Definition is_digit (c : ascii) : bool :=
  let n := Z.of_nat (nat_of_ascii c) in (48 <=? n) && (n <=? 57).

(** The longest prefix of digits and the rest. *)
Fixpoint span_digits (s : string) : string * string :=
  match s with
  | String c s' =>
      if is_digit c then
        let (ds, rest) := span_digits s' in (String c ds, rest)
      else (EmptyString, s)
  | EmptyString => (EmptyString, EmptyString)
  end.

Fixpoint strip_prefix (p s : string) : option string :=
  match p, s with
  | EmptyString, _ => Some s
  | String a p', String b s' =>
      if Ascii.eqb a b then strip_prefix p' s' else None
  | String _ _, EmptyString => None
  end.

(** [conc(\d+)] anchored at the start of [s]: the captured group. *)
Definition match_conc_here (s : string) : option string :=
  match strip_prefix "conc" s with
  | Some rest =>
      match fst (span_digits rest) with
      | EmptyString => None
      | ds => Some ds
      end
  | None => None
  end.

(** [re.search(r'conc(\d+)', s)]: the group of the leftmost match. *)
Fixpoint re_search_conc (s : string) : option string :=
  match match_conc_here s with
  | Some ds => Some ds
  | None =>
      match s with
      | String _ s' => re_search_conc s'
      | EmptyString => None
      end
  end.

(** [int(ds)] for a string of decimal digits. *)
Fixpoint int_of_digits_acc (acc : Z) (ds : string) : Z :=
  match ds with
  | EmptyString => acc
  | String c ds' =>
      int_of_digits_acc (10 * acc + (Z.of_nat (nat_of_ascii c) - 48)) ds'
  end.

Definition int_of_digits (ds : string) : Z := int_of_digits_acc 0 ds.

(** The concurrency of one file: metadata first, then the file name.
    [VNone] when neither gives a value. *)
Definition resolve_concurrency (stem : string) (result : record) : value :=
  match get result "max_concurrency" VNone with
  | VNone =>
      match re_search_conc stem with
      | Some ds => VInt (int_of_digits ds)
      | None => VNone
      end
  | conc => conc
  end.

(** The body of the [for] loop: [None] when the file contributes nothing.
    A file that cannot be opened or decoded to an object ([None] as
    content) raises inside the [try] and only prints a warning. *)
Definition load_one (file : string * option record) : option record :=
  match file with
  | (stem, Some result) =>
      match resolve_concurrency stem result with
      | VNone => None
      | conc => Some (<["concurrency" := conc]> result)
      end
  | (_, None) => None
  end.

Definition concurrency_key (r : record) : value := get r "concurrency" (VInt 0).

(** [files]: the stems of the [*.json] files of the directory, in the
    order of [glob], each with its decoded object if there is one. *)
Definition load_baseten_results (files : list (string * option record))
  : res (list record) :=
  py_sorted concurrency_key (omap load_one files).

(** ** The comparison chart: [plot_comparison] *)

Inductive label : Type :=
  | PerGPU (tp : value)   (* f'TP{tp} (per GPU)' *)
  | Total (tp : value).   (* f'TP{tp} (total)' *)

Record b200_point : Type := B200Point {
  bp_conc : value;
  bp_tput : value;
  bp_e2el : value;
  bp_label : label
}.

Record baseten_point : Type := BasetenPoint {
  sp_conc : value;
  sp_tput : value;
  sp_e2el : value
}.

(** The throughput plotted for a best B200 record. *)
Definition b200_tput_value (r : record) : res value :=
  let tput_per_gpu := get r "tput_per_gpu" (VInt 0) in
  let tp := get r "tp" (VInt 0) in
  if py_eq tp (VInt 8) then Ok tput_per_gpu
  else py_mul tput_per_gpu tp.

Definition b200_point_of (r : record) : res b200_point :=
  let conc := get r "conc" (VInt 0) in
  let e2el := get r "median_e2el" (VInt 0) in
  let tp := get r "tp" (VInt 0) in
  let* tput_value := b200_tput_value r in
  Ok (B200Point conc tput_value e2el
        (if py_eq tp (VInt 8) then PerGPU tp else Total tp)).

Fixpoint mapM {A B : Type} (f : A -> res B) (l : list A) : res (list B) :=
  match l with
  | [] => Ok []
  | x :: l' =>
      let* y := f x in
      let* ys := mapM f l' in
      Ok (y :: ys)
  end.

(** [completed < 10 or (total_requests > 0 and
     completed / total_requests < 0.5)] *)
Definition is_unreliable (completed total_requests : value) : res bool :=
  let* few := py_lt completed (VInt 10) in
  if few then Ok true
  else
    let* positive := py_gt total_requests (VInt 0) in
    if positive then
      let* ratio := py_truediv completed total_requests in
      py_lt ratio (VFloat (1 # 2))
    else Ok false.

(** [result.get('total_requests', result.get('num_prompts', completed))] *)
Definition total_requests_of (result : record) (completed : value) : value :=
  get result "total_requests" (get result "num_prompts" completed).

(** The [tp] of the first record of [b200_best] at [conc], [None] without one. *)
Fixpoint b200_tp_at_conc (b200_best : list record) (conc : value) : value :=
  match b200_best with
  | [] => VNone
  | r :: rest =>
      if py_eq (get r "conc" (VInt 0)) conc then get r "tp" (VInt 0)
      else b200_tp_at_conc rest conc
  end.

Definition BASETEN_GPU_COUNT : value := VInt 8.

(** The throughput plotted for a Baseten record at [conc]. *)
Definition baseten_tput_value (b200_best : list record) (conc total_tput : value)
  : res value :=
  if py_eq (b200_tp_at_conc b200_best conc) (VInt 8)
  then py_truediv total_tput BASETEN_GPU_COUNT
  else Ok total_tput.

(** One iteration of the Baseten loop; [None] stands for [continue]. *)
Definition baseten_point_of (b200_best : list record) (result : record)
  : res (option baseten_point) :=
  let conc := get result "concurrency" (VInt 0) in
  if py_eq conc (VInt 0) then Ok None
  else
    let completed := get result "completed" (VInt 0) in
    let total_requests := total_requests_of result completed in
    let* skip := is_unreliable completed total_requests in
    if skip then Ok None
    else
      let total_tput := get result "total_token_throughput" (VInt 0) in
      let* e2el := py_truediv (get result "median_e2el_ms" (VInt 0)) (VFloat 1000) in
      let* tput_value := baseten_tput_value b200_best conc total_tput in
      Ok (Some (BasetenPoint conc tput_value e2el)).

(** The Baseten loop.  The two chart functions run the same loop, line for
    line. *)
Fixpoint baseten_points (b200_best baseten_results : list record)
  : res (list baseten_point) :=
  match baseten_results with
  | [] => Ok []
  | result :: rest =>
      let* p := baseten_point_of b200_best result in
      let* ps := baseten_points b200_best rest in
      Ok (match p with Some pt => pt :: ps | None => ps end)
  end.

Record comparison_chart : Type := ComparisonChart {
  cc_b200 : list b200_point;
  cc_baseten : list baseten_point
}.

Definition b200_tputs (c : comparison_chart) : list value := map bp_tput (cc_b200 c).
Definition baseten_tputs (c : comparison_chart) : list value := map sp_tput (cc_baseten c).

Definition plot_comparison (baseten_results b200_best b200_all : list record)
  : res comparison_chart :=
  let* b := mapM b200_point_of b200_best in
  let* a := baseten_points b200_best baseten_results in
  Ok (ComparisonChart b a).

(** ** The detailed chart: [plot_comparison_with_all_b200_configs] *)

Record config_point : Type := ConfigPoint {
  cp_e2el : value;
  cp_tput : value;
  cp_conc : value;
  cp_tp : value
}.

Definition config_point_of (r : record) : config_point :=
  ConfigPoint (get r "median_e2el" (VInt 0)) (get r "tput_per_gpu" (VInt 0))
    (get r "conc" (VInt 0)) (get r "tp" (VInt 0)).

Record detailed_chart : Type := DetailedChart {
  dc_all : list config_point;    (* every filtered B200 record *)
  dc_best : list config_point;   (* the starred best record per concurrency *)
  dc_baseten : list baseten_point
}.

Definition plot_comparison_with_all_b200_configs
  (baseten_results b200_best b200_all : list record) : res detailed_chart :=
  let all_points := map config_point_of b200_all in
  let* a := baseten_points b200_best baseten_results in
  Ok (DetailedChart all_points
        (match all_points with
         | [] => []
         | _ :: _ => map config_point_of b200_best
         end)
        a).

(** ** The program: [main] *)

(** What the script sees of the outside world. *)
Record world : Type := World {
  argv : list string;
  (* [Path(p).exists()] *)
  path_exists : string -> bool;
  (* the [*.json] files of a directory: stem and decoded object, if any *)
  glob_json : string -> list (string * option record);
  (* [json.load] of the aggregated file, as the objects it iterates over;
     [None] when decoding or iterating raises *)
  json_load : string -> option (list record);
  (* the matplotlib calls that draw and save a chart *)
  render_comparison : comparison_chart -> res unit;
  render_detailed : detailed_chart -> res unit
}.

Definition sys_exit {A : Type} (code : Z) : res A := Err (SystemExit code).

Definition main (w : world) : res unit :=
  match argv w with
  | _ :: baseten_dir :: inferencemax_json :: _ =>
      if negb (path_exists w baseten_dir) then sys_exit 1
      else if negb (path_exists w inferencemax_json) then sys_exit 1
      else
        let* baseten_results := load_baseten_results (glob_json w baseten_dir) in
        let* all_data :=
          match json_load w inferencemax_json with
          | Some l => Ok l
          | None => Err JSONDecodeError
          end in
        let* loaded := load_b200_trt_results all_data in
        let (b200_best, b200_all) := (loaded : list record * list record) in
        match baseten_results with
        | [] => sys_exit 1
        | _ :: _ =>
            match b200_best with
            | [] => sys_exit 1
            | _ :: _ =>
                let* c := plot_comparison baseten_results b200_best b200_all in
                let* _ := render_comparison w c in
                let* d := plot_comparison_with_all_b200_configs
                            baseten_results b200_best b200_all in
                render_detailed w d
            end
        end
  | _ => sys_exit 1   (* len(sys.argv) < 3 *)
  end.

(** The exit status of the process: 0 at the end of [main], the argument
    of [sys.exit], 1 for any other uncaught exception. *)
Definition exit_status (r : res unit) : Z :=
  match r with
  | Ok _ => 0
  | Err (SystemExit code) => code
  | Err _ => 1
  end.

(** ** Notions used in the statements *)

(** The comparison class of a value: numbers, strings, or [None]. *)
Inductive kind : Type :=
  | KNum (q : Q)
  | KStr (s : string)
  | KNone.

Definition classify (v : value) : kind :=
  match v with
  | VNone => KNone
  | VBool b => KNum (inject_Z (if b then 1 else 0))
  | VInt n => KNum (inject_Z n)
  | VFloat q => KNum q
  | VStr s => KStr s
  end.

Definition kind_eqb (a b : kind) : bool :=
  match a, b with
  | KNum p, KNum q => Qeq_bool p q
  | KStr s, KStr t => String.eqb s t
  | KNone, KNone => true
  | _, _ => false
  end.

Definition kind_ltb (a b : kind) : res bool :=
  match a, b with
  | KNum p, KNum q => Ok (Qlt_bool p q)
  | KStr s, KStr t => Ok (String.ltb s t)
  | _, _ => Err TypeError
  end.

(** Strictly below, and different, under a sort key. *)
Definition key_lt {A : Type} (key : A -> value) (a b : A) : Prop :=
  py_lt (key a) (key b) = Ok true.

Definition key_ne {A : Type} (key : A -> value) (a b : A) : Prop :=
  py_eq (key a) (key b) = false.

(** No two entries have equal keys, and every record is stored under its
    own concurrency. *)
Definition keys_distinct (d : dict) : Prop :=
  ForallOrdPairs (fun e1 e2 => py_eq (fst e1) (fst e2) = false) d.

Definition keys_match (d : dict) : Prop :=
  Forall (fun e => py_eq (fst e) (conc_key (snd e)) = true) d.

Definition numeric (v : value) : Prop := is_Some (as_num v).

Definition well_formed_b200 (r : record) : Prop :=
  numeric (conc_key r)
  /\ exists v, r !! "tput_per_gpu"%string = Some v /\ numeric v.

(** The first record of [b200_best] at a concurrency. *)
Definition first_b200_at (b200_best : list record) (conc : value) : option record :=
  List.find (fun r => py_eq (get r "conc" (VInt 0)) conc) b200_best.

(** The exclusion rule in the words of the specification: the completed
    count is below 10, or a total-request count is present and
    completed / total is below 0.5. *)
Definition spec_excluded (result : record) : Prop :=
  exists c, as_num (get result "completed" (VInt 0)) = Some c
    /\ ((c < 10)%Q
        \/ exists v t, result !! "total_requests"%string = Some v
                       /\ as_num v = Some t /\ (c / t < 1 # 2)%Q).

(** ** Sample records *)

Definition mk (l : list (string * value)) : record := list_to_map l.

(** A B200 TensorRT record. *)
Definition b200 (conc tp tput : Z) : record :=
  mk [("hw", VStr "b200-trt"); ("conc", VInt conc); ("tp", VInt tp);
      ("tput_per_gpu", VInt tput); ("median_e2el", VInt 1)]%string.

(** A Baseten record, as Loader A returns it. *)
Definition baseten (conc completed total tput : Z) : record :=
  mk [("concurrency", VInt conc); ("completed", VInt completed);
      ("total_requests", VInt total); ("total_token_throughput", VInt tput);
      ("median_e2el_ms", VInt 2000)]%string.

(** A run in which nothing goes wrong and the only Baseten record is
    unreliable. *)
Definition unreliable_world : world :=
  World ["plot_baseten_vs_b200.py"; "results"; "agg.json"]%string
    (fun _ => true)
    (fun _ => [("baseten_conc16"%string,
                Some (mk [("completed", VInt 5); ("total_requests", VInt 100);
                          ("total_token_throughput", VInt 3200);
                          ("median_e2el_ms", VInt 2000)]%string))])
    (fun _ => Some [b200 16 8 400])
    (fun _ => Ok tt)
    (fun _ => Ok tt).

(** ** Further notions and sample data *)

(** The hardware classes that Loader B keeps, read on the fields. *)
Definition hw_matches (r : record) : Prop :=
  r !! "hw"%string = Some (VStr "b200-trt")
  \/ r !! "hw"%string = Some (VStr "b200-nvs")
  \/ (r !! "hw"%string = Some (VStr "b200")
      /\ r !! "framework"%string = Some (VStr "trt")).

Definition tput_key (r : record) : value := get r "tput_per_gpu" (VInt 0).
Definition tp_key (r : record) : value := get r "tp" (VInt 0).

(** Not above, under a sort key: [key b < key a] is false. *)
Definition key_le {A : Type} (key : A -> value) (a b : A) : Prop :=
  py_lt (key b) (key a) = Ok false.

Definition is_str (v : value) : Prop := exists s, v = VStr s.

(** A Baseten record whose fields read by the charts are numbers. *)
Definition numeric_baseten (r : record) : Prop :=
  numeric (get r "completed" (VInt 0))
  /\ numeric (total_requests_of r (get r "completed" (VInt 0)))
  /\ numeric (get r "total_token_throughput" (VInt 0))
  /\ numeric (get r "median_e2el_ms" (VInt 0)).

(** A B200 record whose throughput and degree are numbers. *)
Definition numeric_b200 (r : record) : Prop :=
  numeric (get r "tput_per_gpu" (VInt 0)) /\ numeric (get r "tp" (VInt 0)).

(** A number that takes part in float arithmetic without an
    [OverflowError]: a float, a bool, or an integer that a double holds
    exactly. *)
Definition plain_number (v : value) : Prop :=
  match v with
  | VInt n => Z.abs n <= 2 ^ 53
  | VBool _ => True
  | VFloat _ => True
  | _ => False
  end.

Definition plain_baseten (r : record) : Prop :=
  plain_number (get r "completed" (VInt 0))
  /\ plain_number (total_requests_of r (get r "completed" (VInt 0)))
  /\ plain_number (get r "total_token_throughput" (VInt 0))
  /\ plain_number (get r "median_e2el_ms" (VInt 0)).

Definition plain_b200 (r : record) : Prop :=
  plain_number (get r "tput_per_gpu" (VInt 0)) /\ plain_number (get r "tp" (VInt 0)).

(** ** What the chart functions compute for the drawing calls *)

(** [sorted(l)] with an element comparison that may raise: the same stable
    insertion sort as [py_sorted], on the elements themselves. *)
Section SortBy.
Context {A : Type} (lt : A -> A -> res bool).

Fixpoint sort_insert_by (x : A) (l : list A) : res (list A) :=
  match l with
  | [] => Ok [x]
  | y :: l' =>
      let* below := lt y x in
      if below then
        let* l'' := sort_insert_by x l' in Ok (y :: l'')
      else Ok (x :: y :: l')
  end.

Fixpoint sort_by (l : list A) : res (list A) :=
  match l with
  | [] => Ok []
  | x :: l' =>
      let* s := sort_by l' in
      sort_insert_by x s
  end.
End SortBy.





Definition detailed_axis_points (d : detailed_chart) : list (value * value) :=
  map (fun p => (cp_e2el p, cp_tput p)) (dc_all d)
  ++ map (fun p => (sp_e2el p, sp_tput p)) (dc_baseten d).

(** A record without hardware tag, and a B200 record without throughput. *)
Definition untagged : record := mk [("conc", VInt 16); ("tp", VInt 8)]%string.

Definition b200_no_tput (conc tp : Z) : record :=
  mk [("hw", VStr "b200-trt"); ("conc", VInt conc); ("tp", VInt tp)]%string.

Definition sample_files : list (string * option record) :=
  [("baseten_conc32"%string, Some (mk [("completed", VInt 60)]%string));
   ("summary"%string, Some (mk [("completed", VInt 60)]%string));
   ("broken"%string, None);
   ("run"%string, Some (mk [("max_concurrency", VInt 8)]%string))].

(** * Special floats and file names of any characters

    [json.load] also returns the floats [Infinity], [-Infinity] and [NaN]
    (for the JSON constants of these names, and an infinity for a literal
    that overflows, such as [1e400]), and a file name may hold any
    character.  The two loaders only read, compare and store the values
    they are given, without arithmetic, so that they are modelled here on
    all of these inputs: comparisons of numbers are exact in Python. *)

Module Wide.

(** A decoded JSON scalar. *)
Inductive value : Type :=
  | Val (v : Py.value)      (* None, a bool, an int, a finite float, a str *)
  | Inf (negative : bool)   (* float('inf'), float('-inf') *)
  | NaN.                    (* float('nan') *)

Coercion Val : Py.value >-> value.

(** The place of a number on the extended real line. *)
Inductive ext : Type :=
  | ENaN
  | ENeg
  | EReal (q : Q)
  | EPos.

Definition as_ext (v : value) : option ext :=
  match v with
  | Val w =>
      match as_num w with
      | Some q => Some (EReal q)
      | None => None
      end
  | Inf true => Some ENeg
  | Inf false => Some EPos
  | NaN => Some ENaN
  end.

(** NaN is equal to nothing, not even to itself. *)
Definition ext_eqb (a b : ext) : bool :=
  match a, b with
  | EReal p, EReal q => Qeq_bool p q
  | ENeg, ENeg => true
  | EPos, EPos => true
  | _, _ => false
  end.

(** NaN is neither below nor above anything. *)
Definition ext_ltb (a b : ext) : bool :=
  match a, b with
  | EReal p, EReal q => Qlt_bool p q
  | ENeg, EReal _ => true
  | ENeg, EPos => true
  | EReal _, EPos => true
  | _, _ => false
  end.

(** [v == w] *)
Definition py_eq (v w : value) : bool :=
  match as_ext v, as_ext w with
  | Some a, Some b => ext_eqb a b
  | None, None =>
      match v, w with
      | Val VNone, Val VNone => true
      | Val (VStr s), Val (VStr t) => String.eqb s t
      | _, _ => false
      end
  | _, _ => false
  end.

(** [v < w] *)
Definition py_lt (v w : value) : res bool :=
  match as_ext v, as_ext w with
  | Some a, Some b => Ok (ext_ltb a b)
  | None, None =>
      match v, w with
      | Val (VStr s), Val (VStr t) => Ok (String.ltb s t)
      | _, _ => Err TypeError
      end
  | _, _ => Err TypeError
  end.

(** [v > w] *)
Definition py_gt (v w : value) : res bool :=
  match as_ext v, as_ext w with
  | Some a, Some b => Ok (ext_ltb b a)
  | None, None =>
      match v, w with
      | Val (VStr s), Val (VStr t) => Ok (String.ltb t s)
      | _, _ => Err TypeError
      end
  | _, _ => Err TypeError
  end.

Definition is_nan (v : value) : bool :=
  match v with
  | NaN => true
  | _ => false
  end.

(** A decoded JSON object. *)
Abbreviation record := (gmap string value).

(** [r.get(k, d)] *)
Definition get (r : record) (k : string) (d : value) : value :=
  default d (r !! k).

(** [r[k]] *)
Definition getitem (r : record) (k : string) : res value :=
  match r !! k with
  | Some v => Ok v
  | None => Err KeyError
  end.

(** ** Loader B: [load_b200_trt_results] *)

Definition is_b200_trt (r : record) : bool :=
  py_eq (get r "hw" VNone) (VStr "b200-trt")
  || py_eq (get r "hw" VNone) (VStr "b200-nvs")
  || (py_eq (get r "hw" VNone) (VStr "b200")
      && py_eq (get r "framework" VNone) (VStr "trt")).

(** A [dict] finds a key that is the same object as the one stored, or
    equal to it under [==].  [json.load] returns one and the same float
    object for every [NaN] it reads, so that a concurrency of NaN is found
    again as a key although it is not equal to itself. *)
Definition same_key (k k' : value) : bool :=
  py_eq k k' || (is_nan k && is_nan k').

Definition dict := list (value * record).

Fixpoint dict_lookup (d : dict) (k : value) : option record :=
  match d with
  | [] => None
  | (k', r) :: d' => if same_key k' k then Some r else dict_lookup d' k
  end.

Fixpoint dict_set (d : dict) (k : value) (r : record) : dict :=
  match d with
  | [] => [(k, r)]
  | (k', r') :: d' =>
      if same_key k' k then (k', r) :: d' else (k', r') :: dict_set d' k r
  end.

Definition dict_values (d : dict) : list record := map snd d.

Definition select_step (best_by_conc : dict) (r : record) : res dict :=
  let conc := get r "conc" (VInt 0) in
  let tp := get r "tp" (VInt 0) in
  let tput_per_gpu := get r "tput_per_gpu" (VInt 0) in
  match dict_lookup best_by_conc conc with
  | None => Ok (dict_set best_by_conc conc r)
  | Some cur =>
      if py_eq tp (VInt 8) then Ok (dict_set best_by_conc conc r)
      else if negb (py_eq (get cur "tp" (VInt 0)) (VInt 8)) then
        let* cur_tput := getitem cur "tput_per_gpu" in
        let* better := py_gt tput_per_gpu cur_tput in
        if better then Ok (dict_set best_by_conc conc r) else Ok best_by_conc
      else Ok best_by_conc
  end.

Fixpoint select_loop (best_by_conc : dict) (rs : list record) : res dict :=
  match rs with
  | [] => Ok best_by_conc
  | r :: rs' =>
      let* d := select_step best_by_conc r in
      select_loop d rs'
  end.

(** [sorted(l, key=key)] and [l.sort(key=key)]: the stable sort of
    [sort_by], comparing keys with [<].  When no key is NaN, [<] orders the
    keys it can compare and every stable sort returns the same list.  With
    NaN among the keys the list that [list.sort] returns depends on how it
    merges its runs; like [list.sort], this sort returns a list without a
    descent between neighbours as it is. *)
Definition py_sorted {A : Type} (key : A -> value) (l : list A) : res (list A) :=
  sort_by (fun a b => py_lt (key a) (key b)) l.

Definition conc_key (r : record) : value := get r "conc" (VInt 0).

Definition load_b200_trt_results (all_data : list record)
  : res (list record * list record) :=
  let b200_trt := filter (fun r => is_b200_trt r = true) all_data in
  let* best_by_conc := select_loop [] b200_trt in
  let* best := py_sorted conc_key (dict_values best_by_conc) in
  Ok (best, b200_trt).

(** ** Notions used in the statements *)

(** A number, special floats included. *)
Definition number (v : value) : Prop := is_Some (as_ext v).

Definition keys_distinct (d : dict) : Prop :=
  ForallOrdPairs (fun e1 e2 => same_key (fst e1) (fst e2) = false) d.

Definition keys_match (d : dict) : Prop :=
  Forall (fun e => same_key (fst e) (conc_key (snd e)) = true) d.

Definition well_formed_b200 (r : record) : Prop :=
  number (conc_key r)
  /\ exists v, r !! "tput_per_gpu"%string = Some v /\ number v.

(** Strictly ascending, and ascending, under a sort key. *)
Definition key_lt {A : Type} (key : A -> value) (a b : A) : Prop :=
  py_lt (key a) (key b) = Ok true.

Definition key_le {A : Type} (key : A -> value) (a b : A) : Prop :=
  py_lt (key b) (key a) = Ok false.

(** ** Sample records *)

Definition mk (l : list (string * value)) : record := list_to_map l.

(** A B200 TensorRT record of degree 8 at a concurrency. *)
Definition b200_at (conc : value) : record :=
  mk [("hw", Val (VStr "b200-trt")); ("conc", conc); ("tp", Val (VInt 8));
      ("tput_per_gpu", Val (VInt 400)); ("median_e2el", Val (VInt 1))]%string.

(** ** Loader A: [load_baseten_results] *)

(** A file name is a [str], taken as the list of the code points of its
    characters.  [codes] gives the characters of an ASCII literal. *)
Definition codes (s : string) : list N := map N_of_ascii (list_ascii_of_string s).

Section FileNames.
(** [unicodedata.decimal]: the value of a character that is a decimal
    digit, for [\d] and for [int].  Which characters beyond ASCII are
    digits depends on the Unicode tables of the interpreter. *)
Context (decimal : N -> option Z).

Definition is_digit (c : N) : bool :=
  match decimal c with
  | Some _ => true
  | None => false
  end.

(** The longest prefix of digits and the rest. *)
Fixpoint span_digits (s : list N) : list N * list N :=
  match s with
  | c :: s' =>
      if is_digit c then
        let (ds, rest) := span_digits s' in (c :: ds, rest)
      else ([], s)
  | [] => ([], [])
  end.

Fixpoint strip_prefix (p s : list N) : option (list N) :=
  match p, s with
  | [], _ => Some s
  | a :: p', b :: s' => if (a =? b)%N then strip_prefix p' s' else None
  | _ :: _, [] => None
  end.

(** [conc(\d+)] anchored at the start of [s]: the captured group. *)
Definition match_conc_here (s : list N) : option (list N) :=
  match strip_prefix (codes "conc") s with
  | Some rest =>
      match fst (span_digits rest) with
      | [] => None
      | ds => Some ds
      end
  | None => None
  end.

(** [re.search(r'conc(\d+)', s)]: the group of the leftmost match. *)
Fixpoint re_search_conc (s : list N) : option (list N) :=
  match match_conc_here s with
  | Some ds => Some ds
  | None =>
      match s with
      | _ :: s' => re_search_conc s'
      | [] => None
      end
  end.

(** [int(ds)] for a string of decimal digits (a file name is far shorter
    than the 4300 digits from which [int] refuses a string). *)
Fixpoint int_of_digits_acc (acc : Z) (ds : list N) : Z :=
  match ds with
  | [] => acc
  | c :: ds' => int_of_digits_acc (10 * acc + default 0 (decimal c)) ds'
  end.

Definition int_of_digits (ds : list N) : Z := int_of_digits_acc 0 ds.

(** The concurrency of one file: metadata first, then the file name.
    [None] when neither gives a value. *)
Definition resolve_concurrency (stem : list N) (result : record) : value :=
  match get result "max_concurrency" VNone with
  | Val VNone =>
      match re_search_conc stem with
      | Some ds => Val (VInt (int_of_digits ds))
      | None => Val VNone
      end
  | conc => conc
  end.

(** The body of the [for] loop: [None] when the file contributes nothing.
    A file that cannot be opened or decoded to an object ([None] as
    content) raises inside the [try] and only prints a warning. *)
Definition load_one (file : list N * option record) : option record :=
  match file with
  | (stem, Some result) =>
      match resolve_concurrency stem result with
      | Val VNone => None
      | conc => Some (<["concurrency" := conc]> result)
      end
  | (_, None) => None
  end.

Definition concurrency_key (r : record) : value := get r "concurrency" (VInt 0).

(** [files]: the stems of the [*.json] files of the directory, in the
    order of [glob], each with its decoded object if there is one. *)
Definition load_baseten_results (files : list (list N * option record))
  : res (list record) :=
  py_sorted concurrency_key (omap load_one files).

(** A substring [conc] followed by a digit starts right after [pre]. *)
Definition conc_digit_after (pre s : list N) : Prop :=
  exists d rest, s = pre ++ codes "conc" ++ d :: rest /\ is_digit d = true.

Definition no_leading_digit (s : list N) : Prop :=
  match s with
  | [] => True
  | c :: _ => is_digit c = false
  end.
End FileNames.

(** Every interpreter has the ASCII digits, and no other ASCII character
    is a digit; the value of a digit is between 0 and 9. *)
Definition ascii_digits (decimal : N -> option Z) : Prop :=
  forall c, (c < 128)%N ->
    decimal c = if ((48 <=? c) && (c <=? 57))%N then Some (Z.of_N c - 48) else None.

Definition digit_values (decimal : N -> option Z) : Prop :=
  forall c d, decimal c = Some d -> 0 <= d <= 9.

(** A table with the ASCII digits and the Arabic-Indic digits
    (U+0660 to U+0669). *)
Definition sample_decimal (c : N) : option Z :=
  if (c <? 128)%N then
    if ((48 <=? c) && (c <=? 57))%N then Some (Z.of_N c - 48) else None
  else if ((1632 <=? c) && (c <=? 1641))%N then Some (Z.of_N c - 1632)
  else None.

Definition sample_files : list (list N * option record) :=
  [(codes "baseten_conc32", Some (mk [("completed", Val (VInt 60))]%string));
   (codes "summary", Some (mk [("completed", Val (VInt 60))]%string));
   (codes "broken", None);
   (codes "run", Some (mk [("max_concurrency", Val (VInt 8))]%string))].

(** ** What the chart functions compute for the drawing calls *)

(** A vertex of a trend line: [(conc, e2el, tput)], an element of
    [zip(concs, e2els, tputs)]. *)
Definition vertex : Type := value * value * value.

(** [a < b] on tuples of three: the first components that differ under
    [==] decide; equal tuples are not below each other.  (Python takes
    two components that are one and the same object as equal without
    asking [==], which only matters for NaN.) *)
Definition tuple3_lt (a b : vertex) : res bool :=
  let '(a1, a2, a3) := a in
  let '(b1, b2, b3) := b in
  if negb (py_eq a1 b1) then py_lt a1 b1
  else if negb (py_eq a2 b2) then py_lt a2 b2
  else if negb (py_eq a3 b3) then py_lt a3 b3
  else Ok false.

(** The dashed line of a series: drawn for two points or more, through the
    points sorted as tuples. *)
Definition trend_line (pts : list vertex) : res (option (list vertex)) :=
  if (1 <? length pts)%nat then
    let* s := sort_by tuple3_lt pts in Ok (Some s)
  else Ok None.

Definition vertex_conc (v : vertex) : value := fst (fst v).

(** Not above: equal under [==], or below. *)
Definition val_le (a b : value) : Prop :=
  py_eq a b = true \/ py_lt a b = Ok true.

Definition no_nan (v : vertex) : Prop :=
  is_nan (fst (fst v)) = false /\ is_nan (snd (fst v)) = false /\ is_nan (snd v) = false.

Record config_point : Type := ConfigPoint {
  cp_e2el : value;
  cp_tput : value;
  cp_conc : value;
  cp_tp : value
}.

Definition config_point_of (r : record) : config_point :=
  ConfigPoint (get r "median_e2el" (VInt 0)) (get r "tput_per_gpu" (VInt 0))
    (get r "conc" (VInt 0)) (get r "tp" (VInt 0)).

(** [set(l)], as the list of the first occurrences; a [set] tells its
    members apart like a [dict] its keys.  (The order in which a [set] is
    iterated is another one; it does not matter to [sorted] when the
    members can be ordered.) *)
Fixpoint py_set (l : list value) : list value :=
  match l with
  | [] => []
  | v :: l' => v :: filter (fun w => same_key v w = false) (py_set l')
  end.

(** The scatter groups of the detailed chart, one for each degree of
    [sorted(set(b200_all_tps))], with the points of that degree. *)
Definition tp_groups (pts : list config_point) : res (list (value * list config_point)) :=
  let* tps := py_sorted (fun v => v) (py_set (map cp_tp pts)) in
  Ok (map (fun tp => (tp, filter (fun p => py_eq (cp_tp p) tp = true) pts)) tps).

(** A B200 record of a given degree. *)
Definition b200_tp (conc tp : Z) : record :=
  mk [("hw", Val (VStr "b200-trt")); ("conc", Val (VInt conc)); ("tp", Val (VInt tp));
      ("tput_per_gpu", Val (VInt 400)); ("median_e2el", Val (VInt 1))]%string.

End Wide.

(** ** Finite values among all values *)

(** A record, a dictionary and a result of [Py] as those of [Wide]. *)
Definition lift (r : record) : Wide.record := Wide.Val <$> r.

Definition lift_dict (d : dict) : Wide.dict :=
  map (fun e => (Wide.Val (fst e), lift (snd e))) d.

Definition lift_res {A B : Type} (f : A -> B) (m : res A) : res B :=
  match m with
  | Ok a => Ok (f a)
  | Err e => Err e
  end.

Definition lift_file (file : string * option record) : list N * option Wide.record :=
  (Wide.codes (fst file), lift <$> snd file).

Definition is_ascii (s : string) : Prop :=
  Forall (fun c => (N_of_ascii c < 128)%N) (list_ascii_of_string s).

(** * Properties *)

(** ** Python values *)

Lemma py_eq_classify v w : py_eq v w = kind_eqb (classify v) (classify w).
Proof. destruct v, w; reflexivity. Qed.

Lemma kind_eqb_refl a : kind_eqb a a = true.
Proof.
  destruct a; simpl; auto.
  - apply Qeq_bool_iff. reflexivity.
  - apply String.eqb_refl.
Qed.

Lemma kind_eqb_sym a b : kind_eqb a b = kind_eqb b a.
Proof.
  destruct a, b; simpl; auto.
  - apply eq_true_iff_eq. rewrite !Qeq_bool_iff. split; intros H; symmetry; exact H.
  - apply String.eqb_sym.
Qed.

Lemma kind_eqb_trans a b c :
  kind_eqb a b = true -> kind_eqb b c = true -> kind_eqb a c = true.
Proof.
  destruct a, b, c; simpl; try discriminate; auto.
  - rewrite !Qeq_bool_iff. intros H1 H2. rewrite H1. exact H2.
  - rewrite !String.eqb_eq. congruence.
Qed.

Lemma py_eq_refl v : py_eq v v = true.
Proof. rewrite py_eq_classify. apply kind_eqb_refl. Qed.

Lemma py_eq_sym v w : py_eq v w = py_eq w v.
Proof. rewrite !py_eq_classify. apply kind_eqb_sym. Qed.

Lemma py_eq_trans u v w :
  py_eq u v = true -> py_eq v w = true -> py_eq u w = true.
Proof. rewrite !py_eq_classify. apply kind_eqb_trans. Qed.

(** Equal keys cannot be told apart by [==]. *)
Lemma py_eq_congr u v w : py_eq u v = true -> py_eq u w = py_eq v w.
Proof.
  intros H. destruct (py_eq v w) eqn:E.
  - eapply py_eq_trans; eauto.
  - destruct (py_eq u w) eqn:E'; auto.
    rewrite <- E. symmetry. eapply py_eq_trans; [|exact E'].
    rewrite py_eq_sym. exact H.
Qed.

Lemma py_lt_classify v w : py_lt v w = kind_ltb (classify v) (classify w).
Proof. destruct v, w; reflexivity. Qed.

Lemma py_gt_lt v w : py_gt v w = py_lt w v.
Proof. destruct v, w; reflexivity. Qed.

Lemma Qlt_bool_iff p q : Qlt_bool p q = true <-> (p < q)%Q.
Proof.
  unfold Qlt_bool. rewrite negb_true_iff, <- not_true_iff_false, Qle_bool_iff.
  split; [apply Qnot_le_lt | apply Qlt_not_le].
Qed.

Lemma Qlt_bool_false_iff p q : Qlt_bool p q = false <-> (q <= p)%Q.
Proof.
  unfold Qlt_bool. rewrite negb_false_iff. apply Qle_bool_iff.
Qed.

Lemma string_ltb_iff s t : String.ltb s t = true <-> String_as_OT.lt s t.
Proof.
  unfold String.ltb. rewrite <- String_as_OT.cmp_lt. unfold String_as_OT.cmp.
  destruct (String.compare s t); split; congruence.
Qed.

Lemma kind_ltb_asym a b : kind_ltb a b = Ok true -> kind_ltb b a = Ok false.
Proof.
  destruct a, b; simpl; try discriminate; intros [= H]; f_equal.
  - apply Qlt_bool_false_iff. apply Qlt_le_weak. apply Qlt_bool_iff. exact H.
  - unfold String.ltb in *. rewrite String.compare_antisym.
    destruct (String.compare s s0); simpl; congruence.
Qed.

Lemma kind_ltb_trans a b c :
  kind_ltb a b = Ok true -> kind_ltb b c = Ok true -> kind_ltb a c = Ok true.
Proof.
  destruct a, b, c; simpl; try discriminate; intros [= H1] [= H2]; f_equal.
  - apply Qlt_bool_iff. apply Qlt_bool_iff in H1, H2. eapply Qlt_trans; eauto.
  - apply string_ltb_iff. apply string_ltb_iff in H1, H2.
    eapply String_as_OT.lt_trans; eauto.
Qed.

(** Within a class, two keys are equal or one is below the other. *)
Lemma kind_ltb_total a b :
  kind_ltb b a = Ok false -> kind_eqb a b = false -> kind_ltb a b = Ok true.
Proof.
  destruct a, b; simpl; try discriminate; intros [= H1] H2; f_equal.
  - apply Qlt_bool_iff. apply Qlt_bool_false_iff in H1.
    apply Qle_lt_or_eq in H1. destruct H1 as [H1 | H1]; auto.
    apply Qeq_bool_iff in H1. congruence.
  - unfold String.ltb in *. rewrite String.compare_antisym.
    destruct (String.compare s0 s) eqn:E; simpl; try congruence.
    apply String.compare_eq_iff in E. subst. rewrite String.eqb_refl in H2. discriminate.
Qed.

Lemma py_lt_asym v w : py_lt v w = Ok true -> py_lt w v = Ok false.
Proof. rewrite !py_lt_classify. apply kind_ltb_asym. Qed.

Lemma py_lt_trans u v w :
  py_lt u v = Ok true -> py_lt v w = Ok true -> py_lt u w = Ok true.
Proof. rewrite !py_lt_classify. apply kind_ltb_trans. Qed.

Lemma py_lt_total v w :
  py_lt w v = Ok false -> py_eq v w = false -> py_lt v w = Ok true.
Proof. rewrite !py_lt_classify, py_eq_classify. apply kind_ltb_total. Qed.

Lemma py_lt_not_eq v w : py_lt v w = Ok true -> py_eq v w = false.
Proof.
  intros H. destruct (py_eq v w) eqn:E; auto.
  pose proof (py_lt_asym _ _ H) as H'.
  rewrite py_lt_classify in H, H'. rewrite py_eq_classify in E.
  destruct (classify v), (classify w); simpl in *; try discriminate.
  - injection H as H. apply Qlt_bool_iff in H. apply Qeq_bool_iff in E.
    rewrite E in H. exfalso. eapply Qlt_irrefl; eauto.
  - apply String.eqb_eq in E. subst. congruence.
Qed.

(** ** The error monad *)

Lemma bind_ok {A B : Type} (m : res A) (k : A -> res B) (b : B) :
  bind m k = Ok b -> exists a, m = Ok a /\ k a = Ok b.
Proof. destruct m; simpl; [eauto | discriminate]. Qed.

Ltac inv_ok :=
  repeat match goal with
  | H : bind _ _ = Ok _ |- _ =>
      let a := fresh "a" in
      let Ha := fresh "Ha" in
      apply bind_ok in H; destruct H as (a & Ha & H)
  | H : Ok _ = Ok _ |- _ => injection H as H; subst
  | H : Err _ = Ok _ |- _ => discriminate H
  | H : sys_exit _ = Ok _ |- _ => discriminate H
  end.

(** ** Loader B *)

(** *** The dictionary *)

Lemma dict_lookup_set (d : dict) k r k' :
  dict_lookup (dict_set d k r) k' =
  if py_eq k k' then Some r else dict_lookup d k'.
Proof.
  induction d as [| [k0 r0] d IH]; simpl.
  - reflexivity.
  - destruct (py_eq k0 k) eqn:E; simpl.
    + rewrite (py_eq_congr _ _ k' E). destruct (py_eq k k'); reflexivity.
    + destruct (py_eq k0 k') eqn:E'; auto.
      destruct (py_eq k k') eqn:E''; auto.
      rewrite py_eq_sym in E''. rewrite (py_eq_trans _ _ _ E' E'') in E. discriminate.
Qed.

Lemma dict_lookup_set_eq (d : dict) k r : dict_lookup (dict_set d k r) k = Some r.
Proof. rewrite dict_lookup_set, py_eq_refl. reflexivity. Qed.

Lemma dict_lookup_congr (d : dict) k k' :
  py_eq k k' = true -> dict_lookup d k = dict_lookup d k'.
Proof.
  intros H. induction d as [| [k0 r0] d IH]; simpl; auto.
  rewrite IH. rewrite !(py_eq_sym k0). rewrite (py_eq_congr _ _ k0 H). reflexivity.
Qed.

(** Every step either leaves the dictionary alone or stores the candidate
    under its own concurrency. *)
Lemma select_step_cases d r d' :
  select_step d r = Ok d' ->
  d' = d \/ d' = dict_set d (conc_key r) r.
Proof.
  unfold select_step, conc_key. intros H.
  destruct (dict_lookup d _) as [cur|]; [| inv_ok; auto].
  destruct (py_eq (get r "tp" _) _); [inv_ok; auto |].
  destruct (negb _); [| inv_ok; auto].
  inv_ok. destruct a0; inv_ok; auto.
Qed.

(** A record of degree 8 is not displaced by a candidate of another degree. *)
Lemma select_step_keeps_tp8 d r d' c cur :
  dict_lookup d c = Some cur ->
  py_eq (get cur "tp" (VInt 0)) (VInt 8) = true ->
  select_step d r = Ok d' ->
  (dict_lookup d' c = Some cur) \/
  (dict_lookup d' c = Some r /\ py_eq (conc_key r) c = true
   /\ py_eq (get r "tp" (VInt 0)) (VInt 8) = true).
Proof.
  intros Hl Htp H. unfold select_step in H. fold (conc_key r) in H.
  destruct (py_eq (conc_key r) c) eqn:Ec.
  - rewrite (dict_lookup_congr d _ _ Ec), Hl in H.
    destruct (py_eq (get r "tp" _) _) eqn:Er.
    + inv_ok. right. rewrite dict_lookup_set, Ec. auto.
    + rewrite Htp in H. simpl in H. inv_ok. auto.
  - left. apply select_step_cases in H as H'. destruct H' as [-> | ->]; auto.
    rewrite dict_lookup_set, Ec. exact Hl.
Qed.

Lemma select_loop_keeps_tp8 rs : forall d d' c cur,
  dict_lookup d c = Some cur ->
  py_eq (get cur "tp" (VInt 0)) (VInt 8) = true ->
  select_loop d rs = Ok d' ->
  exists cur',
    dict_lookup d' c = Some cur'
    /\ py_eq (get cur' "tp" (VInt 0)) (VInt 8) = true
    /\ (cur' = cur \/ (In cur' rs /\ py_eq (conc_key cur') c = true))
    /\ ((forall r, In r rs -> py_eq (conc_key r) c = true ->
                   py_eq (get r "tp" (VInt 0)) (VInt 8) = false) -> cur' = cur).
Proof.
  induction rs as [| r rs IH]; simpl; intros d d' c cur Hl Htp H.
  - inv_ok. exists cur. auto.
  - inv_ok. destruct (select_step_keeps_tp8 _ _ _ _ _ Hl Htp Ha) as [Hk | (Hk & Hc & Hr)].
    + destruct (IH _ _ _ _ Hk Htp H) as (cur' & H1 & H2 & H3 & H4).
      exists cur'. split; [exact H1 |]. split; [exact H2 |]. split.
      * destruct H3 as [-> | [? ?]]; auto.
      * intros Hno. apply H4. intros; apply Hno; auto.
    + destruct (IH _ _ _ _ Hk Hr H) as (cur' & H1 & H2 & H3 & H4).
      exists cur'. split; [exact H1 |]. split; [exact H2 |]. split.
      * destruct H3 as [-> | [? ?]]; auto.
      * intros Hno. rewrite (Hno r) in Hr; auto. discriminate.
Qed.

(** A candidate of degree 8 always becomes the best of its concurrency. *)
Lemma select_step_tp8 d r :
  py_eq (get r "tp" (VInt 0)) (VInt 8) = true ->
  select_step d r = Ok (dict_set d (conc_key r) r).
Proof.
  intros H. unfold select_step. fold (conc_key r). rewrite H.
  destruct (dict_lookup d (conc_key r)); reflexivity.
Qed.

(** *** Sorting *)

Section SortedFacts.
Context {A : Type} (key : A -> value).

Lemma sort_insert_perm x l : forall l',
  sort_insert key x l = Ok l' -> Permutation (x :: l) l'.
Proof.
  induction l as [| y l IH]; simpl; intros l' H.
  - inv_ok. reflexivity.
  - inv_ok. destruct a.
    + inv_ok. rewrite perm_swap. constructor. apply IH. exact Ha0.
    + inv_ok. reflexivity.
Qed.

Lemma py_sorted_perm l : forall s, py_sorted key l = Ok s -> Permutation l s.
Proof.
  induction l as [| x l IH]; simpl; intros s H.
  - inv_ok. reflexivity.
  - inv_ok. rewrite (IH _ Ha). apply sort_insert_perm. exact H.
Qed.

Lemma sort_insert_sorted x l : forall l',
  StronglySorted (key_lt key) l ->
  Forall ((key_ne key) x) l ->
  sort_insert key x l = Ok l' ->
  StronglySorted (key_lt key) l'.
Proof.
  induction l as [| y l IH]; simpl; intros l' Hs Hne H.
  - inv_ok. repeat constructor.
  - apply StronglySorted_inv in Hs as [Hs Hy].
    apply Forall_cons_iff in Hne as [Hxy Hne].
    inv_ok. destruct a.
    + inv_ok. constructor; [eapply IH; eauto |].
      eapply Permutation_Forall; [apply sort_insert_perm; exact Ha0 |].
      constructor; auto.
    + inv_ok. pose proof (py_lt_total _ _ Ha Hxy) as Hlt.
      constructor; [constructor; auto |].
      constructor; [exact Hlt |].
      eapply Forall_impl; [exact Hy |].
      intros z Hz. eapply py_lt_trans; eauto.
Qed.

Lemma py_sorted_sorted l : forall s,
  ForallOrdPairs (key_ne key) l ->
  py_sorted key l = Ok s ->
  StronglySorted (key_lt key) s.
Proof.
  induction l as [| x l IH]; simpl; intros s Hne H.
  - inv_ok. constructor.
  - inversion Hne; subst. inv_ok.
    eapply sort_insert_sorted; [eapply IH; eauto | | exact H].
    eapply Permutation_Forall; [apply py_sorted_perm; exact Ha | assumption].
Qed.

Lemma sort_insert_total x l :
  is_Some (as_num (key x)) ->
  Forall (fun y => is_Some (as_num (key y))) l ->
  exists l', sort_insert key x l = Ok l'.
Proof.
  intros [qx Hx]. induction 1 as [| y l [qy Hy] _ [l' IH]]; simpl; eauto.
  unfold py_lt. rewrite Hx, Hy. simpl.
  destruct (Qlt_bool qy qx); eauto. rewrite IH. simpl. eauto.
Qed.

Lemma py_sorted_total l :
  Forall (fun y => is_Some (as_num (key y))) l ->
  exists s, py_sorted key l = Ok s.
Proof.
  induction 1 as [| x l Hx Hl [s IH]]; simpl; eauto.
  rewrite IH. simpl. apply sort_insert_total; auto.
  eapply Permutation_Forall; [apply py_sorted_perm; exact IH | exact Hl].
Qed.

(** A strictly sorted list holds each key at most once. *)
Lemma sorted_lookup_inj (l : list A) : forall i j a b,
  StronglySorted (key_lt key) l ->
  l !! i = Some a -> l !! j = Some b ->
  py_eq (key a) (key b) = true -> i = j.
Proof.
  assert (Hlt : forall (l : list A) i j a b, StronglySorted (key_lt key) l ->
            l !! i = Some a -> l !! j = Some b -> (i < j)%nat -> (key_lt key) a b).
  { clear l. induction l as [| x l IH]; intros i j a b Hs Hi Hj Hij;
      [destruct i; discriminate |].
    apply StronglySorted_inv in Hs as [Hs Hx].
    destruct j as [| j]; [lia |]. simpl in Hj.
    destruct i as [| i]; simpl in Hi.
    - injection Hi as ->. rewrite Forall_forall in Hx. apply Hx.
      eapply list_elem_of_lookup_2; eauto.
    - eapply IH; eauto. lia. }
  intros i j a b Hs Hi Hj He.
  destruct (lt_eq_lt_dec i j) as [[H | H] | H]; auto.
  - apply (Hlt l i j a b Hs Hi Hj) in H. apply py_lt_not_eq in H. congruence.
  - apply (Hlt l j i b a Hs Hj Hi) in H. apply py_lt_not_eq in H.
    rewrite py_eq_sym in H. congruence.
Qed.
End SortedFacts.

Lemma dict_set_Forall_key (P : value -> Prop) d k r :
  Forall (fun e => P (fst e)) d -> P k ->
  Forall (fun e => P (fst e)) (dict_set d k r).
Proof.
  intros Hd Hk. induction Hd as [| [k0 r0] d H0 Hd IH]; simpl.
  - repeat constructor. exact Hk.
  - destruct (py_eq k0 k); constructor; auto.
Qed.

Lemma dict_set_keys_distinct d k r :
  keys_distinct d -> keys_distinct (dict_set d k r).
Proof.
  unfold keys_distinct.
  induction 1 as [| [k0 r0] d H0 Hd IH]; simpl.
  - repeat constructor.
  - destruct (py_eq k0 k) eqn:E; constructor; auto.
    apply (dict_set_Forall_key (fun k' => py_eq k0 k' = false)); auto.
Qed.

Lemma dict_set_keys_match d r :
  keys_match d -> keys_match (dict_set d (conc_key r) r).
Proof.
  unfold keys_match.
  induction 1 as [| [k0 r0] d H0 Hd IH]; simpl.
  - repeat constructor. apply py_eq_refl.
  - destruct (py_eq k0 (conc_key r)) eqn:E; constructor; auto.
Qed.

Lemma select_loop_invariant rs : forall d d',
  keys_distinct d -> keys_match d ->
  select_loop d rs = Ok d' ->
  keys_distinct d' /\ keys_match d'.
Proof.
  induction rs as [| r rs IH]; simpl; intros d d' H1 H2 H.
  - inv_ok. auto.
  - inv_ok. apply select_step_cases in Ha as [-> | ->].
    + eapply IH; eauto.
    + eapply IH; [| | exact H].
      * apply dict_set_keys_distinct; auto.
      * apply dict_set_keys_match; auto.
Qed.

Lemma dict_values_distinct d :
  keys_distinct d -> keys_match d ->
  ForallOrdPairs (key_ne conc_key) (dict_values d).
Proof.
  unfold keys_distinct, keys_match, dict_values.
  induction 1 as [| [k0 r0] d H0 Hd IH]; simpl; intros Hm.
  - constructor.
  - apply Forall_cons_iff in Hm as [Hk Hm]. simpl in Hk.
    constructor; auto.
    apply Forall_map. rewrite Forall_forall in H0, Hm |- *.
    intros [k1 r1] Hin. specialize (H0 _ Hin). specialize (Hm _ Hin).
    simpl in *. unfold key_ne.
    rewrite <- (py_eq_congr _ _ _ Hk), py_eq_sym, <- (py_eq_congr _ _ _ Hm), py_eq_sym.
    exact H0.
Qed.

(** *** Well-formed B200 records: the loader does not raise on them *)

Lemma dict_set_values_Forall (P : record -> Prop) d k r :
  Forall P (dict_values d) -> P r -> Forall P (dict_values (dict_set d k r)).
Proof.
  unfold dict_values. induction d as [| [k0 r0] d IH]; simpl; intros Hd Hr.
  - repeat constructor. exact Hr.
  - apply Forall_cons_iff in Hd as [H0 Hd].
    destruct (py_eq k0 k); simpl; constructor; auto.
Qed.

Lemma dict_lookup_values d k r :
  dict_lookup d k = Some r -> In r (dict_values d).
Proof.
  induction d as [| [k0 r0] d IH]; simpl; [discriminate |].
  destruct (py_eq k0 k); [intros [= ->]; auto | auto].
Qed.

Lemma select_step_total d r :
  Forall well_formed_b200 (dict_values d) -> well_formed_b200 r ->
  exists d', select_step d r = Ok d'.
Proof.
  intros Hd [_ (v & Hv & [q Hq])]. unfold select_step.
  destruct (dict_lookup d _) as [cur|] eqn:El; eauto.
  destruct (py_eq (get r "tp" _) _); eauto.
  destruct (negb _); eauto.
  apply dict_lookup_values in El. rewrite Forall_forall in Hd.
  apply list_elem_of_In, Hd in El. destruct El as [_ (v' & Hv' & [q' Hq'])].
  unfold getitem, get. rewrite Hv', Hv. simpl.
  unfold py_gt. rewrite Hq, Hq'. simpl. destruct (Qlt_bool q' q); eauto.
Qed.

Lemma select_loop_total rs : forall d,
  Forall well_formed_b200 (dict_values d) -> Forall well_formed_b200 rs ->
  exists d', select_loop d rs = Ok d' /\ Forall well_formed_b200 (dict_values d').
Proof.
  induction rs as [| r rs IH]; simpl; intros d Hd Hrs; eauto.
  apply Forall_cons_iff in Hrs as [Hr Hrs].
  destruct (select_step_total d r Hd Hr) as [d1 H1]. rewrite H1. simpl.
  apply IH; auto.
  apply select_step_cases in H1 as [-> | ->]; auto.
  apply dict_set_values_Forall; auto.
Qed.

Lemma select_loop_app pre : forall post d,
  select_loop d (pre ++ post) = let* d1 := select_loop d pre in select_loop d1 post.
Proof.
  induction pre as [| r pre IH]; simpl; intros post d; auto.
  destruct (select_step d r); simpl; auto.
Qed.

(** The selected records are records of the array, and every concurrency
    of the array has a selected record. *)
Lemma select_step_lookup_mono d r d' k :
  select_step d r = Ok d' -> is_Some (dict_lookup d k) -> is_Some (dict_lookup d' k).
Proof.
  intros H Hk. apply select_step_cases in H as [-> | ->]; auto.
  rewrite dict_lookup_set. destruct (py_eq _ _); eauto.
Qed.

Lemma select_step_lookup_self d r d' :
  select_step d r = Ok d' -> is_Some (dict_lookup d' (conc_key r)).
Proof.
  intros H. destruct (dict_lookup d (conc_key r)) eqn:E.
  - eapply select_step_lookup_mono; [exact H | rewrite E; eauto].
  - unfold select_step in H. fold (conc_key r) in H. rewrite E in H.
    inv_ok. rewrite dict_lookup_set_eq. eauto.
Qed.

Lemma select_loop_lookup rs : forall d d',
  select_loop d rs = Ok d' ->
  (forall k, is_Some (dict_lookup d k) -> is_Some (dict_lookup d' k))
  /\ (forall r, In r rs -> is_Some (dict_lookup d' (conc_key r))).
Proof.
  induction rs as [| r rs IH]; simpl; intros d d' H.
  - inv_ok. split; [auto | contradiction].
  - inv_ok. destruct (IH _ _ H) as [IH1 IH2]. split.
    + intros k Hk. apply IH1. eapply select_step_lookup_mono; eauto.
    + intros r' [<- | Hin]; auto.
      apply IH1. eapply select_step_lookup_self; eauto.
Qed.

Lemma dict_set_values_In d k r x :
  In x (dict_values (dict_set d k r)) -> x = r \/ In x (dict_values d).
Proof.
  unfold dict_values. induction d as [| [k0 r0] d IH]; simpl.
  - intros [<- | []]; auto.
  - destruct (py_eq k0 k); simpl; intros [<- | Hin]; auto.
    destruct (IH Hin); auto.
Qed.

Lemma select_loop_values rs : forall d d' x,
  select_loop d rs = Ok d' -> In x (dict_values d') ->
  In x (dict_values d) \/ In x rs.
Proof.
  induction rs as [| r rs IH]; simpl; intros d d' x H Hx.
  - inv_ok. auto.
  - inv_ok. destruct (IH _ _ _ H Hx) as [Hin | Hin]; auto.
    apply select_step_cases in Ha as [-> | ->]; auto.
    apply dict_set_values_In in Hin as [-> | Hin]; auto.
Qed.

Lemma dict_lookup_key d k r :
  keys_match d -> dict_lookup d k = Some r -> py_eq (conc_key r) k = true.
Proof.
  unfold keys_match. induction 1 as [| [k0 r0] d H0 Hd IH]; simpl; [discriminate |].
  destruct (py_eq k0 k) eqn:E; auto.
  intros [= ->]. simpl in H0. rewrite py_eq_sym in H0.
  eapply py_eq_trans; eauto.
Qed.

(** ** Claims about Loader B *)

(** The last record of degree 8 at a concurrency wins over what was
    selected before, as long as only other degrees follow at that
    concurrency. *)
Lemma select_loop_last_tp8 post1 post2 r c d d' :
  py_eq (conc_key r) c = true ->
  py_eq (get r "tp" (VInt 0)) (VInt 8) = true ->
  (forall r', In r' post2 -> py_eq (conc_key r') c = true ->
              py_eq (get r' "tp" (VInt 0)) (VInt 8) = false) ->
  select_loop d (post1 ++ r :: post2) = Ok d' ->
  dict_lookup d' c = Some r.
Proof.
  intros Hc Hr Hno H. rewrite select_loop_app in H. inv_ok.
  simpl in H. rewrite (select_step_tp8 _ _ Hr) in H. simpl in H.
  assert (Hl : dict_lookup (dict_set a (conc_key r) r) c = Some r)
    by (rewrite dict_lookup_set, Hc; reflexivity).
  destruct (select_loop_keeps_tp8 _ _ _ _ _ Hl Hr H) as (cur' & H1 & _ & _ & H4).
  rewrite H1. f_equal. apply H4. exact Hno.
Qed.

(** C2 (as amended): once a record of parallelism degree 8 is the current
    best of a concurrency value, the best of that value keeps degree 8
    whatever comes later in the array.  No later record of another degree
    displaces it: without a later record of degree 8 at that concurrency it
    stays the best.  A later record of degree 8 at that concurrency does
    take its place, the last such record being the one selected in the
    end; that record is in [bestPerConcurrency]. *)
Theorem C2_tp8_only_replaced_by_tp8 (pre post : list record) (d d' : dict)
    (c : value) (cur : record) :
  select_loop [] pre = Ok d ->
  dict_lookup d c = Some cur ->
  py_eq (get cur "tp" (VInt 0)) (VInt 8) = true ->
  select_loop [] (pre ++ post) = Ok d' ->
  exists cur',
    dict_lookup d' c = Some cur'
    /\ py_eq (get cur' "tp" (VInt 0)) (VInt 8) = true
    /\ (cur' = cur \/ (In cur' post /\ py_eq (conc_key cur') c = true))
    /\ ((forall r, In r post -> py_eq (conc_key r) c = true ->
                   py_eq (get r "tp" (VInt 0)) (VInt 8) = false) -> cur' = cur)
    /\ (forall post1 r post2,
          post = post1 ++ r :: post2 ->
          py_eq (conc_key r) c = true ->
          py_eq (get r "tp" (VInt 0)) (VInt 8) = true ->
          (forall r', In r' post2 -> py_eq (conc_key r') c = true ->
                      py_eq (get r' "tp" (VInt 0)) (VInt 8) = false) ->
          cur' = r)
    /\ (forall best, py_sorted conc_key (dict_values d') = Ok best -> In cur' best).
Proof.
  intros Hpre Hl Htp H. rewrite select_loop_app, Hpre in H. simpl in H.
  destruct (select_loop_keeps_tp8 _ _ _ _ _ Hl Htp H) as (cur' & H1 & H2 & H3 & H4).
  exists cur'. repeat (split; [assumption |]). split.
  - intros post1 r post2 -> Hc Hr Hno.
    pose proof (select_loop_last_tp8 _ _ _ _ _ _ Hc Hr Hno H) as Hlast.
    congruence.
  - intros best Hb. eapply Permutation_in; [exact (py_sorted_perm _ _ _ Hb) |].
    eapply dict_lookup_values; eauto.
Qed.

Lemma C2_tp8_only_replaced_by_tp8_witness :
  exists cur',
    dict_lookup [(VInt 16, b200 16 8 400)] (VInt 16) = Some cur'
    /\ py_eq (get cur' "tp" (VInt 0)) (VInt 8) = true
    /\ (cur' = b200 16 8 400
        \/ (In cur' [b200 16 2 900] /\ py_eq (conc_key cur') (VInt 16) = true))
    /\ ((forall r, In r [b200 16 2 900] -> py_eq (conc_key r) (VInt 16) = true ->
                   py_eq (get r "tp" (VInt 0)) (VInt 8) = false) ->
        cur' = b200 16 8 400)
    /\ (forall post1 r post2,
          [b200 16 2 900] = post1 ++ r :: post2 ->
          py_eq (conc_key r) (VInt 16) = true ->
          py_eq (get r "tp" (VInt 0)) (VInt 8) = true ->
          (forall r', In r' post2 -> py_eq (conc_key r') (VInt 16) = true ->
                      py_eq (get r' "tp" (VInt 0)) (VInt 8) = false) ->
          cur' = r)
    /\ (forall best,
          py_sorted conc_key (dict_values [(VInt 16, b200 16 8 400)]) = Ok best ->
          In cur' best).
Proof.
  apply (C2_tp8_only_replaced_by_tp8 [b200 16 8 400] [b200 16 2 900]
           [(VInt 16, b200 16 8 400)] [(VInt 16, b200 16 8 400)]
           (VInt 16) (b200 16 8 400)); reflexivity.
Defined.

(** C2 as stated fails for a later record of degree 8: the record of
    throughput 400 is the current best at concurrency 16 after the first
    step, and the later record of throughput 300 takes its place. *)
Lemma C2_counterexample :
  select_loop [] [b200 16 8 400] = Ok [(VInt 16, b200 16 8 400)]
  /\ py_eq (get (b200 16 8 400) "tp" (VInt 0)) (VInt 8) = true
  /\ select_loop [] [b200 16 8 400; b200 16 8 300] = Ok [(VInt 16, b200 16 8 300)]
  /\ load_b200_trt_results [b200 16 8 400; b200 16 8 300]
     = Ok ([b200 16 8 300], [b200 16 8 400; b200 16 8 300])
  /\ b200 16 8 300 <> b200 16 8 400.
Proof.
  repeat (split; [reflexivity |]).
  intros H. apply (f_equal (fun r => get r "tput_per_gpu" (VInt 0))) in H.
  change (VInt 300 = VInt 400) in H. discriminate H.
Qed.

(** C3: a candidate of parallelism degree 8 always becomes the best of its
    concurrency, whatever its per-GPU throughput and whatever was selected
    before.  With a degree-2 record of throughput 500 followed by a
    degree-8 record of throughput 400, both at concurrency 16, the best
    record at 16 is the degree-8 one and it is plotted at 400. *)
Theorem C3_tp8_always_selected :
  (forall (d : dict) (r : record),
     py_eq (get r "tp" (VInt 0)) (VInt 8) = true ->
     exists d', select_step d r = Ok d'
                /\ dict_lookup d' (get r "conc" (VInt 0)) = Some r)
  /\ load_b200_trt_results [b200 16 2 500; b200 16 8 400]
     = Ok ([b200 16 8 400], [b200 16 2 500; b200 16 8 400])
  /\ (forall baseten_results b200_all c,
        plot_comparison baseten_results [b200 16 8 400] b200_all = Ok c ->
        b200_tputs c = [VInt 400])
  /\ (exists c, plot_comparison [] [b200 16 8 400] [b200 16 2 500; b200 16 8 400] = Ok c).
Proof.
  split; [| split; [| split]].
  - intros d r H. exists (dict_set d (conc_key r) r). split.
    + apply select_step_tp8. exact H.
    + apply dict_lookup_set_eq.
  - reflexivity.
  - intros a all c H. unfold plot_comparison in H.
    change (mapM b200_point_of [b200 16 8 400])
      with (Ok [B200Point (VInt 16) (VInt 400) (VInt 1) (PerGPU (VInt 8))]) in H.
    inv_ok. reflexivity.
  - eexists. reflexivity.
Qed.

Lemma C3_tp8_always_selected_witness :
  exists d', select_step [(VInt 16, b200 16 2 500)] (b200 16 8 400) = Ok d'
             /\ dict_lookup d' (get (b200 16 8 400) "conc" (VInt 0)) = Some (b200 16 8 400).
Proof. apply (proj1 C3_tp8_always_selected). reflexivity. Defined.

(** *** Arithmetic on numbers *)

Lemma Qeq_bool_inject_Z a b : Qeq_bool (inject_Z a) (inject_Z b) = (a =? b).
Proof.
  unfold Qeq_bool, inject_Z. simpl. rewrite !Z.mul_1_r. reflexivity.
Qed.

Lemma as_int_num v a : as_int v = Some a -> as_num v = Some (inject_Z a).
Proof. destruct v; simpl; intros [= <-]; reflexivity. Qed.

(** [==] on integers is the equality of integers. *)
Lemma py_eq_int v w a b :
  as_int v = Some a -> as_int w = Some b -> py_eq v w = (a =? b).
Proof.
  intros Hv Hw. unfold py_eq.
  rewrite (as_int_num _ _ Hv), (as_int_num _ _ Hw). apply Qeq_bool_inject_Z.
Qed.

Lemma py_mul_num v w a b :
  as_num v = Some a -> as_num w = Some b ->
  exists u q, py_mul v w = Ok u /\ as_num u = Some q /\ (q == a * b)%Q.
Proof.
  intros Hv Hw.
  destruct v as [| x | x | x |]; try discriminate;
  destruct w as [| y | y | y |]; try discriminate;
  simpl in Hv, Hw; injection Hv as <-; injection Hw as <-;
  unfold py_mul; simpl; eexists; eexists;
  (split; [reflexivity |]); simpl; (split; [reflexivity |]);
  try apply Qred_correct.
  - destruct x, y; reflexivity.
  - destruct x; rewrite inject_Z_mult; reflexivity.
  - destruct y; rewrite inject_Z_mult; reflexivity.
  - rewrite inject_Z_mult. reflexivity.
Qed.

Lemma py_truediv_num v w a b :
  as_num v = Some a -> as_num w = Some b -> ~ (b == 0)%Q ->
  exists q, py_truediv v w = Ok (VFloat q) /\ (q == a / b)%Q.
Proof.
  intros Hv Hw Hb. unfold py_truediv. rewrite Hv, Hw.
  destruct (Qeq_bool b 0) eqn:E.
  - apply Qeq_bool_iff in E. contradiction.
  - eexists. split; [reflexivity | apply Qred_correct].
Qed.


(** The product of two integers is the integer product, of any size. *)
Lemma py_mul_int v w a b :
  as_int v = Some a -> as_int w = Some b -> py_mul v w = Ok (VInt (a * b)).
Proof. intros Hv Hw. unfold py_mul. rewrite Hv, Hw. reflexivity. Qed.



(** *** The Baseten side *)

Lemma b200_tp_at_conc_first b200_best conc :
  b200_tp_at_conc b200_best conc =
  match first_b200_at b200_best conc with
  | Some r => get r "tp" (VInt 0)
  | None => VNone
  end.
Proof.
  induction b200_best as [| r rest IH]; simpl; auto.
  destruct (py_eq (get r "conc" _) conc); auto.
Qed.

(** C1 (as amended): a Baseten record that passes the reliability filter
    is plotted at its total throughput divided by 8 exactly when the first
    record of [bestPerConcurrency] at the same concurrency has parallelism
    degree 8; when that record has another degree, and also when
    [bestPerConcurrency] has no record at that concurrency, the total
    throughput is plotted unmodified. *)
Theorem C1_baseten_comparable_throughput
    (b200_best : list record) (result : record) (pt : baseten_point) :
  baseten_point_of b200_best result = Ok (Some pt) ->
  let conc := get result "concurrency" (VInt 0) in
  let total_tput := get result "total_token_throughput" (VInt 0) in
  sp_conc pt = conc
  /\ match first_b200_at b200_best conc with
     | Some b =>
         if py_eq (get b "tp" (VInt 0)) (VInt 8)
         then py_truediv total_tput (VInt 8) = Ok (sp_tput pt)
         else sp_tput pt = total_tput
     | None => sp_tput pt = total_tput
     end.
Proof.
  intros H. unfold baseten_point_of in H.
  destruct (py_eq (get result "concurrency" _) _); [discriminate |].
  inv_ok. destruct a; [discriminate |]. inv_ok. simpl. split; [reflexivity |].
  unfold baseten_tput_value in Ha1. rewrite b200_tp_at_conc_first in Ha1.
  destruct (first_b200_at _ _) as [b |].
  - destruct (py_eq (get b "tp" _) _); [exact Ha1 | inv_ok; reflexivity].
  - simpl in Ha1. inv_ok. reflexivity.
Qed.

Lemma C1_baseten_comparable_throughput_witness :
  sp_conc (BasetenPoint (VInt 16) (VFloat 400) (VFloat 2)) = VInt 16
  /\ py_truediv (VInt 3200) (VInt 8) = Ok (VFloat 400).
Proof.
  apply (C1_baseten_comparable_throughput [b200 16 8 400] (baseten 16 60 100 3200)).
  reflexivity.
Defined.

(** C1 as stated fails when Loader B has no record at the concurrency: the
    total throughput 3200 is plotted, not 3200 / 8 = 400. *)
Lemma C1_counterexample :
  load_b200_trt_results [b200 32 8 300] = Ok ([b200 32 8 300], [b200 32 8 300])
  /\ first_b200_at [b200 32 8 300] (VInt 16) = None
  /\ baseten_point_of [b200 32 8 300] (baseten 16 60 100 3200)
     = Ok (Some (BasetenPoint (VInt 16) (VInt 3200) (VFloat 2)))
  /\ py_truediv (VInt 3200) BASETEN_GPU_COUNT = Ok (VFloat 400)
  /\ py_eq (VInt 3200) (VFloat 400) = false.
Proof. repeat split; reflexivity. Qed.

Lemma py_eq_num v w a b :
  as_num v = Some a -> as_num w = Some b -> py_eq v w = Qeq_bool a b.
Proof. intros Hv Hw. unfold py_eq. rewrite Hv, Hw. reflexivity. Qed.

Lemma py_lt_num v w a b :
  as_num v = Some a -> as_num w = Some b -> py_lt v w = Ok (Qlt_bool a b).
Proof. intros Hv Hw. unfold py_lt. rewrite Hv, Hw. reflexivity. Qed.

Lemma is_unreliable_num completed total c t :
  as_num completed = Some c -> as_num total = Some t ->
  exists b, is_unreliable completed total = Ok b
    /\ (b = true <-> (c < 10 \/ (0 < t /\ c / t < 1 # 2))%Q).
Proof.
  intros Hc Ht. unfold is_unreliable.
  rewrite (py_lt_num _ (VInt 10) _ _ Hc eq_refl). simpl.
  destruct (Qlt_bool c (inject_Z 10)) eqn:E10.
  { exists true. split; auto. split; auto. intros _. left.
    apply Qlt_bool_iff in E10. exact E10. }
  assert (H10 : ~ (c < 10)%Q).
  { intros H. apply Qlt_bool_iff in H. change (inject_Z 10) with 10%Q in E10. congruence. }
  rewrite py_gt_lt, (py_lt_num (VInt 0) _ _ _ eq_refl Ht). simpl.
  destruct (Qlt_bool (inject_Z 0) t) eqn:E0.
  - apply Qlt_bool_iff in E0. change (inject_Z 0) with 0%Q in E0.
    destruct (py_truediv_num _ _ _ _ Hc Ht) as (q & Hq & Eq).
    { intros H. rewrite H in E0. exact (Qlt_irrefl _ E0). }
    rewrite Hq. simpl. unfold py_lt. simpl. eexists. split; [reflexivity |].
    rewrite Qlt_bool_iff, Eq. split; [auto |]. intros [H | [_ H]]; [contradiction | exact H].
  - exists false. split; auto. split; [discriminate |].
    intros [H | [H _]]; [contradiction |].
    apply Qlt_bool_iff in H. change (inject_Z 0) with 0%Q in E0. congruence.
Qed.

(** On integers the ratio test is a comparison of integers. *)
Lemma Qdiv_lt_half (c t : Z) :
  0 < t -> (inject_Z c / inject_Z t < 1 # 2)%Q <-> 2 * c < t.
Proof.
  intros Ht. destruct t as [| p | p]; try lia.
  unfold Qlt, Qdiv, Qmult, Qinv, inject_Z. simpl. lia.
Qed.

Lemma is_unreliable_int (c t : Z) :
  exists b, is_unreliable (VInt c) (VInt t) = Ok b
    /\ (b = true <-> (c < 10 \/ (0 < t /\ 2 * c < t))).
Proof.
  destruct (is_unreliable_num (VInt c) (VInt t) _ _ eq_refl eq_refl) as (b & Hb & Hiff).
  exists b. split; [exact Hb |]. rewrite Hiff.
  change 10%Q with (inject_Z 10). change 0%Q with (inject_Z 0).
  rewrite <- !Zlt_Qlt. split.
  - intros [H | [H1 H2]]; [left; exact H | right].
    split; [exact H1 |]. apply Qdiv_lt_half; assumption.
  - intros [H | [H1 H2]]; [left; exact H | right].
    split; [exact H1 |]. apply Qdiv_lt_half; assumption.
Qed.

(** Rounding the quotient does not change the outcome of the ratio test
    on counts up to 2^53: below one half, the exact quotient is at most
    the double just below 0.5. *)
Lemma rounded_ratio_test (rnd : Q -> Q) (c t : Z) :
  (forall x y, (x <= y)%Q -> (rnd x <= rnd y)%Q) ->
  (rnd (1 # 2) == 1 # 2)%Q ->
  (rnd ((1 # 2) - (1 # 2 ^ 54)) == (1 # 2) - (1 # 2 ^ 54))%Q ->
  0 < t <= 2 ^ 53 ->
  (rnd (inject_Z c / inject_Z t) < 1 # 2)%Q <-> 2 * c < t.
Proof.
  intros Hmono Hhalf Hpred [Ht Hb]. split.
  - intros H. destruct (Z.lt_ge_cases (2 * c) t) as [Hlt | Hge]; [exact Hlt | exfalso].
    assert (Hq : ((1 # 2) <= inject_Z c / inject_Z t)%Q).
    { apply Qnot_lt_le. rewrite Qdiv_lt_half by exact Ht. lia. }
    apply Hmono in Hq. rewrite Hhalf in Hq. apply (Qlt_not_le _ _ H Hq).
  - intros Hlt.
    assert (Hq : (inject_Z c / inject_Z t <= (1 # 2) - (1 # 2 ^ 54))%Q).
    { destruct t as [| p | p]; try lia.
      unfold Qle, Qdiv, Qmult, Qinv, Qminus, Qplus, Qopp, inject_Z. simpl.
      change (Z.pos (2 ^ 54)) with (2 ^ 54) at 1.
      assert (Hp : Z.pos p <= 2 ^ 53) by exact Hb.
      change (Z.pos (2 * 2 ^ 54)) with (2 ^ 55).
      change (2 ^ 54) with (2 * 2 ^ 53) in *. change (2 ^ 55) with (4 * 2 ^ 53).
      nia. }
    apply Hmono in Hq. rewrite Hpred in Hq.
    eapply Qle_lt_trans; [exact Hq |]. reflexivity.
Qed.

(** C4 (as amended): a Baseten record with a non-zero concurrency is left
    out of the comparison exactly when the reliability test holds.  For
    integer counts (up to 2^53, which a double holds exactly) that test
    holds exactly when the completed count is below 10, or the
    total-request count is strictly positive and completed / total is
    below 0.5, that is, twice the completed count is below the total; the
    rounding of the quotient to a double does not change this.  The total
    is [total_requests], else [num_prompts], else the completed count
    itself.  completed=5 and completed=10 of total=100 are excluded,
    completed=60 of 100 is included, and completed=20 without a total is
    included. *)
Theorem C4_reliability_filter :
  (forall b200_best result,
     let completed := get result "completed" (VInt 0) in
     baseten_point_of b200_best result = Ok None <->
     (py_eq (get result "concurrency" (VInt 0)) (VInt 0) = true
      \/ is_unreliable completed (total_requests_of result completed) = Ok true))
  /\ (forall c t : Z,
        Z.abs c <= 2 ^ 53 -> Z.abs t <= 2 ^ 53 ->
        exists b, is_unreliable (VInt c) (VInt t) = Ok b
          /\ (b = true <-> (c < 10 \/ (0 < t /\ 2 * c < t))))
  /\ (forall (rnd : Q -> Q) (c t : Z),
        (forall x y, (x <= y)%Q -> (rnd x <= rnd y)%Q) ->
        (rnd (1 # 2) == 1 # 2)%Q ->
        (rnd ((1 # 2) - (1 # 2 ^ 54)) == (1 # 2) - (1 # 2 ^ 54))%Q ->
        0 < t <= 2 ^ 53 ->
        (rnd (inject_Z c / inject_Z t) < 1 # 2)%Q <-> 2 * c < t)
  /\ (forall result completed,
        total_requests_of result completed =
        match result !! "total_requests"%string, result !! "num_prompts"%string with
        | Some v, _ => v
        | None, Some v => v
        | None, None => completed
        end)
  /\ baseten_point_of [] (baseten 16 5 100 3200) = Ok None
  /\ baseten_point_of [] (baseten 16 10 100 3200) = Ok None
  /\ baseten_point_of [] (baseten 16 60 100 3200)
     = Ok (Some (BasetenPoint (VInt 16) (VInt 3200) (VFloat 2)))
  /\ baseten_point_of [] (mk [("concurrency", VInt 16); ("completed", VInt 20);
                              ("total_token_throughput", VInt 3200);
                              ("median_e2el_ms", VInt 2000)]%string)
     = Ok (Some (BasetenPoint (VInt 16) (VInt 3200) (VFloat 2))).
Proof.
  split; [| split; [| split; [| split]]].
  - intros best result completed. unfold baseten_point_of. fold completed.
    destruct (py_eq (get result "concurrency" _) _).
    { split; auto. }
    destruct (is_unreliable completed _) as [[|] | e]; simpl.
    + split; auto.
    + split; [| intros [? | ?]; discriminate].
      intros H. inv_ok. discriminate.
    + split; [discriminate | intros [? | ?]; discriminate].
  - intros c t _ _. apply is_unreliable_int.
  - exact rounded_ratio_test.
  - intros result completed. unfold total_requests_of, get.
    destruct (result !! "total_requests"%string), (result !! "num_prompts"%string); reflexivity.
  - repeat split; reflexivity.
Qed.

Lemma C4_reliability_filter_witness :
  exists b, is_unreliable (VInt 10) (VInt 100) = Ok b
    /\ (b = true <-> (10 < 10 \/ (0 < 100 /\ 2 * 10 < 100))).
Proof.
  apply (proj1 (proj2 C4_reliability_filter) 10 100); simpl; lia.
Defined.

(** C4 as stated fails on a negative total: 20 / -100 is below 0.5, yet the
    record is kept, because the ratio is only looked at for a positive
    total. *)
Lemma C4_counterexample :
  spec_excluded (baseten 16 20 (-100) 3200)
  /\ baseten_point_of [] (baseten 16 20 (-100) 3200)
     = Ok (Some (BasetenPoint (VInt 16) (VInt 3200) (VFloat 2))).
Proof.
  split; [| reflexivity].
  exists (inject_Z 20). split; [reflexivity |]. right.
  exists (VInt (-100)), (inject_Z (-100)).
  split; [reflexivity |]. split; [reflexivity |]. reflexivity.
Qed.

(** *** No division by zero *)

Lemma py_truediv_nonzero v w b :
  as_num w = Some b -> ~ (b == 0)%Q -> py_truediv v w <> Err ZeroDivisionError.
Proof.
  intros Hw Hb. unfold py_truediv. rewrite Hw.
  destruct (as_num v); [| discriminate].
  destruct (Qeq_bool b 0) eqn:E; [| discriminate].
  apply Qeq_bool_iff in E. contradiction.
Qed.

Lemma py_lt_no_zdiv v w : py_lt v w <> Err ZeroDivisionError.
Proof. unfold py_lt. repeat case_match; discriminate. Qed.

Lemma py_mul_no_zdiv v w : py_mul v w <> Err ZeroDivisionError.
Proof. unfold py_mul. repeat case_match; discriminate. Qed.

Lemma is_unreliable_no_zdiv completed total :
  is_unreliable completed total <> Err ZeroDivisionError.
Proof.
  unfold is_unreliable.
  destruct (py_lt completed (VInt 10)) as [[|] | e] eqn:E1; simpl;
    [discriminate | | intros [= ->]; eapply py_lt_no_zdiv; eauto].
  rewrite py_gt_lt.
  destruct (py_lt (VInt 0) total) as [[|] | e] eqn:E2; simpl;
    [| discriminate | intros [= ->]; eapply py_lt_no_zdiv; eauto].
  unfold py_lt in E2. simpl in E2.
  destruct (as_num total) as [t |] eqn:Et; [| discriminate].
  injection E2 as E2. apply Qlt_bool_iff in E2.
  destruct (py_truediv completed total) as [q | e] eqn:E3; simpl.
  - apply py_lt_no_zdiv.
  - intros [= ->]. revert E3. apply (py_truediv_nonzero _ _ t Et).
    intros H. rewrite H in E2. exact (Qlt_irrefl _ E2).
Qed.

Lemma baseten_point_of_no_zdiv best result :
  baseten_point_of best result <> Err ZeroDivisionError.
Proof.
  unfold baseten_point_of.
  destruct (py_eq (get result "concurrency" _) _); [discriminate |].
  destruct (is_unreliable _ _) as [[|] | e] eqn:E1; simpl;
    [discriminate | | intros [= ->]; eapply is_unreliable_no_zdiv; eauto].
  destruct (py_truediv _ (VFloat 1000)) as [q | e] eqn:E2; simpl.
  2:{ intros [= ->]. revert E2. apply (py_truediv_nonzero _ (VFloat 1000) 1000%Q eq_refl). discriminate. }
  unfold baseten_tput_value.
  destruct (py_eq (b200_tp_at_conc _ _) _); simpl; [| discriminate].
  destruct (py_truediv _ BASETEN_GPU_COUNT) as [q' | e] eqn:E3; simpl; [discriminate |].
  intros [= ->]. revert E3. apply (py_truediv_nonzero _ BASETEN_GPU_COUNT 8%Q eq_refl). discriminate.
Qed.

Lemma baseten_points_no_zdiv best results :
  baseten_points best results <> Err ZeroDivisionError.
Proof.
  induction results as [| r rs IH]; simpl; [discriminate |].
  destruct (baseten_point_of best r) as [p | e] eqn:E; simpl.
  - destruct (baseten_points best rs) as [ps | e] eqn:E'; simpl; [discriminate |].
    intros [= ->]. contradiction.
  - intros [= ->]. eapply baseten_point_of_no_zdiv; eauto.
Qed.

Lemma b200_points_no_zdiv best : mapM b200_point_of best <> Err ZeroDivisionError.
Proof.
  induction best as [| r rs IH]; simpl; [discriminate |].
  destruct (b200_point_of r) as [p | e] eqn:E; simpl.
  - destruct (mapM b200_point_of rs) as [ps | e] eqn:E'; simpl; [discriminate |].
    intros [= ->]. contradiction.
  - intros [= ->]. unfold b200_point_of, b200_tput_value in E.
    destruct (py_eq _ _); simpl in E; [discriminate |].
    destruct (py_mul _ _) eqn:E'; simpl in E; [discriminate |].
    injection E as ->. eapply py_mul_no_zdiv; eauto.
Qed.

(** C10: the completion ratio is guarded.  The reliability test never
    raises a division by zero, whatever the two counts are; when the total
    is a number that is zero or negative the test is the comparison
    [completed < 10] alone; and neither chart function raises a division by
    zero. *)
Theorem C10_ratio_guarded :
  (forall completed total, is_unreliable completed total <> Err ZeroDivisionError)
  /\ (forall completed total t,
        as_num total = Some t -> (t <= 0)%Q ->
        is_unreliable completed total = py_lt completed (VInt 10))
  /\ (forall baseten_results b200_best b200_all,
        plot_comparison baseten_results b200_best b200_all <> Err ZeroDivisionError
        /\ plot_comparison_with_all_b200_configs baseten_results b200_best b200_all
           <> Err ZeroDivisionError).
Proof.
  split; [exact is_unreliable_no_zdiv | split].
  - intros completed total t Ht Hle. unfold is_unreliable.
    destruct (py_lt completed (VInt 10)) as [[|] | e]; simpl; auto.
    rewrite py_gt_lt, (py_lt_num (VInt 0) _ _ _ eq_refl Ht).
    apply Qlt_bool_false_iff in Hle. change (inject_Z 0) with 0%Q.
    rewrite Hle. reflexivity.
  - intros a best all. split.
    + unfold plot_comparison.
      destruct (mapM b200_point_of best) as [b | e] eqn:E; simpl.
      * destruct (baseten_points best a) as [ps | e] eqn:E'; simpl; [discriminate |].
        intros [= ->]. eapply baseten_points_no_zdiv; eauto.
      * intros [= ->]. eapply b200_points_no_zdiv; eauto.
    + unfold plot_comparison_with_all_b200_configs.
      destruct (baseten_points best a) as [ps | e] eqn:E'; simpl; [discriminate |].
      intros [= ->]. eapply baseten_points_no_zdiv; eauto.
Qed.

Lemma C10_ratio_guarded_witness :
  is_unreliable (VInt 20) (VInt 0) = py_lt (VInt 20) (VInt 10).
Proof.
  apply (proj1 (proj2 C10_ratio_guarded) (VInt 20) (VInt 0) 0%Q); [reflexivity |].
  apply Qle_refl.
Defined.

Lemma Zmul_eq_self_iff (t p : Z) : t * p = t <-> t = 0 \/ p = 1.
Proof.
  split; [| intros [-> | ->]; lia].
  intros H. assert (H' : t * (p - 1) = 0) by lia.
  apply Z.mul_eq_0 in H'. lia.
Qed.

(** C9 (as amended): the detailed chart plots every B200 record, the
    starred best records included, at its [tput_per_gpu] field as it is,
    with no multiplication by the parallelism degree.  For a best record
    with integer fields and a degree other than 8, the comparison chart
    plots throughput times degree, which differs from the value in the
    detailed chart exactly when the throughput is not zero and the degree
    is not 1. *)
Theorem C9_detailed_chart_per_gpu :
  (forall baseten_results b200_best b200_all d,
     plot_comparison_with_all_b200_configs baseten_results b200_best b200_all = Ok d ->
     map cp_tput (dc_all d) = map (fun r => get r "tput_per_gpu" (VInt 0)) b200_all
     /\ (b200_all <> [] ->
         map cp_tput (dc_best d) = map (fun r => get r "tput_per_gpu" (VInt 0)) b200_best))
  /\ (forall r t p,
        as_int (get r "tput_per_gpu" (VInt 0)) = Some t ->
        as_int (get r "tp" (VInt 0)) = Some p ->
        p <> 8 ->
        b200_tput_value r = Ok (VInt (t * p))
        /\ (py_eq (VInt (t * p)) (cp_tput (config_point_of r)) = false
            <-> t <> 0 /\ p <> 1)).
Proof.
  split.
  - intros a best all d H. unfold plot_comparison_with_all_b200_configs in H.
    inv_ok. simpl. rewrite !map_map. split; [reflexivity |].
    intros Hne. destruct all; [contradiction |]. simpl. rewrite map_map. reflexivity.
  - intros r t p Ht Hp H8. split.
    + unfold b200_tput_value. rewrite (py_eq_int _ (VInt 8) _ 8 Hp eq_refl).
      destruct (Z.eqb_spec p 8) as [E | _]; [contradiction |].
      apply py_mul_int; assumption.
    + simpl. rewrite (py_eq_int (VInt (t * p)) _ _ _ eq_refl Ht).
      rewrite Z.eqb_neq, Zmul_eq_self_iff. tauto.
Qed.

Lemma C9_detailed_chart_per_gpu_witness :
  b200_tput_value (b200 32 2 300) = Ok (VInt (300 * 2))
  /\ (py_eq (VInt (300 * 2)) (cp_tput (config_point_of (b200 32 2 300))) = false
      <-> 300 <> 0 /\ 2 <> 1).
Proof.
  apply (proj2 C9_detailed_chart_per_gpu (b200 32 2 300) 300 2);
    [reflexivity | reflexivity | discriminate].
Defined.

(** C9 as stated fails for a best record of degree 1: both charts plot it
    at the same throughput, 300. *)
Lemma C9_counterexample :
  py_eq (get (b200 32 1 300) "tp" (VInt 0)) (VInt 8) = false
  /\ load_b200_trt_results [b200 32 1 300] = Ok ([b200 32 1 300], [b200 32 1 300])
  /\ exists c d,
       plot_comparison [] [b200 32 1 300] [b200 32 1 300] = Ok c
       /\ plot_comparison_with_all_b200_configs [] [b200 32 1 300] [b200 32 1 300] = Ok d
       /\ b200_tputs c = [VInt 300]
       /\ map cp_tput (dc_best d) = [VInt 300].
Proof.
  split; [reflexivity |]. split; [reflexivity |].
  eexists. eexists. repeat split; reflexivity.
Qed.

(** ** The exit status *)

(** C6 (as amended): the process exits with status 1 when fewer than two
    arguments are given, when one of the two paths does not exist, when
    Loader A returns no record (after dropping the files without a
    concurrency), and when Loader B selects no record (after the hardware
    filter).  Otherwise, when both loaders return at least one record and
    nothing raises while the two charts are made, it exits with status 0;
    the records dropped by the reliability filter play no part in this. *)
Theorem C6_exit_status (w : world) :
  ((length (argv w) < 3)%nat -> exit_status (main w) = 1)
  /\ (forall prog baseten_dir inferencemax_json rest,
        argv w = prog :: baseten_dir :: inferencemax_json :: rest ->
        (path_exists w baseten_dir = false \/ path_exists w inferencemax_json = false ->
         exit_status (main w) = 1)
        /\ (forall baseten_results all_data b200_best b200_all,
              path_exists w baseten_dir = true ->
              path_exists w inferencemax_json = true ->
              load_baseten_results (glob_json w baseten_dir) = Ok baseten_results ->
              json_load w inferencemax_json = Some all_data ->
              load_b200_trt_results all_data = Ok (b200_best, b200_all) ->
              (baseten_results = [] \/ b200_best = [] -> exit_status (main w) = 1)
              /\ (forall c d,
                    baseten_results <> [] -> b200_best <> [] ->
                    plot_comparison baseten_results b200_best b200_all = Ok c ->
                    render_comparison w c = Ok tt ->
                    plot_comparison_with_all_b200_configs
                      baseten_results b200_best b200_all = Ok d ->
                    render_detailed w d = Ok tt ->
                    exit_status (main w) = 0))).
Proof.
  split.
  - unfold main. destruct (argv w) as [| ? [| ? [| ? ?]]]; simpl; auto. lia.
  - intros prog dir json rest Hargv. unfold main. rewrite Hargv. split.
    + intros [H | H].
      * rewrite H. reflexivity.
      * rewrite H. destruct (path_exists w dir); reflexivity.
    + intros a data best all Hd Hj Ha Hdata Hb.
      rewrite Hd, Hj, Ha, Hdata. simpl. rewrite Hb. simpl. split.
      * intros [-> | ->]; [reflexivity |]. destruct a; reflexivity.
      * intros c d Hna Hnb Hc Hrc Hdd Hrd.
        destruct a; [contradiction |]. destruct best; [contradiction |].
        rewrite Hc. simpl. rewrite Hrc. simpl. rewrite Hdd. simpl. rewrite Hrd.
        reflexivity.
Qed.

Lemma C6_exit_status_witness : exit_status (main unreliable_world) = 0.
Proof.
  eapply (proj2 (proj2 (C6_exit_status unreliable_world) _ _ _ _ eq_refl)
            _ _ _ _ eq_refl eq_refl eq_refl eq_refl eq_refl);
    try reflexivity; discriminate.
Defined.

(** C6 as stated fails: Series A has no usable record after the
    reliability filter (the comparison chart has no Baseten point), and the
    process still exits with status 0. *)
Lemma C6_counterexample :
  exit_status (main unreliable_world) = 0
  /\ exists baseten_results b200_best b200_all c,
       load_baseten_results (glob_json unreliable_world "results") = Ok baseten_results
       /\ load_b200_trt_results [b200 16 8 400] = Ok (b200_best, b200_all)
       /\ plot_comparison baseten_results b200_best b200_all = Ok c
       /\ length baseten_results = 1%nat
       /\ baseten_tputs c = [].
Proof.
  split; [reflexivity |].
  do 4 eexists. repeat split; reflexivity.
Qed.

Lemma length_omap_filter {A B : Type} (f : A -> option B) (l : list A) :
  length (omap f l) = length (filter (fun x => is_Some (f x)) l).
Proof.
  induction l as [| x l IH]; simpl; auto.
  rewrite filter_cons.
  destruct (decide (is_Some (f x))) as [[b Hb] | Hn].
  - rewrite Hb. simpl. auto.
  - destruct (f x); [exfalso; apply Hn; eauto | exact IH].
Qed.

(** * Further properties *)

(** ** More on Loader B *)

Lemma py_eq_str v s : py_eq v (VStr s) = true <-> v = VStr s.
Proof.
  destruct v as [| b | n | q | t];
    try (split; [discriminate | intros [= ]]; fail).
  change (py_eq (VStr t) (VStr s)) with (String.eqb t s).
  rewrite String.eqb_eq. split; congruence.
Qed.

Lemma get_none_str r k s : get r k VNone = VStr s <-> r !! k = Some (VStr s).
Proof.
  unfold get. destruct (r !! k); simpl; split; congruence.
Qed.

Lemma is_b200_trt_spec r : is_b200_trt r = true <-> hw_matches r.
Proof.
  unfold is_b200_trt, hw_matches.
  rewrite !orb_true_iff, andb_true_iff, !py_eq_str, !get_none_str. tauto.
Qed.

(** X1: Loader B keeps exactly the records whose [hw] is the string
    b200-trt or b200-nvs, or whose [hw] is b200 with [framework] trt; a
    record without a [hw] field is dropped.  The filtered list keeps the
    order of the array, and every selected record is one of the kept
    records. *)
Theorem loader_b_hardware_filter (all_data best all : list record) :
  load_b200_trt_results all_data = Ok (best, all) ->
  sublist all all_data
  /\ (forall r, In r all <-> In r all_data /\ hw_matches r)
  /\ (forall r, r !! "hw"%string = None -> ~ In r all)
  /\ (forall b, In b best -> In b all_data /\ hw_matches b).
Proof.
  intros H. unfold load_b200_trt_results in H. inv_ok.
  assert (Hall : forall r, In r (filter (fun r => is_b200_trt r = true) all_data)
                           <-> In r all_data /\ hw_matches r).
  { intros r. rewrite <- !list_elem_of_In, list_elem_of_filter, is_b200_trt_spec. tauto. }
  split; [apply sublist_filter |]. split; [exact Hall |]. split.
  - intros r Hr Hin. apply Hall in Hin as [_ [E | [E | [E _]]]]; congruence.
  - intros b Hb. apply Hall.
    pose proof (py_sorted_perm _ _ _ Ha0) as Hp.
    apply Permutation_sym in Hp. apply (Permutation_in _ Hp) in Hb.
    destruct (select_loop_values _ _ _ _ Ha Hb) as [[] | Hin]. exact Hin.
Qed.

Lemma py_gt_num v w a b :
  as_num v = Some a -> as_num w = Some b -> py_gt v w = Ok (Qlt_bool b a).
Proof. intros Hv Hw. unfold py_gt. rewrite Hv, Hw. reflexivity. Qed.

Lemma well_formed_tput r :
  well_formed_b200 r ->
  exists q, getitem r "tput_per_gpu" = Ok (get r "tput_per_gpu" (VInt 0))
            /\ as_num (get r "tput_per_gpu" (VInt 0)) = Some q.
Proof.
  intros [_ (v & Hv & [q Hq])]. exists q. unfold getitem, get. rewrite Hv. auto.
Qed.

(** The state of the selection at one concurrency [c] without a record of
    degree 8: the current best is a record seen so far, and no record seen
    so far at [c] has a higher throughput. *)
Lemma select_step_max c seen d r d' :
  Forall well_formed_b200 (r :: seen) ->
  (forall x, In x (r :: seen) -> py_eq (conc_key x) c = true ->
             py_eq (get x "tp" (VInt 0)) (VInt 8) = false) ->
  (forall x, In x seen -> py_eq (conc_key x) c = true -> is_Some (dict_lookup d c)) ->
  (forall b, dict_lookup d c = Some b ->
     In b seen /\ py_eq (conc_key b) c = true
     /\ forall x, In x seen -> py_eq (conc_key x) c = true ->
                  py_gt (get x "tput_per_gpu" (VInt 0)) (get b "tput_per_gpu" (VInt 0))
                  = Ok false) ->
  select_step d r = Ok d' ->
  (forall x, In x (r :: seen) -> py_eq (conc_key x) c = true -> is_Some (dict_lookup d' c))
  /\ (forall b, dict_lookup d' c = Some b ->
        In b (r :: seen) /\ py_eq (conc_key b) c = true
        /\ forall x, In x (r :: seen) -> py_eq (conc_key x) c = true ->
                     py_gt (get x "tput_per_gpu" (VInt 0)) (get b "tput_per_gpu" (VInt 0))
                     = Ok false).
Proof.
  intros Hwf Hno Hsome Hmax Hstep.
  apply Forall_cons_iff in Hwf as [Hr Hwf].
  destruct (well_formed_tput r Hr) as (qr & Gr & Nr).
  destruct (py_eq (conc_key r) c) eqn:Ec.
  2:{ (* another concurrency: the entry at [c] is untouched *)
    assert (Hl : dict_lookup d' c = dict_lookup d c).
    { apply select_step_cases in Hstep as [-> | ->]; auto.
      rewrite dict_lookup_set, Ec. reflexivity. }
    rewrite Hl. split.
    - intros x [<- | Hx] Hc; [congruence | eauto].
    - intros b Hb. destruct (Hmax b Hb) as (H1 & H2 & H3).
      split; [right; exact H1 |]. split; [exact H2 |].
      intros x [<- | Hx] Hc; [congruence | eauto]. }
  pose proof (Hno r (or_introl eq_refl) Ec) as Hr8.
  unfold select_step in Hstep. fold (conc_key r) in Hstep.
  rewrite (dict_lookup_congr d _ _ Ec), Hr8 in Hstep.
  destruct (dict_lookup d c) as [cur |] eqn:El.
  - destruct (Hmax cur eq_refl) as (Hin & Hcc & Hle).
    rewrite (Hno cur (or_intror Hin) Hcc) in Hstep. simpl in Hstep.
    rewrite Forall_forall in Hwf.
    destruct (well_formed_tput cur (Hwf _ (proj2 (list_elem_of_In _ _) Hin)))
      as (qc & Gc & Nc).
    rewrite Gc in Hstep. simpl in Hstep.
    rewrite (py_gt_num _ _ _ _ Nr Nc) in Hstep. simpl in Hstep.
    destruct (Qlt_bool qc qr) eqn:Elt; inv_ok.
    + (* the candidate is strictly better *)
      assert (Hl : dict_lookup (dict_set d (conc_key r) r) c = Some r)
        by (rewrite dict_lookup_set, Ec; reflexivity).
      rewrite Hl. split; [eauto |].
      intros b [= <-]. split; [left; reflexivity |]. split; [exact Ec |].
      intros x [<- | Hx] Hc.
      * rewrite (py_gt_num _ _ _ _ Nr Nr). f_equal.
        apply Qlt_bool_false_iff. apply Qle_refl.
      * specialize (Hle x Hx Hc).
        destruct (well_formed_tput x (Hwf _ (proj2 (list_elem_of_In _ _) Hx)))
          as (qx & _ & Nx).
        rewrite (py_gt_num _ _ _ _ Nx Nc) in Hle. injection Hle as Hle.
        rewrite (py_gt_num _ _ _ _ Nx Nr). f_equal.
        apply Qlt_bool_false_iff in Hle. apply Qlt_bool_iff in Elt.
        apply Qlt_bool_false_iff. apply Qlt_le_weak.
        eapply Qle_lt_trans; eauto.
    + (* the current best stays *)
      rewrite El. split; [eauto |].
      intros b [= <-]. split; [right; exact Hin |]. split; [exact Hcc |].
      intros x [<- | Hx] Hc; [| eauto].
      rewrite (py_gt_num _ _ _ _ Nr Nc). rewrite Elt. reflexivity.
  - (* first record at [c] *)
    inv_ok.
    assert (Hl : dict_lookup (dict_set d (conc_key r) r) c = Some r)
      by (rewrite dict_lookup_set, Ec; reflexivity).
    rewrite Hl. split; [eauto |].
    intros b [= <-]. split; [left; reflexivity |]. split; [exact Ec |].
    intros x [<- | Hx] Hc.
    + rewrite (py_gt_num _ _ _ _ Nr Nr). f_equal.
      apply Qlt_bool_false_iff. apply Qle_refl.
    + destruct (Hsome x Hx Hc) as [? ?]. discriminate.
Qed.

Lemma select_loop_max c rs : forall seen d d',
  Forall well_formed_b200 (rs ++ seen) ->
  (forall x, In x (rs ++ seen) -> py_eq (conc_key x) c = true ->
             py_eq (get x "tp" (VInt 0)) (VInt 8) = false) ->
  (forall x, In x seen -> py_eq (conc_key x) c = true -> is_Some (dict_lookup d c)) ->
  (forall b, dict_lookup d c = Some b ->
     In b seen /\ py_eq (conc_key b) c = true
     /\ forall x, In x seen -> py_eq (conc_key x) c = true ->
                  py_gt (get x "tput_per_gpu" (VInt 0)) (get b "tput_per_gpu" (VInt 0))
                  = Ok false) ->
  select_loop d rs = Ok d' ->
  forall b, dict_lookup d' c = Some b ->
    In b (rs ++ seen) /\ py_eq (conc_key b) c = true
    /\ forall x, In x (rs ++ seen) -> py_eq (conc_key x) c = true ->
                 py_gt (get x "tput_per_gpu" (VInt 0)) (get b "tput_per_gpu" (VInt 0))
                 = Ok false.
Proof.
  induction rs as [| r rs IH]; simpl; intros seen d d' Hwf Hno Hsome Hmax H.
  - inv_ok. exact Hmax.
  - inv_ok.
    assert (Hperm : forall x, In x (rs ++ r :: seen) <-> In x (r :: rs ++ seen)).
    { intros x. rewrite !in_app_iff. simpl. rewrite in_app_iff. tauto. }
    destruct (select_step_max c seen d r a) as [Hs' Hm']; auto.
    + apply Forall_forall. intros x Hx. rewrite Forall_forall in Hwf. apply Hwf.
      apply list_elem_of_In. apply list_elem_of_In in Hx.
      destruct Hx as [<- | Hx]; [left; reflexivity | right; apply in_app_iff; auto].
    + intros x Hx. apply Hno. destruct Hx as [<- | Hx]; [left; reflexivity |].
      right; apply in_app_iff; auto.
    + intros b Hb.
      destruct (IH (r :: seen) a d') with (b := b) as (H1 & H2 & H3); auto.
      * apply Forall_forall. intros x Hx. rewrite Forall_forall in Hwf. apply Hwf.
        apply list_elem_of_In. apply Hperm. apply list_elem_of_In. exact Hx.
      * intros x Hx. apply Hno. apply Hperm. exact Hx.
      * split; [apply Hperm; exact H1 |]. split; [exact H2 |].
        intros x Hx. apply H3. apply Hperm. exact Hx.
Qed.

(** A record kept in the dictionary is found under its own concurrency. *)
Lemma dict_lookup_of_value d b :
  keys_distinct d -> keys_match d -> In b (dict_values d) ->
  dict_lookup d (conc_key b) = Some b.
Proof.
  unfold keys_distinct, keys_match, dict_values.
  induction 1 as [| [k0 r0] d H0 Hd IH]; simpl; intros Hm Hb; [contradiction |].
  apply Forall_cons_iff in Hm as [Hk Hm]. simpl in Hk.
  destruct Hb as [-> | Hb]; [rewrite Hk; reflexivity |].
  rewrite (IH Hm Hb).
  apply in_map_iff in Hb as ([k1 r1] & E & Hin). simpl in E. subst r1.
  rewrite Forall_forall in H0, Hm. apply list_elem_of_In in Hin.
  specialize (H0 _ Hin). specialize (Hm _ Hin). simpl in H0, Hm.
  rewrite py_eq_sym, <- (py_eq_congr _ _ _ Hm), py_eq_sym, H0. reflexivity.
Qed.

(** X2: at a concurrency where no filtered record has parallelism degree
    8, the selected record is a record of that concurrency with the highest
    per-GPU throughput: no filtered record at that concurrency has a
    strictly higher one.  (The filtered records are taken with a numeric
    concurrency and a numeric [tput_per_gpu] field.) *)
Theorem loader_b_best_is_max (all_data best all : list record) (c : value) (b : record) :
  load_b200_trt_results all_data = Ok (best, all) ->
  Forall well_formed_b200 all ->
  (forall x, In x all -> py_eq (conc_key x) c = true ->
             py_eq (get x "tp" (VInt 0)) (VInt 8) = false) ->
  In b best -> py_eq (conc_key b) c = true ->
  In b all
  /\ forall x, In x all -> py_eq (conc_key x) c = true ->
               py_gt (get x "tput_per_gpu" (VInt 0)) (get b "tput_per_gpu" (VInt 0))
               = Ok false.
Proof.
  intros H Hwf Hno Hb Hc. unfold load_b200_trt_results in H. inv_ok.
  destruct (select_loop_invariant _ _ _ (FOP_nil _) (List.Forall_nil _) Ha) as [Hd Hm].
  pose proof (py_sorted_perm _ _ _ Ha0) as Hp.
  assert (Hl : dict_lookup a c = Some b).
  { rewrite <- (dict_lookup_congr a _ _ Hc). apply dict_lookup_of_value; auto.
    apply Permutation_sym in Hp. exact (Permutation_in _ Hp Hb). }
  assert (Hwf' : Forall well_formed_b200
                   (filter (fun r => is_b200_trt r = true) all_data ++ []))
    by (rewrite app_nil_r; exact Hwf).
  destruct (select_loop_max c _ [] [] a Hwf') with (b := b) as (H1 & _ & H3); auto.
  - intros x Hx. apply Hno. rewrite app_nil_r in Hx. exact Hx.
  - intros x [].
  - discriminate.
  - rewrite app_nil_r in H1, H3. auto.
Qed.

(** The records of a loaded [bestPerConcurrency] at one concurrency are a
    single record. *)
Lemma best_at_conc_unique d best a b :
  keys_distinct d -> keys_match d ->
  py_sorted conc_key (dict_values d) = Ok best ->
  In a best -> In b best -> py_eq (conc_key a) (conc_key b) = true -> a = b.
Proof.
  intros Hd Hm Hs Ha Hb He.
  pose proof (py_sorted_perm _ _ _ Hs) as Hp. apply Permutation_sym in Hp.
  apply (Permutation_in _ Hp) in Ha, Hb.
  pose proof (dict_lookup_of_value d a Hd Hm Ha) as La.
  pose proof (dict_lookup_of_value d b Hd Hm Hb) as Lb.
  rewrite (dict_lookup_congr d _ _ He) in La. congruence.
Qed.

(** X3: when some filtered record at a concurrency has parallelism degree
    8, the record selected for that concurrency is the last filtered record
    of degree 8 at that concurrency, whatever the throughputs are. *)
Theorem loader_b_last_tp8_selected
    (all_data best all post1 post2 : list record) (r : record) :
  load_b200_trt_results all_data = Ok (best, all) ->
  all = post1 ++ r :: post2 ->
  py_eq (get r "tp" (VInt 0)) (VInt 8) = true ->
  (forall r', In r' post2 -> py_eq (conc_key r') (conc_key r) = true ->
              py_eq (get r' "tp" (VInt 0)) (VInt 8) = false) ->
  In r best
  /\ forall b, In b best -> py_eq (conc_key b) (conc_key r) = true -> b = r.
Proof.
  intros H Hall Hr Hno. unfold load_b200_trt_results in H. inv_ok.
  rewrite Hall in Ha.
  pose proof (select_loop_last_tp8 _ _ _ _ _ _ (py_eq_refl _) Hr Hno Ha) as Hl.
  destruct (select_loop_invariant _ _ _ (FOP_nil _) (List.Forall_nil _) Ha) as [Hd Hm].
  pose proof (py_sorted_perm _ _ _ Ha0) as Hp.
  assert (Hin : In r best).
  { eapply Permutation_in; [exact Hp |]. eapply dict_lookup_values; eauto. }
  split; [exact Hin |].
  intros b Hb Hc. eapply best_at_conc_unique; eauto.
Qed.

(** X4: the throughput of the current best is read with [cur['tput_per_gpu']],
    not with [.get]: when the first two filtered records share a
    concurrency, neither has degree 8 and the first has no [tput_per_gpu]
    field, the loader raises [KeyError], whatever follows. *)
Theorem loader_b_missing_tput_raises (r1 r2 : record) (rest : list record) :
  is_b200_trt r1 = true -> is_b200_trt r2 = true ->
  py_eq (conc_key r2) (conc_key r1) = true ->
  py_eq (get r1 "tp" (VInt 0)) (VInt 8) = false ->
  py_eq (get r2 "tp" (VInt 0)) (VInt 8) = false ->
  r1 !! "tput_per_gpu"%string = None ->
  load_b200_trt_results (r1 :: r2 :: rest) = Err KeyError.
Proof.
  intros F1 F2 Hc H1 H2 Hk. unfold load_b200_trt_results.
  rewrite !filter_cons, !decide_True by assumption.
  cbn [select_loop]. unfold select_step at 1. cbn [dict_lookup dict_set bind].
  unfold select_step at 1. fold (conc_key r1) (conc_key r2).
  cbn [dict_lookup]. rewrite py_eq_sym, Hc, H2, H1. cbn [negb].
  unfold getitem. rewrite Hk. reflexivity.
Qed.

(** X5: Loader B selects no record exactly when no record passes the
    hardware filter, and it never selects more records than it kept. *)
Theorem loader_b_best_empty_iff (all_data best all : list record) :
  load_b200_trt_results all_data = Ok (best, all) ->
  (best = [] <-> all = []) /\ (length best <= length all)%nat.
Proof.
  intros H. unfold load_b200_trt_results in H. inv_ok.
  destruct (select_loop_invariant _ _ _ (FOP_nil _) (List.Forall_nil _) Ha) as [Hd Hm].
  pose proof (py_sorted_perm _ _ _ Ha0) as Hp.
  split.
  - split.
    + intros ->. apply Permutation_nil_r in Hp.
      destruct (filter _ all_data) as [| r rs] eqn:E; [reflexivity |].
      destruct (select_loop_lookup _ _ _ Ha) as [_ Hl].
      destruct (Hl r (or_introl eq_refl)) as [b Hb].
      apply dict_lookup_values in Hb. rewrite Hp in Hb. destruct Hb.
    + intros E. rewrite E in Ha. simpl in Ha. inv_ok. simpl in Ha0. inv_ok. reflexivity.
  - apply NoDup_incl_length.
    + (* the selected records are pairwise different *)
      assert (Hs : StronglySorted (key_lt conc_key) best).
      { eapply py_sorted_sorted; [| exact Ha0]. apply dict_values_distinct; auto. }
      clear - Hs. induction Hs as [| x l Hs IH Hx]; constructor; auto.
      intros Hin. rewrite Forall_forall in Hx.
      apply list_elem_of_In, Hx, py_lt_not_eq in Hin.
      rewrite py_eq_refl in Hin. discriminate.
    + intros b Hb. apply Permutation_sym in Hp. apply (Permutation_in _ Hp) in Hb.
      destruct (select_loop_values _ _ _ _ Ha Hb) as [[] | Hin]. exact Hin.
Qed.

Lemma filter_all {A : Type} (P : A -> Prop) `{forall x, Decision (P x)} (l : list A) :
  Forall P l -> filter P l = l.
Proof.
  induction 1 as [| x l Hx Hl IH]; [reflexivity |].
  rewrite filter_cons, decide_True by assumption. f_equal. exact IH.
Qed.

Lemma dict_lookup_fresh d k :
  Forall (fun e => py_eq (fst e) k = false) d -> dict_lookup d k = None.
Proof.
  induction 1 as [| [k0 r0] d H0 Hd IH]; simpl; auto.
  simpl in H0. rewrite H0. exact IH.
Qed.

Lemma dict_set_fresh d k r :
  Forall (fun e => py_eq (fst e) k = false) d -> dict_set d k r = d ++ [(k, r)].
Proof.
  induction 1 as [| [k0 r0] d H0 Hd IH]; simpl; auto.
  simpl in H0. rewrite H0, IH. reflexivity.
Qed.

(** Records of pairwise different concurrencies are all selected, in the
    order of the array. *)
Lemma select_loop_distinct l : forall d,
  ForallOrdPairs (key_ne conc_key) l ->
  Forall (fun r => Forall (fun e => py_eq (fst e) (conc_key r) = false) d) l ->
  select_loop d l = Ok (d ++ map (fun r => (conc_key r, r)) l).
Proof.
  induction l as [| r l IH]; simpl; intros d Hne Hd.
  - rewrite app_nil_r. reflexivity.
  - inversion Hne as [| ? ? Hr Hne']; subst.
    apply Forall_cons_iff in Hd as [Hdr Hd].
    unfold select_step. fold (conc_key r).
    rewrite (dict_lookup_fresh _ _ Hdr), (dict_set_fresh _ _ _ Hdr). simpl.
    rewrite IH; auto.
    + rewrite <- app_assoc. reflexivity.
    + rewrite Forall_forall in Hd, Hr |- *. intros x Hx.
      apply Forall_app. split; [apply Hd; exact Hx |].
      repeat constructor. simpl. apply Hr. exact Hx.
Qed.

(** Sorting a strictly ascending list changes nothing. *)
Lemma py_sorted_id {A : Type} (key : A -> value) (l : list A) :
  StronglySorted (key_lt key) l -> py_sorted key l = Ok l.
Proof.
  induction 1 as [| x l Hs IH Hx]; simpl; [reflexivity |].
  rewrite IH. simpl. destruct l as [| y l]; [reflexivity |]. simpl.
  apply Forall_cons_iff in Hx as [Hxy _].
  rewrite (py_lt_asym _ _ Hxy). reflexivity.
Qed.

Lemma sorted_pairwise_ne {A : Type} (key : A -> value) (l : list A) :
  StronglySorted (key_lt key) l -> ForallOrdPairs (key_ne key) l.
Proof.
  induction 1 as [| x l Hs IH Hx]; constructor; auto.
  eapply Forall_impl; [exact Hx |]. intros y Hy. apply py_lt_not_eq. exact Hy.
Qed.

(** X6: Loader B is idempotent on its selection: loading the selected
    records again selects all of them, in the same order. *)
Theorem loader_b_idempotent (all_data best all : list record) :
  load_b200_trt_results all_data = Ok (best, all) ->
  load_b200_trt_results best = Ok (best, best).
Proof.
  intros H. unfold load_b200_trt_results in H. inv_ok.
  assert (Hf : Forall (fun r => is_b200_trt r = true) best).
  { apply Forall_forall. intros b Hb. apply list_elem_of_In in Hb.
    pose proof (py_sorted_perm _ _ _ Ha0) as Hp. apply Permutation_sym in Hp.
    apply (Permutation_in _ Hp) in Hb.
    destruct (select_loop_values _ _ _ _ Ha Hb) as [[] | Hin].
    apply list_elem_of_In, list_elem_of_filter in Hin as [Hin _]. exact Hin. }
  destruct (select_loop_invariant _ _ _ (FOP_nil _) (List.Forall_nil _) Ha) as [Hd Hm].
  assert (Hs : StronglySorted (key_lt conc_key) best).
  { eapply py_sorted_sorted; [| exact Ha0]. apply dict_values_distinct; auto. }
  unfold load_b200_trt_results. rewrite (filter_all _ _ Hf).
  rewrite select_loop_distinct.
  - simpl. unfold dict_values. rewrite map_map. simpl. rewrite map_id.
    rewrite (py_sorted_id _ _ Hs). reflexivity.
  - apply sorted_pairwise_ne. exact Hs.
  - apply Forall_forall. intros; constructor.
Qed.

(** ** More on sorting *)

Lemma kind_ltb_le_trans a b c :
  kind_ltb b a = Ok false -> kind_ltb c b = Ok false -> kind_ltb c a = Ok false.
Proof.
  destruct a, b, c; simpl; try discriminate; intros [= H1] [= H2]; f_equal.
  - apply Qlt_bool_false_iff. apply Qlt_bool_false_iff in H1, H2.
    eapply Qle_trans; eauto.
  - destruct (String.ltb s1 s) eqn:E; [exfalso | reflexivity].
    (* s1 < s, while s <= s0 <= s1 *)
    destruct (String.eqb s s0) eqn:E0.
    + apply String.eqb_eq in E0. subst. congruence.
    + assert (H : kind_ltb (KStr s) (KStr s0) = Ok true).
      { apply kind_ltb_total; simpl; [f_equal; exact H1 | exact E0]. }
      assert (H' : kind_ltb (KStr s1) (KStr s0) = Ok true).
      { eapply kind_ltb_trans; [| exact H]. simpl. f_equal. exact E. }
      simpl in H'. congruence.
Qed.

Lemma py_le_trans u v w :
  py_lt v u = Ok false -> py_lt w v = Ok false -> py_lt w u = Ok false.
Proof. rewrite !py_lt_classify. apply kind_ltb_le_trans. Qed.

Section SortedMore.
Context {A : Type} (key : A -> value).

Lemma sort_insert_sorted_le x l : forall l',
  StronglySorted (key_le key) l ->
  sort_insert key x l = Ok l' ->
  StronglySorted (key_le key) l'.
Proof.
  induction l as [| y l IH]; simpl; intros l' Hs H.
  - inv_ok. repeat constructor.
  - apply StronglySorted_inv in Hs as [Hs Hy].
    inv_ok. destruct a.
    + inv_ok. constructor; [eapply IH; eauto |].
      eapply Permutation_Forall; [exact (sort_insert_perm _ _ _ _ Ha0) |].
      constructor; [| exact Hy]. unfold key_le. apply py_lt_asym. exact Ha.
    + inv_ok. constructor; [constructor; auto |].
      constructor; [exact Ha |].
      eapply Forall_impl; [exact Hy |].
      intros z Hz. unfold key_le in *. eapply py_le_trans; eauto.
Qed.

Lemma py_sorted_sorted_le l : forall s,
  py_sorted key l = Ok s -> StronglySorted (key_le key) s.
Proof.
  induction l as [| x l IH]; simpl; intros s H.
  - inv_ok. constructor.
  - inv_ok. eapply sort_insert_sorted_le; eauto.
Qed.

(** Stability: the records of one key keep their order. *)
Lemma sort_insert_stable k x l : forall l',
  sort_insert key x l = Ok l' ->
  filter (fun y => py_eq (key y) k = true) l'
  = filter (fun y => py_eq (key y) k = true) (x :: l).
Proof.
  induction l as [| y l IH]; simpl; intros l' H.
  - inv_ok. reflexivity.
  - inv_ok. destruct a; inv_ok; [| reflexivity].
    rewrite filter_cons, (IH _ Ha0), !filter_cons.
    destruct (decide (py_eq (key x) k = true)) as [Hx | Hx];
      destruct (decide (py_eq (key y) k = true)) as [Hy | Hy]; try reflexivity.
    exfalso. apply py_lt_not_eq in Ha.
    rewrite (py_eq_congr _ _ _ Hy), py_eq_sym, Hx in Ha. discriminate.
Qed.

Lemma py_sorted_stable k l : forall s,
  py_sorted key l = Ok s ->
  filter (fun y => py_eq (key y) k = true) s
  = filter (fun y => py_eq (key y) k = true) l.
Proof.
  induction l as [| x l IH]; simpl; intros s H.
  - inv_ok. reflexivity.
  - inv_ok. rewrite (sort_insert_stable _ _ _ _ H), !filter_cons, (IH _ Ha).
    reflexivity.
Qed.

(** When the sort returns and when it raises. *)
Lemma py_lt_ok_class v w r :
  py_lt v w = Ok r -> (numeric v /\ numeric w) \/ (is_str v /\ is_str w).
Proof.
  unfold py_lt, numeric, is_str.
  destruct v, w; simpl; try discriminate; intros _; eauto 6.
Qed.

Lemma py_lt_err v w e : py_lt v w = Err e -> e = TypeError.
Proof. unfold py_lt. repeat case_match; congruence. Qed.

Lemma numeric_not_str v : numeric v -> is_str v -> False.
Proof. intros [q Hq] [s ->]. discriminate. Qed.

Lemma sort_insert_err x l e : sort_insert key x l = Err e -> e = TypeError.
Proof.
  induction l as [| y l IH]; simpl; [discriminate |].
  destruct (py_lt (key y) (key x)) as [[|] | e'] eqn:E; simpl.
  - destruct (sort_insert key x l); simpl; [discriminate | intros [= <-]; auto].
  - discriminate.
  - intros [= <-]. eapply py_lt_err; eauto.
Qed.

Lemma py_sorted_err l e : py_sorted key l = Err e -> e = TypeError.
Proof.
  induction l as [| x l IH]; simpl; [discriminate |].
  destruct (py_sorted key l) as [s |]; simpl.
  - apply sort_insert_err.
  - intros [= <-]. auto.
Qed.

Lemma sort_insert_class (P : value -> Prop) x l :
  (forall a b, P a -> P b -> exists r, py_lt a b = Ok r) ->
  P (key x) -> Forall (fun y => P (key y)) l ->
  exists l', sort_insert key x l = Ok l'.
Proof.
  intros HP Hx. induction 1 as [| y l Hy _ [l' IH]]; simpl; eauto.
  destruct (HP _ _ Hy Hx) as [[|] ->]; simpl; eauto.
  rewrite IH. simpl. eauto.
Qed.

Lemma py_sorted_class (P : value -> Prop) l :
  (forall a b, P a -> P b -> exists r, py_lt a b = Ok r) ->
  Forall (fun y => P (key y)) l ->
  exists s, py_sorted key l = Ok s.
Proof.
  intros HP. induction 1 as [| x l Hx Hl [s IH]]; simpl; eauto.
  rewrite IH. simpl. apply sort_insert_class with (P := P); auto.
  eapply Permutation_Forall; [exact (py_sorted_perm _ _ _ IH) | exact Hl].
Qed.

Lemma py_sorted_ok_class l s :
  py_sorted key l = Ok s -> (2 <= length l)%nat ->
  Forall (fun y => numeric (key y)) l \/ Forall (fun y => is_str (key y)) l.
Proof.
  revert s. induction l as [| x l IH]; simpl; intros s H Hlen; [lia |].
  inv_ok. pose proof (py_sorted_perm _ _ _ Ha) as Hp.
  destruct a as [| y a']; [apply Permutation_nil_r in Hp; subst; simpl in Hlen; lia |].
  simpl in H. inv_ok.
  assert (Hy : In y l) by (apply Permutation_sym in Hp; eapply Permutation_in; eauto; left; auto).
  apply py_lt_ok_class in Ha0.
  destruct l as [| z [| z' l]].
  - destruct Hy.
  - destruct Hy as [<- | []].
    destruct Ha0 as [[? ?] | [? ?]]; [left | right]; repeat constructor; auto.
  - destruct (IH _ Ha) as [Hn | Hs]; [simpl; lia | |].
    + left. constructor; auto. rewrite Forall_forall in Hn.
      apply list_elem_of_In, Hn in Hy.
      destruct Ha0 as [[Hny Hnx] | [Hsy Hsx]];
        [exact Hnx | exfalso; exact (numeric_not_str _ Hy Hsy)].
    + right. constructor; auto. rewrite Forall_forall in Hs.
      apply list_elem_of_In, Hs in Hy.
      destruct Ha0 as [[Hny Hnx] | [Hsy Hsx]];
        [exfalso; exact (numeric_not_str _ Hny Hy) | exact Hsx].
Qed.
End SortedMore.

Lemma py_lt_numeric a b : numeric a -> numeric b -> exists r, py_lt a b = Ok r.
Proof. intros [p Hp] [q Hq]. unfold py_lt. rewrite Hp, Hq. eauto. Qed.

Lemma py_lt_str a b : is_str a -> is_str b -> exists r, py_lt a b = Ok r.
Proof. intros [s ->] [t ->]. simpl. eauto. Qed.

(** ** More on Loader A *)

(** X8: Loader A returns exactly when at most one file gives a record, or
    all the concurrencies are numbers, or all are strings; otherwise the
    sort, which is outside the [try], raises [TypeError]. *)
Theorem loader_a_returns_iff (files : list (string * option record)) :
  ((exists out, load_baseten_results files = Ok out) <->
   (length (omap load_one files) <= 1)%nat
   \/ Forall (fun r => numeric (concurrency_key r)) (omap load_one files)
   \/ Forall (fun r => is_str (concurrency_key r)) (omap load_one files))
  /\ (forall e, load_baseten_results files = Err e -> e = TypeError).
Proof.
  unfold load_baseten_results. split; [split |].
  - intros [out H].
    destruct (le_lt_dec (length (omap load_one files)) 1) as [Hl | Hl]; [auto |].
    right. eapply py_sorted_ok_class; eauto.
  - intros [Hl | [Hn | Hs]].
    + destruct (omap load_one files) as [| x [| y l]]; simpl in *; eauto; lia.
    + apply py_sorted_class with (P := numeric); auto using py_lt_numeric.
    + apply py_sorted_class with (P := is_str); auto using py_lt_str.
  - intros e. apply py_sorted_err.
Qed.

Lemma load_one_some file r :
  load_one file = Some r ->
  exists stem result,
    file = (stem, Some result)
    /\ resolve_concurrency stem result <> VNone
    /\ r = <["concurrency"%string := resolve_concurrency stem result]> result.
Proof.
  destruct file as [stem [result |]]; simpl; [| discriminate].
  intros H. exists stem, result. split; [reflexivity |].
  destruct (resolve_concurrency stem result); [discriminate | | | |];
    injection H as <-; split; congruence.
Qed.

(** X9: every record that Loader A returns is the decoded object of one of
    the files with one field set: [concurrency] holds the resolved
    concurrency, which is never [None], also when the file had a
    [concurrency] field of its own; all the other fields are those of the
    file. *)
Theorem loader_a_records (files : list (string * option record)) (out : list record) :
  load_baseten_results files = Ok out ->
  forall r, In r out ->
    exists stem result,
      In (stem, Some result) files
      /\ resolve_concurrency stem result <> VNone
      /\ r !! "concurrency"%string = Some (resolve_concurrency stem result)
      /\ forall k, k <> "concurrency"%string -> r !! k = result !! k.
Proof.
  intros H r Hr. unfold load_baseten_results in H.
  pose proof (py_sorted_perm _ _ _ H) as Hp. apply Permutation_sym in Hp.
  apply (Permutation_in _ Hp) in Hr.
  apply list_elem_of_In, list_elem_of_omap in Hr as (file & Hin & Hf).
  apply load_one_some in Hf as (stem & result & -> & Hne & ->).
  exists stem, result. split; [apply list_elem_of_In; exact Hin |].
  split; [exact Hne |]. split.
  - apply lookup_insert_eq.
  - intros k Hk. apply lookup_insert_ne. congruence.
Qed.

(** ** More on the reconciliation *)

Lemma first_b200_at_none b200_best c :
  (forall b, In b b200_best -> py_eq (conc_key b) c = false) ->
  first_b200_at b200_best c = None.
Proof.
  intros H. unfold first_b200_at.
  destruct (find _ _) as [b |] eqn:E; [| reflexivity].
  apply find_some in E as [Hin Hc]. fold (conc_key b) in Hc.
  rewrite (H b Hin) in Hc. discriminate.
Qed.

Lemma first_b200_at_sorted_values d best b c :
  keys_distinct d -> keys_match d ->
  py_sorted conc_key (dict_values d) = Ok best ->
  In b best -> py_eq (conc_key b) c = true ->
  first_b200_at best c = Some b.
Proof.
  intros Hd Hm Hs Hb Hc.
  unfold first_b200_at. destruct (find _ best) as [b' |] eqn:E.
  - apply find_some in E as [Hin Hc']. fold (conc_key b') in Hc'. f_equal.
    eapply best_at_conc_unique; eauto.
    rewrite (py_eq_congr _ _ _ Hc'), py_eq_sym. exact Hc.
  - apply find_none with (x := b) in E; auto.
    fold (conc_key b) in E. congruence.
Qed.

(** X11: in a [bestPerConcurrency] that Loader B returned, the lookup by
    concurrency of the chart functions is unambiguous: it finds the one
    selected record of that concurrency, and nothing when no selected
    record has it. *)
Theorem loaded_best_lookup (all_data best all : list record) (c : value) :
  load_b200_trt_results all_data = Ok (best, all) ->
  (forall b, In b best -> py_eq (conc_key b) c = true ->
             first_b200_at best c = Some b
             /\ b200_tp_at_conc best c = get b "tp" (VInt 0))
  /\ ((forall b, In b best -> py_eq (conc_key b) c = false) ->
      first_b200_at best c = None /\ b200_tp_at_conc best c = VNone).
Proof.
  intros H. unfold load_b200_trt_results in H. inv_ok.
  destruct (select_loop_invariant _ _ _ (FOP_nil _) (List.Forall_nil _) Ha) as [Hd Hm].
  split.
  - intros b Hb Hc.
    pose proof (first_b200_at_sorted_values _ _ _ _ Hd Hm Ha0 Hb Hc) as E.
    split; [exact E |]. rewrite b200_tp_at_conc_first, E. reflexivity.
  - intros Hno. pose proof (first_b200_at_none _ _ Hno) as E.
    split; [exact E |]. rewrite b200_tp_at_conc_first, E. reflexivity.
Qed.

(** What a plotted Baseten point says about its record. *)
Lemma baseten_point_of_inv b200_best result p :
  baseten_point_of b200_best result = Ok (Some p) ->
  py_eq (get result "concurrency" (VInt 0)) (VInt 0) = false
  /\ is_unreliable (get result "completed" (VInt 0))
       (total_requests_of result (get result "completed" (VInt 0))) = Ok false
  /\ sp_conc p = get result "concurrency" (VInt 0)
  /\ baseten_tput_value b200_best (get result "concurrency" (VInt 0))
       (get result "total_token_throughput" (VInt 0)) = Ok (sp_tput p)
  /\ py_truediv (get result "median_e2el_ms" (VInt 0)) (VFloat 1000) = Ok (sp_e2el p).
Proof.
  unfold baseten_point_of. intros H.
  destruct (py_eq (get result "concurrency" _) _); [discriminate |].
  inv_ok. destruct a; [discriminate |]. inv_ok. simpl. auto.
Qed.

Lemma baseten_points_inv b200_best rs : forall ps,
  baseten_points b200_best rs = Ok ps ->
  sublist (map sp_conc ps) (map (fun r => get r "concurrency" (VInt 0)) rs)
  /\ Forall (fun p => exists r, In r rs /\ baseten_point_of b200_best r = Ok (Some p)) ps.
Proof.
  induction rs as [| r rs IH]; simpl; intros ps H.
  - inv_ok. split; constructor.
  - inv_ok. destruct (IH _ Ha0) as [Hs Hf].
    assert (Hf' : Forall (fun p => exists r0, (r = r0 \/ In r0 rs)
                    /\ baseten_point_of b200_best r0 = Ok (Some p)) a0).
    { eapply Forall_impl; [exact Hf |]. intros p (r0 & Hin & Hp). eauto. }
    destruct a as [pt |].
    + split.
      * simpl. destruct (baseten_point_of_inv _ _ _ Ha) as (_ & _ & -> & _).
        constructor. exact Hs.
      * constructor; eauto.
    + split; [constructor; exact Hs | exact Hf'].
Qed.

(** X12: the Baseten series of a chart is drawn from the records in their
    order: the concurrencies of the points are a subsequence of those of
    the records, there are no more points than records, and every point
    comes from a record whose concurrency is not 0 and which passes the
    reliability test. *)
Theorem baseten_series_subsequence
    (baseten_results b200_best b200_all : list record) (c : comparison_chart) :
  plot_comparison baseten_results b200_best b200_all = Ok c ->
  sublist (map sp_conc (cc_baseten c))
          (map (fun r => get r "concurrency" (VInt 0)) baseten_results)
  /\ (length (cc_baseten c) <= length baseten_results)%nat
  /\ Forall (fun p =>
       py_eq (sp_conc p) (VInt 0) = false
       /\ exists r, In r baseten_results
            /\ sp_conc p = get r "concurrency" (VInt 0)
            /\ is_unreliable (get r "completed" (VInt 0))
                 (total_requests_of r (get r "completed" (VInt 0))) = Ok false)
       (cc_baseten c).
Proof.
  intros H. unfold plot_comparison in H. inv_ok. simpl.
  destruct (baseten_points_inv _ _ _ Ha0) as [Hs Hf].
  split; [exact Hs |]. split.
  - apply sublist_length in Hs. rewrite !length_map in Hs. exact Hs.
  - eapply Forall_impl; [exact Hf |]. intros p (r & Hin & Hp).
    destruct (baseten_point_of_inv _ _ _ Hp) as (H0 & Hu & Hc & _).
    split; [rewrite Hc; exact H0 |]. eauto.
Qed.


(** X14: on integer counts (up to 2^53) the reliability test is monotone
    in the completed count: a record that passes still passes with more
    completed requests and the same total. *)
Theorem reliability_monotone (c c' t : Z) :
  Z.abs c <= 2 ^ 53 -> Z.abs c' <= 2 ^ 53 -> Z.abs t <= 2 ^ 53 ->
  c <= c' ->
  is_unreliable (VInt c) (VInt t) = Ok false ->
  is_unreliable (VInt c') (VInt t) = Ok false.
Proof.
  intros _ _ _ Hle H.
  destruct (is_unreliable_int c t) as (b & Hb & Hiff).
  destruct (is_unreliable_int c' t) as (b' & Hb' & Hiff').
  rewrite Hb in H. injection H as ->. rewrite Hb'. f_equal.
  destruct b'; [| reflexivity]. exfalso.
  assert (Hn : ~ (c < 10 \/ (0 < t /\ 2 * c < t)))
    by (intros Hx; apply Hiff in Hx; discriminate).
  destruct (proj1 Hiff' eq_refl) as [H10 | [Hpos Hr]]; apply Hn; lia.
Qed.

(** X15: a record with neither [total_requests] nor [num_prompts] is
    judged by the floor alone: the total defaults to the completed count,
    the ratio is 1, and the record is excluded exactly when its completed
    count is below 10. *)
Theorem reliability_without_total (result : record) (c : Q) :
  result !! "total_requests"%string = None ->
  result !! "num_prompts"%string = None ->
  as_num (get result "completed" (VInt 0)) = Some c ->
  exists b,
    is_unreliable (get result "completed" (VInt 0))
      (total_requests_of result (get result "completed" (VInt 0))) = Ok b
    /\ (b = true <-> (c < 10)%Q).
Proof.
  intros Ht Hp Hc.
  assert (E : total_requests_of result (get result "completed" (VInt 0))
              = get result "completed" (VInt 0)).
  { unfold total_requests_of. unfold get at 1 2. rewrite Ht, Hp. reflexivity. }
  rewrite E.
  destruct (is_unreliable_num _ _ _ _ Hc Hc) as (b & Hb & Hiff).
  exists b. split; [exact Hb |]. rewrite Hiff. split; [| auto].
  intros [H | [Hpos Hr]]; [exact H | exfalso].
  assert (H1 : (c / c == 1)%Q).
  { unfold Qdiv. apply Qmult_inv_r. intros H0. rewrite H0 in Hpos. exact (Qlt_irrefl _ Hpos). }
  rewrite H1 in Hr. discriminate Hr.
Qed.

Lemma mapM_In {A B : Type} (f : A -> res B) (l : list A) : forall l' y,
  mapM f l = Ok l' -> In y l' -> exists x, In x l /\ f x = Ok y.
Proof.
  induction l as [| x l IH]; simpl; intros l' y H Hy; inv_ok; [destruct Hy |].
  destruct Hy as [<- | Hy]; [eauto |].
  destruct (IH _ _ Ha0 Hy) as (x' & ? & ?). eauto.
Qed.

Lemma mapM_length {A B : Type} (f : A -> res B) (l : list A) : forall l',
  mapM f l = Ok l' -> length l' = length l.
Proof.
  induction l as [| x l IH]; simpl; intros l' H; inv_ok; simpl; auto.
Qed.

(** X16: in the comparison chart the two series are on the same basis at
    every concurrency that both have, when [bestPerConcurrency] comes from
    Loader B: where the B200 point is labelled per GPU the Baseten value is
    the total throughput divided by 8, and where it is labelled total the
    Baseten value is the total throughput. *)
Theorem comparison_same_basis
    (all_data best all baseten_results b200_all : list record) (c : comparison_chart) :
  load_b200_trt_results all_data = Ok (best, all) ->
  plot_comparison baseten_results best b200_all = Ok c ->
  forall p q,
    In p (cc_baseten c) -> In q (cc_b200 c) ->
    py_eq (bp_conc q) (sp_conc p) = true ->
    exists r, In r baseten_results
      /\ sp_conc p = get r "concurrency" (VInt 0)
      /\ match bp_label q with
         | PerGPU _ =>
             py_truediv (get r "total_token_throughput" (VInt 0)) (VInt 8)
             = Ok (sp_tput p)
         | Total _ => sp_tput p = get r "total_token_throughput" (VInt 0)
         end.
Proof.
  intros Hload Hplot p q Hp Hq Hc.
  unfold load_b200_trt_results in Hload. inv_ok.
  destruct (select_loop_invariant _ _ _ (FOP_nil _) (List.Forall_nil _) Ha) as [Hd Hm].
  unfold plot_comparison in Hplot. inv_ok. simpl in Hp, Hq.
  destruct (mapM_In _ _ _ _ Ha1 Hq) as (b & Hb & Hbq).
  destruct (baseten_points_inv _ _ _ Ha2) as [_ Hf].
  rewrite Forall_forall in Hf. apply list_elem_of_In, Hf in Hp as (r & Hr & Hpr).
  destruct (baseten_point_of_inv _ _ _ Hpr) as (_ & _ & Hpc & Hv & _).
  unfold b200_point_of in Hbq. inv_ok. simpl in Hc |- *.
  exists r. split; [exact Hr |]. split; [exact Hpc |].
  rewrite Hpc in Hc. fold (conc_key b) in Hc.
  pose proof (first_b200_at_sorted_values _ _ _ _ Hd Hm Ha0 Hb Hc) as E.
  unfold baseten_tput_value in Hv. rewrite b200_tp_at_conc_first, E in Hv.
  destruct (py_eq (get b "tp" (VInt 0)) (VInt 8)); [exact Hv | congruence].
Qed.

(** *** When the chart functions return and when they raise *)

Lemma baseten_point_of_numeric b200_best r :
  numeric_baseten r -> exists p, baseten_point_of b200_best r = Ok p.
Proof.
  intros ([c Hc] & [t Ht] & [u Hu] & [m Hm]). unfold baseten_point_of.
  destruct (py_eq (get r "concurrency" _) _); [eauto |].
  destruct (is_unreliable_num _ _ _ _ Hc Ht) as (b & -> & _). simpl.
  destruct b; [eauto |].
  destruct (py_truediv_num _ (VFloat 1000) _ 1000%Q Hm eq_refl) as (q & -> & _);
    [discriminate |]. simpl.
  unfold baseten_tput_value. destruct (py_eq (b200_tp_at_conc _ _) _); simpl; [| eauto].
  destruct (py_truediv_num _ BASETEN_GPU_COUNT _ 8%Q Hu eq_refl) as (q' & -> & _);
    [discriminate |]. simpl. eauto.
Qed.

Lemma baseten_points_numeric b200_best rs :
  Forall numeric_baseten rs -> exists ps, baseten_points b200_best rs = Ok ps.
Proof.
  induction 1 as [| r rs Hr _ [ps IH]]; simpl; eauto.
  destruct (baseten_point_of_numeric b200_best r Hr) as [p ->]. rewrite IH. simpl. eauto.
Qed.

Lemma b200_point_of_numeric r :
  numeric_b200 r -> exists p, b200_point_of r = Ok p.
Proof.
  intros [[t Ht] [p Hp]]. unfold b200_point_of, b200_tput_value.
  destruct (py_eq (get r "tp" _) _); simpl; [eauto |].
  destruct (py_mul_num _ _ _ _ Ht Hp) as (v & q & -> & _). simpl. eauto.
Qed.

Lemma b200_points_numeric best :
  Forall numeric_b200 best -> exists ps, mapM b200_point_of best = Ok ps.
Proof.
  induction 1 as [| r rs Hr _ [ps IH]]; simpl; eauto.
  destruct (b200_point_of_numeric r Hr) as [p ->]. rewrite IH. simpl. eauto.
Qed.

Lemma py_mul_err v w e : py_mul v w = Err e -> e = TypeError.
Proof. unfold py_mul. repeat case_match; congruence. Qed.

Lemma py_truediv_err v w b e :
  as_num w = Some b -> ~ (b == 0)%Q -> py_truediv v w = Err e -> e = TypeError.
Proof.
  intros Hw Hb. unfold py_truediv. rewrite Hw.
  destruct (as_num v); [| congruence].
  destruct (Qeq_bool b 0) eqn:E; [| discriminate].
  apply Qeq_bool_iff in E. contradiction.
Qed.

Lemma is_unreliable_err completed total e :
  is_unreliable completed total = Err e -> e = TypeError.
Proof.
  unfold is_unreliable.
  destruct (py_lt completed (VInt 10)) as [[|] | e1] eqn:E1; simpl;
    [discriminate | | intros [= <-]; eapply py_lt_err; eauto].
  rewrite py_gt_lt.
  destruct (py_lt (VInt 0) total) as [[|] | e2] eqn:E2; simpl;
    [| discriminate | intros [= <-]; eapply py_lt_err; eauto].
  destruct (py_truediv completed total) as [q | e3] eqn:E3; simpl.
  - apply py_lt_err.
  - intros [= <-]. unfold py_lt in E2. simpl in E2.
    destruct (as_num total) as [t |] eqn:Et; [| discriminate].
    injection E2 as E2. apply Qlt_bool_iff in E2.
    eapply (py_truediv_err _ _ t); eauto.
    intros H. rewrite H in E2. exact (Qlt_irrefl _ E2).
Qed.

Lemma baseten_point_of_err best r e :
  baseten_point_of best r = Err e -> e = TypeError.
Proof.
  unfold baseten_point_of.
  destruct (py_eq (get r "concurrency" _) _); [discriminate |].
  destruct (is_unreliable _ _) as [[|] | e1] eqn:E1; simpl;
    [discriminate | | intros [= <-]; eapply is_unreliable_err; eauto].
  destruct (py_truediv _ (VFloat 1000)) as [q | e2] eqn:E2; simpl.
  2:{ intros [= <-]. eapply (py_truediv_err _ (VFloat 1000) 1000%Q); eauto. discriminate. }
  unfold baseten_tput_value.
  destruct (py_eq (b200_tp_at_conc _ _) _); simpl; [| discriminate].
  destruct (py_truediv _ BASETEN_GPU_COUNT) as [q' | e3] eqn:E3; simpl; [discriminate |].
  intros [= <-]. eapply (py_truediv_err _ BASETEN_GPU_COUNT 8%Q); eauto. discriminate.
Qed.

Lemma baseten_points_err best rs e :
  baseten_points best rs = Err e -> e = TypeError.
Proof.
  induction rs as [| r rs IH]; simpl; [discriminate |].
  destruct (baseten_point_of best r) as [p | e1] eqn:E; simpl.
  - destruct (baseten_points best rs) as [ps | e2]; simpl; [discriminate |].
    intros [= <-]. auto.
  - intros [= <-]. eapply baseten_point_of_err; eauto.
Qed.

Lemma baseten_points_raises best rs r :
  In r rs -> (exists e, baseten_point_of best r = Err e) ->
  baseten_points best rs = Err TypeError.
Proof.
  intros Hin [e He]. induction rs as [| x rs IH]; [destruct Hin |]. simpl.
  destruct (baseten_point_of best x) as [p | e1] eqn:E; simpl.
  - destruct Hin as [-> | Hin]; [congruence |]. rewrite (IH Hin). reflexivity.
  - f_equal. eapply baseten_point_of_err; eauto.
Qed.

Lemma b200_points_err best e : mapM b200_point_of best = Err e -> e = TypeError.
Proof.
  induction best as [| r rs IH]; simpl; [discriminate |].
  destruct (b200_point_of r) as [p | e1] eqn:E; simpl.
  - destruct (mapM b200_point_of rs) as [ps | e2]; simpl; [discriminate |].
    intros [= <-]. auto.
  - intros [= <-]. unfold b200_point_of, b200_tput_value in E.
    destruct (py_eq _ _); simpl in E; [discriminate |].
    destruct (py_mul _ _) eqn:E'; simpl in E; [discriminate |].
    injection E as <-. eapply py_mul_err; eauto.
Qed.

Lemma charts_errors_are_type_errors (baseten_results b200_best b200_all : list record) :
  (forall e, plot_comparison baseten_results b200_best b200_all = Err e ->
             e = TypeError)
  /\ (forall e, plot_comparison_with_all_b200_configs
                  baseten_results b200_best b200_all = Err e -> e = TypeError).
Proof.
  split.
  - intros e. unfold plot_comparison.
    destruct (mapM b200_point_of b200_best) as [bp | e1] eqn:E1; simpl.
    + destruct (baseten_points b200_best baseten_results) as [ps | e2] eqn:E2; simpl;
        [discriminate |].
      intros [= <-]. eapply baseten_points_err; eauto.
    + intros [= <-]. eapply b200_points_err; eauto.
  - intros e. unfold plot_comparison_with_all_b200_configs.
    destruct (baseten_points b200_best baseten_results) as [ps | e2] eqn:E2; simpl;
      [discriminate |].
    intros [= <-]. eapply baseten_points_err; eauto.
Qed.

Lemma plain_number_numeric v : plain_number v -> numeric v.
Proof. destruct v; simpl; intros H; try contradiction; eexists; reflexivity. Qed.

(** X17: both chart functions prepare their data without raising when the
    fields they read are floats, bools or integers up to 2^53, with one
    B200 point per best record and one detailed point per filtered
    record. *)
Theorem charts_return_on_numbers (baseten_results b200_best b200_all : list record) :
  Forall plain_baseten baseten_results -> Forall plain_b200 b200_best ->
  exists c d,
    plot_comparison baseten_results b200_best b200_all = Ok c
    /\ plot_comparison_with_all_b200_configs baseten_results b200_best b200_all = Ok d
    /\ length (cc_b200 c) = length b200_best
    /\ length (dc_all d) = length b200_all.
Proof.
  intros Ha Hb.
  assert (Ha' : Forall numeric_baseten baseten_results).
  { eapply Forall_impl; [exact Ha |]. intros r (H1 & H2 & H3 & H4).
    repeat split; apply plain_number_numeric; assumption. }
  assert (Hb' : Forall numeric_b200 b200_best).
  { eapply Forall_impl; [exact Hb |]. intros r (H1 & H2).
    split; apply plain_number_numeric; assumption. }
  destruct (b200_points_numeric _ Hb') as [bp Hbp].
  destruct (baseten_points_numeric b200_best _ Ha') as [ps Hps].
  unfold plot_comparison, plot_comparison_with_all_b200_configs.
  rewrite Hbp, Hps. simpl. eexists. eexists.
  split; [reflexivity |]. split; [reflexivity |]. simpl.
  split; [eapply mapM_length; eauto | apply length_map].
Qed.

(** X18: a completed count that is not a number (null, a string) on a
    record of non-zero concurrency makes both chart functions raise: the
    record is not skipped, and no chart is made. *)
Theorem charts_raise_on_bad_completed
    (baseten_results b200_best b200_all : list record) (r : record) :
  In r baseten_results ->
  py_eq (get r "concurrency" (VInt 0)) (VInt 0) = false ->
  ~ numeric (get r "completed" (VInt 0)) ->
  (exists e, plot_comparison baseten_results b200_best b200_all = Err e)
  /\ (exists e, plot_comparison_with_all_b200_configs baseten_results b200_best b200_all
                = Err e).
Proof.
  intros Hin Hc Hn.
  assert (Hr : exists e, baseten_point_of b200_best r = Err e).
  { unfold baseten_point_of. rewrite Hc. unfold is_unreliable, py_lt.
    destruct (as_num (get r "completed" (VInt 0))) as [q |] eqn:E.
    - exfalso. apply Hn. exists q. exact E.
    - simpl. destruct (get r "completed" (VInt 0)); simpl; eauto. }
  pose proof (baseten_points_raises b200_best _ _ Hin Hr) as Hps.
  unfold plot_comparison, plot_comparison_with_all_b200_configs. rewrite Hps.
  split; [| eauto].
  destruct (mapM b200_point_of b200_best) as [bp | e1] eqn:E1; simpl; eauto.
Qed.

(** ** Sorting with a comparison of the elements *)

Section SortByFacts.
Context {A : Type} (lt : A -> A -> res bool).
Hypothesis lt_asym : forall a b, lt a b = Ok true -> lt b a = Ok false.

Lemma sort_insert_by_perm x l : forall l',
  sort_insert_by lt x l = Ok l' -> Permutation (x :: l) l'.
Proof.
  induction l as [| y l IH]; simpl; intros l' H.
  - inv_ok. reflexivity.
  - inv_ok. destruct a.
    + inv_ok. rewrite perm_swap. constructor. apply IH. exact Ha0.
    + inv_ok. reflexivity.
Qed.

Lemma sort_by_perm l : forall s, sort_by lt l = Ok s -> Permutation l s.
Proof.
  induction l as [| x l IH]; simpl; intros s H.
  - inv_ok. reflexivity.
  - inv_ok. rewrite (IH _ Ha). apply sort_insert_by_perm. exact H.
Qed.

Lemma sort_insert_by_head x l l' :
  sort_insert_by lt x l = Ok l' ->
  exists h t, l' = h :: t /\ (h = x \/ exists t', l = h :: t').
Proof.
  destruct l as [| y l]; simpl; intros H.
  - inv_ok. eauto.
  - inv_ok. destruct a; inv_ok; eauto 6.
Qed.

Lemma sort_insert_by_sorted x l : forall l',
  Sorted (fun a b => lt b a = Ok false) l ->
  sort_insert_by lt x l = Ok l' ->
  Sorted (fun a b => lt b a = Ok false) l'.
Proof.
  induction l as [| y l IH]; simpl; intros l' Hs H.
  - inv_ok. repeat constructor.
  - apply Sorted_inv in Hs as [Hs Hy].
    inv_ok. destruct a.
    + inv_ok. constructor; [eapply IH; eauto |].
      destruct (sort_insert_by_head _ _ _ Ha0) as (h & t & -> & [-> | [t' ->]]).
      * constructor. apply lt_asym. exact Ha.
      * constructor. inversion Hy; subst. assumption.
    + inv_ok. repeat constructor; auto.
Qed.

Lemma sort_by_sorted l : forall s,
  sort_by lt l = Ok s -> Sorted (fun a b => lt b a = Ok false) s.
Proof.
  induction l as [| x l IH]; simpl; intros s H.
  - inv_ok. constructor.
  - inv_ok. eapply sort_insert_by_sorted; [eapply IH; exact Ha | exact H].
Qed.
End SortByFacts.

(** ** The axis limits *)








(** ** More on [main] *)

Lemma py_gt_err v w e : py_gt v w = Err e -> e = TypeError.
Proof. rewrite py_gt_lt. apply py_lt_err. Qed.

Lemma select_step_err d r e :
  select_step d r = Err e -> e = KeyError \/ e = TypeError.
Proof.
  unfold select_step.
  destruct (dict_lookup d _) as [cur |]; [| discriminate].
  destruct (py_eq (get r "tp" _) _); [discriminate |].
  destruct (negb _); [| discriminate].
  unfold getitem. destruct (cur !! "tput_per_gpu"%string) as [v |]; simpl.
  - destruct (py_gt _ v) as [[|] | e'] eqn:E; simpl; try discriminate.
    intros [= <-]. right. eapply py_gt_err; eauto.
  - intros [= <-]. left. reflexivity.
Qed.

Lemma select_loop_err rs : forall d e,
  select_loop d rs = Err e -> e = KeyError \/ e = TypeError.
Proof.
  induction rs as [| r rs IH]; simpl; intros d e; [discriminate |].
  destruct (select_step d r) as [d' | e'] eqn:E; simpl.
  - apply IH.
  - intros [= <-]. eapply select_step_err; eauto.
Qed.

Lemma load_b200_trt_results_err all_data e :
  load_b200_trt_results all_data = Err e -> e = KeyError \/ e = TypeError.
Proof.
  unfold load_b200_trt_results.
  destruct (select_loop _ _) as [d | e'] eqn:E; simpl.
  - destruct (py_sorted _ _) as [s | e'] eqn:E'; simpl; [discriminate |].
    intros [= <-]. right. eapply py_sorted_err; eauto.
  - intros [= <-]. eapply select_loop_err; eauto.
Qed.

(** X22: when the drawing calls do not themselves exit the process, the
    exit status is 0 or 1, and it is 0 only after a complete run: both
    paths exist, both loaders returned at least one record, and both charts
    were prepared and drawn. *)
Theorem main_exit_status_zero_only_if (w : world) :
  (forall c code, render_comparison w c <> Err (SystemExit code)) ->
  (forall d code, render_detailed w d <> Err (SystemExit code)) ->
  (exit_status (main w) = 0 \/ exit_status (main w) = 1)
  /\ (exit_status (main w) = 0 ->
      exists prog baseten_dir inferencemax_json rest baseten_results all_data
             b200_best b200_all c d,
        argv w = prog :: baseten_dir :: inferencemax_json :: rest
        /\ path_exists w baseten_dir = true
        /\ path_exists w inferencemax_json = true
        /\ load_baseten_results (glob_json w baseten_dir) = Ok baseten_results
        /\ baseten_results <> []
        /\ json_load w inferencemax_json = Some all_data
        /\ load_b200_trt_results all_data = Ok (b200_best, b200_all)
        /\ b200_best <> []
        /\ plot_comparison baseten_results b200_best b200_all = Ok c
        /\ render_comparison w c = Ok tt
        /\ plot_comparison_with_all_b200_configs
             baseten_results b200_best b200_all = Ok d
        /\ render_detailed w d = Ok tt).
Proof.
  intros Hrc Hrd. unfold main.
  destruct (argv w) as [| prog [| dir [| json rest]]]; simpl;
    try (split; [right; reflexivity | discriminate]).
  destruct (path_exists w dir) eqn:Ed; simpl;
    [| split; [right; reflexivity | discriminate]].
  destruct (path_exists w json) eqn:Ej; simpl;
    [| split; [right; reflexivity | discriminate]].
  destruct (load_baseten_results _) as [a | e] eqn:Ea; simpl.
  2:{ apply py_sorted_err in Ea as ->. split; [right; reflexivity | discriminate]. }
  destruct (json_load w json) as [data |] eqn:Edata; simpl;
    [| split; [right; reflexivity | discriminate]].
  destruct (load_b200_trt_results data) as [[best all] | e] eqn:Eb; simpl.
  2:{ apply load_b200_trt_results_err in Eb as [-> | ->];
        (split; [right; reflexivity | discriminate]). }
  destruct a as [| a0 a]; [split; [right; reflexivity | discriminate] |].
  destruct best as [| b0 best]; [split; [right; reflexivity | discriminate] |].
  destruct (plot_comparison _ _ _) as [c | e] eqn:Ec; simpl.
  2:{ destruct (charts_errors_are_type_errors (a0 :: a) (b0 :: best) all) as [H1 _].
      apply H1 in Ec as ->. split; [right; reflexivity | discriminate]. }
  destruct (render_comparison w c) as [[] | e] eqn:Erc; simpl.
  2:{ destruct e; try (split; [right; reflexivity | discriminate]).
      exfalso. eapply Hrc; eauto. }
  destruct (plot_comparison_with_all_b200_configs _ _ _) as [d | e] eqn:Edd; simpl.
  2:{ destruct (charts_errors_are_type_errors (a0 :: a) (b0 :: best) all) as [_ H2].
      apply H2 in Edd as ->. split; [right; reflexivity | discriminate]. }
  destruct (render_detailed w d) as [[] | e] eqn:Erd; simpl.
  2:{ destruct e; try (split; [right; reflexivity | discriminate]).
      exfalso. eapply Hrd; eauto. }
  split; [left; reflexivity |]. intros _.
  exists prog, dir, json, rest, (a0 :: a), data, (b0 :: best), all, c, d.
  repeat (split; [first [assumption | reflexivity | discriminate] |]). exact Erd.
Qed.

(** ** The selection is local to a concurrency *)

Lemma select_step_other c d r d' :
  py_eq (conc_key r) c = false -> select_step d r = Ok d' ->
  dict_lookup d' c = dict_lookup d c.
Proof.
  intros Hc H. apply select_step_cases in H as [-> | ->]; [reflexivity |].
  rewrite dict_lookup_set, Hc. reflexivity.
Qed.

Lemma select_step_local c d1 d2 r d1' :
  dict_lookup d1 c = dict_lookup d2 c ->
  py_eq (conc_key r) c = true ->
  select_step d1 r = Ok d1' ->
  exists d2', select_step d2 r = Ok d2' /\ dict_lookup d1' c = dict_lookup d2' c.
Proof.
  intros Hl Hc H. unfold select_step in *. fold (conc_key r) in *.
  rewrite (dict_lookup_congr d1 _ _ Hc) in H.
  rewrite (dict_lookup_congr d2 _ _ Hc), <- Hl.
  assert (Hset : forall d, dict_lookup (dict_set d (conc_key r) r) c = Some r)
    by (intros d; rewrite dict_lookup_set, Hc; reflexivity).
  destruct (dict_lookup d1 c) as [cur |] eqn:E1.
  - destruct (py_eq (get r "tp" _) _).
    { inv_ok. eexists. split; [reflexivity |]. rewrite !Hset. reflexivity. }
    destruct (negb _).
    + destruct (getitem cur "tput_per_gpu") as [v |]; simpl in *; [| discriminate].
      destruct (py_gt _ v) as [[|] |]; simpl in *; inv_ok.
      * eexists. split; [reflexivity |]. rewrite !Hset. reflexivity.
      * eexists. split; [reflexivity |]. rewrite E1. exact Hl.
    + inv_ok. eexists. split; [reflexivity |]. rewrite E1. exact Hl.
  - inv_ok. eexists. split; [reflexivity |]. rewrite !Hset. reflexivity.
Qed.

Lemma select_loop_local c rs : forall d1 d2 d1',
  dict_lookup d1 c = dict_lookup d2 c ->
  select_loop d1 rs = Ok d1' ->
  exists d2',
    select_loop d2 (filter (fun r => py_eq (conc_key r) c = true) rs) = Ok d2'
    /\ dict_lookup d1' c = dict_lookup d2' c.
Proof.
  induction rs as [| r rs IH]; simpl; intros d1 d2 d1' Hl H.
  - inv_ok. eauto.
  - inv_ok. rewrite filter_cons.
    destruct (decide (py_eq (conc_key r) c = true)) as [Hc | Hc].
    + destruct (select_step_local c d1 d2 r a Hl Hc Ha) as (d2' & Hs & Hl').
      simpl. rewrite Hs. simpl. eapply IH; eauto.
    + apply not_true_is_false in Hc.
      eapply IH; [| exact H]. rewrite (select_step_other c d1 r a Hc Ha). exact Hl.
Qed.

Lemma dict_values_at_conc c d :
  keys_distinct d -> keys_match d ->
  filter (fun r => py_eq (conc_key r) c = true) (dict_values d)
  = match dict_lookup d c with Some b => [b] | None => [] end.
Proof.
  unfold keys_distinct, keys_match, dict_values.
  induction 1 as [| [k0 r0] d H0 Hd IH]; simpl; intros Hm; [reflexivity |].
  apply Forall_cons_iff in Hm as [Hk Hm]. simpl in Hk.
  rewrite filter_cons, (IH Hm). rewrite <- (py_eq_congr _ _ c Hk).
  destruct (py_eq k0 c) eqn:E.
  - rewrite decide_True by reflexivity.
    rewrite dict_lookup_fresh; [reflexivity |].
    eapply Forall_impl; [exact H0 |]. intros [k1 r1] H1. simpl in *.
    rewrite py_eq_sym, <- (py_eq_congr _ _ _ E). exact H1.
  - rewrite decide_False by discriminate. reflexivity.
Qed.

(** X23: the selection at a concurrency depends on the records of that
    concurrency alone: when the loader returns on an array, it returns on
    the records of one concurrency taken alone, and selects for it the same
    record. *)
Theorem loader_b_local (all_data best all : list record) (c : value) :
  load_b200_trt_results all_data = Ok (best, all) ->
  load_b200_trt_results (filter (fun r => py_eq (conc_key r) c = true) all_data)
  = Ok (filter (fun r => py_eq (conc_key r) c = true) best,
        filter (fun r => py_eq (conc_key r) c = true) all).
Proof.
  intros H. unfold load_b200_trt_results in *. inv_ok. rename a into d.
  set (at_c := fun r : record => py_eq (conc_key r) c = true).
  set (kept := filter (fun r => is_b200_trt r = true) all_data) in *.
  assert (Ef : filter (fun r => is_b200_trt r = true) (filter at_c all_data)
               = filter at_c kept).
  { unfold kept. rewrite !list_filter_filter. apply list_filter_iff. intros r. tauto. }
  rewrite Ef.
  destruct (select_loop_local c kept [] [] d eq_refl Ha) as (d2 & H2 & Hl).
  unfold at_c at 1. rewrite H2. simpl.
  destruct (select_loop_invariant _ _ _ (FOP_nil _) (List.Forall_nil _) Ha) as [Hd Hm].
  destruct (select_loop_invariant _ _ _ (FOP_nil _) (List.Forall_nil _) H2) as [Hd2 Hm2].
  (* the second dictionary holds records of [c] only *)
  assert (Hall : Forall at_c (dict_values d2)).
  { apply Forall_forall. intros r Hr. apply list_elem_of_In in Hr.
    destruct (select_loop_values _ _ _ _ H2 Hr) as [[] | Hin].
    apply list_elem_of_In, list_elem_of_filter in Hin as [Hin _]. exact Hin. }
  assert (E2 : dict_values d2 = match dict_lookup d c with Some b => [b] | None => [] end).
  { rewrite <- (filter_all at_c _ Hall). unfold at_c.
    rewrite (dict_values_at_conc c d2 Hd2 Hm2), Hl. reflexivity. }
  assert (E1 : filter at_c best = match dict_lookup d c with Some b => [b] | None => [] end).
  { unfold at_c. rewrite (py_sorted_stable conc_key c _ _ Ha0).
    apply dict_values_at_conc; assumption. }
  rewrite E2, E1. destruct (dict_lookup d c); reflexivity.
Qed.

(** ** Instances *)

Lemma loader_b_hardware_filter_witness :
  sublist [b200 16 8 400] [untagged; b200 16 8 400].
Proof.
  apply (proj1 (loader_b_hardware_filter [untagged; b200 16 8 400]
                  [b200 16 8 400] [b200 16 8 400] eq_refl)).
Defined.

Lemma loader_b_best_is_max_witness :
  In (b200 16 4 700) [b200 16 2 500; b200 16 4 700; b200 32 2 300].
Proof.
  apply (loader_b_best_is_max [b200 16 2 500; b200 16 4 700; b200 32 2 300]
           [b200 16 4 700; b200 32 2 300]
           [b200 16 2 500; b200 16 4 700; b200 32 2 300] (VInt 16) (b200 16 4 700)).
  - reflexivity.
  - repeat (apply List.Forall_cons;
              [split; [eexists; reflexivity
                      | eexists; split; [reflexivity | eexists; reflexivity]] |]).
    apply List.Forall_nil.
  - intros x [<- | [<- | [<- | []]]] _; reflexivity.
  - simpl. auto.
  - reflexivity.
Defined.

Lemma loader_b_last_tp8_selected_witness : In (b200 16 8 400) [b200 16 8 400].
Proof.
  apply (loader_b_last_tp8_selected [b200 16 8 400; b200 16 2 900] [b200 16 8 400]
           [b200 16 8 400; b200 16 2 900] [] [b200 16 2 900] (b200 16 8 400)).
  - reflexivity.
  - reflexivity.
  - reflexivity.
  - intros r' [<- | []] _. reflexivity.
Defined.

Lemma loader_b_missing_tput_raises_witness :
  load_b200_trt_results [b200_no_tput 16 2; b200 16 4 700] = Err KeyError.
Proof.
  apply (loader_b_missing_tput_raises (b200_no_tput 16 2) (b200 16 4 700) []);
    reflexivity.
Defined.

Lemma loader_b_best_empty_iff_witness :
  ([b200 16 8 400] = [] <-> [b200 16 2 500; b200 16 8 400] = [])
  /\ (length [b200 16 8 400] <= length [b200 16 2 500; b200 16 8 400])%nat.
Proof.
  apply (loader_b_best_empty_iff [untagged; b200 16 2 500; b200 16 8 400]).
  reflexivity.
Defined.

Lemma loader_b_idempotent_witness :
  load_b200_trt_results [b200 16 8 400; b200 32 2 300]
  = Ok ([b200 16 8 400; b200 32 2 300], [b200 16 8 400; b200 32 2 300]).
Proof.
  apply (loader_b_idempotent [b200 32 2 300; b200 16 2 500; b200 16 8 400]
           [b200 16 8 400; b200 32 2 300]
           [b200 32 2 300; b200 16 2 500; b200 16 8 400]).
  reflexivity.
Defined.

Lemma loader_a_returns_iff_witness :
  exists out, load_baseten_results sample_files = Ok out.
Proof.
  apply (proj2 (proj1 (loader_a_returns_iff sample_files))).
  right. left. repeat constructor; eexists; reflexivity.
Defined.

Lemma loader_a_records_witness :
  exists stem result,
    In (stem, Some result) sample_files
    /\ resolve_concurrency stem result <> VNone
    /\ mk [("completed", VInt 60); ("concurrency", VInt 32)]%string !! "concurrency"%string
       = Some (resolve_concurrency stem result)
    /\ forall k, k <> "concurrency"%string ->
         mk [("completed", VInt 60); ("concurrency", VInt 32)]%string !! k = result !! k.
Proof.
  apply (loader_a_records sample_files
           [mk [("max_concurrency", VInt 8); ("concurrency", VInt 8)]%string;
            mk [("completed", VInt 60); ("concurrency", VInt 32)]%string]).
  - reflexivity.
  - simpl. auto.
Defined.

Lemma loaded_best_lookup_witness :
  first_b200_at [b200 16 8 400; b200 32 2 300] (VFloat 32) = Some (b200 32 2 300)
  /\ b200_tp_at_conc [b200 16 8 400; b200 32 2 300] (VFloat 32)
     = get (b200 32 2 300) "tp" (VInt 0).
Proof.
  apply (proj1 (loaded_best_lookup [b200 32 2 300; b200 16 2 500; b200 16 8 400]
                  [b200 16 8 400; b200 32 2 300]
                  [b200 32 2 300; b200 16 2 500; b200 16 8 400] (VFloat 32) eq_refl)).
  - simpl. auto.
  - reflexivity.
Defined.

Lemma baseten_series_subsequence_witness :
  sublist [VInt 16] [VInt 8; VInt 16; VInt 0].
Proof.
  apply (proj1 (baseten_series_subsequence
                  [baseten 8 5 100 1600; baseten 16 60 100 3200; baseten 0 60 100 3200]
                  [b200 16 8 400] [b200 16 8 400]
                  (ComparisonChart
                     [B200Point (VInt 16) (VInt 400) (VInt 1) (PerGPU (VInt 8))]
                     [BasetenPoint (VInt 16) (VFloat 400) (VFloat 2)])
                  eq_refl)).
Defined.


Lemma reliability_monotone_witness :
  is_unreliable (VInt 80) (VInt 100) = Ok false.
Proof.
  apply (reliability_monotone 60 80 100); try (simpl; lia). reflexivity.
Defined.

Lemma reliability_without_total_witness :
  exists b,
    is_unreliable (get (mk [("completed", VInt 20)]%string) "completed" (VInt 0))
      (total_requests_of (mk [("completed", VInt 20)]%string)
         (get (mk [("completed", VInt 20)]%string) "completed" (VInt 0))) = Ok b
    /\ (b = true <-> (inject_Z 20 < 10)%Q).
Proof.
  apply (reliability_without_total (mk [("completed", VInt 20)]%string) (inject_Z 20));
    reflexivity.
Defined.

Lemma comparison_same_basis_witness :
  exists r, In r [baseten 16 60 100 3200]
    /\ VInt 16 = get r "concurrency" (VInt 0)
    /\ py_truediv (get r "total_token_throughput" (VInt 0)) (VInt 8) = Ok (VFloat 400).
Proof.
  apply (comparison_same_basis [b200 16 2 500; b200 16 8 400] [b200 16 8 400]
           [b200 16 2 500; b200 16 8 400] [baseten 16 60 100 3200] []
           (ComparisonChart
              [B200Point (VInt 16) (VInt 400) (VInt 1) (PerGPU (VInt 8))]
              [BasetenPoint (VInt 16) (VFloat 400) (VFloat 2)])
           eq_refl eq_refl
           (BasetenPoint (VInt 16) (VFloat 400) (VFloat 2))
           (B200Point (VInt 16) (VInt 400) (VInt 1) (PerGPU (VInt 8)))).
  - simpl. auto.
  - simpl. auto.
  - reflexivity.
Defined.

Lemma charts_return_on_numbers_witness :
  exists c d,
    plot_comparison [baseten 16 60 100 3200] [b200 16 8 400] [b200 16 8 400] = Ok c
    /\ plot_comparison_with_all_b200_configs
         [baseten 16 60 100 3200] [b200 16 8 400] [b200 16 8 400] = Ok d
    /\ length (cc_b200 c) = length [b200 16 8 400]
    /\ length (dc_all d) = length [b200 16 8 400].
Proof.
  apply (charts_return_on_numbers
           [baseten 16 60 100 3200] [b200 16 8 400] [b200 16 8 400]).
  - apply List.Forall_cons; [| apply List.Forall_nil].
    split; [change (Z.abs 60 <= 2 ^ 53); lia |].
    split; [change (Z.abs 100 <= 2 ^ 53); lia |].
    split; [change (Z.abs 3200 <= 2 ^ 53); lia | change (Z.abs 2000 <= 2 ^ 53); lia].
  - apply List.Forall_cons; [| apply List.Forall_nil].
    split; [change (Z.abs 400 <= 2 ^ 53); lia | change (Z.abs 8 <= 2 ^ 53); lia].
Defined.

Lemma charts_raise_on_bad_completed_witness :
  (exists e,
     plot_comparison [mk [("concurrency", VInt 16); ("completed", VNone)]%string]
       [b200 16 8 400] [b200 16 8 400] = Err e)
  /\ (exists e,
        plot_comparison_with_all_b200_configs
          [mk [("concurrency", VInt 16); ("completed", VNone)]%string]
          [b200 16 8 400] [b200 16 8 400] = Err e).
Proof.
  apply (charts_raise_on_bad_completed _ _ _
           (mk [("concurrency", VInt 16); ("completed", VNone)]%string)).
  - simpl. auto.
  - reflexivity.
  - intros [q H]. discriminate H.
Defined.


Lemma main_exit_status_zero_only_if_witness :
  exit_status (main unreliable_world) = 0 \/ exit_status (main unreliable_world) = 1.
Proof.
  apply (proj1 (main_exit_status_zero_only_if unreliable_world
                  ltac:(discriminate) ltac:(discriminate))).
Defined.

Lemma loader_b_local_witness :
  load_b200_trt_results
    (filter (fun r => py_eq (conc_key r) (VInt 16) = true)
            [b200 32 2 300; b200 16 2 500; b200 16 8 400])
  = Ok (filter (fun r => py_eq (conc_key r) (VInt 16) = true)
               [b200 16 8 400; b200 32 2 300],
        filter (fun r => py_eq (conc_key r) (VInt 16) = true)
               [b200 32 2 300; b200 16 2 500; b200 16 8 400]).
Proof.
  apply (loader_b_local [b200 32 2 300; b200 16 2 500; b200 16 8 400]).
  reflexivity.
Defined.

(** * Properties of the loaders on special floats *)

Module WideFacts.
Import Wide.

(** ** Comparisons *)

Lemma ext_eqb_sym a b : ext_eqb a b = ext_eqb b a.
Proof.
  destruct a, b; simpl; auto.
  apply eq_true_iff_eq. rewrite !Qeq_bool_iff. split; intros H; symmetry; exact H.
Qed.

Lemma ext_eqb_trans a b c :
  ext_eqb a b = true -> ext_eqb b c = true -> ext_eqb a c = true.
Proof.
  destruct a, b, c; simpl; try discriminate; auto.
  rewrite !Qeq_bool_iff. intros H1 H2. rewrite H1. exact H2.
Qed.

Lemma ext_ltb_asym a b : ext_ltb a b = true -> ext_ltb b a = false.
Proof.
  destruct a, b; simpl; try discriminate; auto. intros H.
  apply Qlt_bool_false_iff. apply Qlt_le_weak. apply Qlt_bool_iff. exact H.
Qed.

Lemma ext_ltb_trans a b c :
  ext_ltb a b = true -> ext_ltb b c = true -> ext_ltb a c = true.
Proof.
  destruct a, b, c; simpl; try discriminate; auto. intros H1 H2.
  apply Qlt_bool_iff. apply Qlt_bool_iff in H1, H2. eapply Qlt_trans; eauto.
Qed.

Lemma ext_ltb_total a b :
  a <> ENaN -> b <> ENaN ->
  ext_ltb b a = false -> ext_eqb a b = false -> ext_ltb a b = true.
Proof.
  destruct a, b; simpl; try discriminate; try congruence; auto. intros _ _ H1 H2.
  apply Qlt_bool_iff. apply Qlt_bool_false_iff in H1.
  apply Qle_lt_or_eq in H1. destruct H1 as [H1 | H1]; auto.
  apply Qeq_bool_iff in H1. congruence.
Qed.

Lemma ext_le_trans a b c :
  b <> ENaN ->
  ext_ltb b a = false -> ext_ltb c b = false -> ext_ltb c a = false.
Proof.
  destruct a, b, c; simpl; try discriminate; try congruence; auto. intros _ H1 H2.
  apply Qlt_bool_false_iff. apply Qlt_bool_false_iff in H1, H2.
  eapply Qle_trans; eauto.
Qed.

Lemma ext_ltb_not_eq a b : ext_ltb a b = true -> ext_eqb a b = false.
Proof.
  destruct a, b; simpl; try discriminate; auto. intros H.
  apply Qlt_bool_iff in H. apply not_true_iff_false. rewrite Qeq_bool_iff.
  intros E. rewrite E in H. exact (Qlt_irrefl _ H).
Qed.

Lemma ext_eqb_ltb_l a b c : ext_eqb a b = true -> ext_ltb a c = ext_ltb b c.
Proof.
  destruct a, b, c; simpl; try discriminate; auto. intros H.
  apply Qeq_bool_iff in H. apply eq_true_iff_eq. rewrite !Qlt_bool_iff, H. reflexivity.
Qed.

Lemma as_ext_nan v : as_ext v = Some ENaN <-> is_nan v = true.
Proof.
  destruct v as [w | [|] |]; simpl; try (split; congruence).
  destruct (as_num w); split; congruence.
Qed.

Lemma as_ext_not_nan v a : is_nan v = false -> as_ext v = Some a -> a <> ENaN.
Proof. intros Hn Ha ->. apply as_ext_nan in Ha. congruence. Qed.

(** The class of a value: a number or not; what is not a number keeps its
    comparisons of [Py]. *)
Lemma py_eq_other_w v w :
  as_ext v = None -> as_ext w = None ->
  exists v' w', v = Val v' /\ w = Val w'
    /\ py_eq v w = Py.py_eq v' w' /\ py_lt v w = Py.py_lt v' w'
    /\ py_lt w v = Py.py_lt w' v'.
Proof.
  destruct v as [v' | [|] |]; try discriminate.
  destruct w as [w' | [|] |]; try discriminate.
  intros Hv Hw. exists v', w'. unfold py_eq, py_lt, Py.py_eq, Py.py_lt.
  rewrite Hv, Hw. simpl in Hv, Hw.
  destruct (as_num v'); [discriminate |]. destruct (as_num w'); [discriminate |].
  repeat split; reflexivity.
Qed.

Lemma py_eq_sym_w v w : py_eq v w = py_eq w v.
Proof.
  unfold py_eq. destruct (as_ext v) eqn:Ev, (as_ext w) eqn:Ew; auto.
  - apply ext_eqb_sym.
  - destruct v as [[] | |], w as [[] | |]; auto. apply String.eqb_sym.
Qed.

Lemma py_eq_trans_w u v w :
  py_eq u v = true -> py_eq v w = true -> py_eq u w = true.
Proof.
  unfold py_eq.
  destruct (as_ext u) eqn:Eu, (as_ext v) eqn:Ev, (as_ext w) eqn:Ew; try discriminate.
  - apply ext_eqb_trans.
  - destruct u as [[] | |], v as [[] | |], w as [[] | |]; try discriminate; auto.
    rewrite !String.eqb_eq. congruence.
Qed.

Lemma py_eq_refl_w v : is_nan v = false -> py_eq v v = true.
Proof.
  destruct v as [w | [|] |]; try discriminate; auto. intros _.
  change (py_eq (Val w) (Val w)) with
    (match as_ext (Val w), as_ext (Val w) with
     | Some a, Some b => ext_eqb a b
     | None, None => match w, w with
                     | VNone, VNone => true
                     | VStr s, VStr t => String.eqb s t
                     | _, _ => false
                     end
     | _, _ => false
     end).
  simpl. destruct w; simpl; try (apply Qeq_bool_iff; reflexivity); auto.
  apply String.eqb_refl.
Qed.

Lemma py_eq_not_nan_w v w : py_eq v w = true -> is_nan v = false /\ is_nan w = false.
Proof.
  destruct v as [v' | [|] |], w as [w' | [|] |]; simpl; auto;
    unfold py_eq; simpl; try destruct (as_num _); discriminate.
Qed.

Lemma py_eq_congr_w u v w : py_eq u v = true -> py_eq u w = py_eq v w.
Proof.
  intros H. destruct (py_eq v w) eqn:E.
  - eapply py_eq_trans_w; eauto.
  - destruct (py_eq u w) eqn:E'; auto.
    rewrite <- E. symmetry. eapply py_eq_trans_w; [| exact E'].
    rewrite py_eq_sym_w. exact H.
Qed.

Lemma py_gt_lt_w v w : py_gt v w = py_lt w v.
Proof.
  unfold py_gt, py_lt. destruct (as_ext v), (as_ext w); auto.
  destruct v as [[] | |], w as [[] | |]; auto.
Qed.

Lemma py_lt_asym_w v w : py_lt v w = Ok true -> py_lt w v = Ok false.
Proof.
  intros H.
  destruct (as_ext v) as [a |] eqn:Ev, (as_ext w) as [b |] eqn:Ew;
    try (unfold py_lt in H; rewrite ?Ev, ?Ew in H; congruence).
  - unfold py_lt in *. rewrite Ev, Ew in *. injection H as H. f_equal.
    apply ext_ltb_asym. exact H.
  - destruct (py_eq_other_w _ _ Ev Ew) as (v' & w' & -> & -> & _ & Hl & ->).
    rewrite Hl in H. apply py_lt_asym. exact H.
Qed.

Lemma py_lt_trans_w u v w :
  py_lt u v = Ok true -> py_lt v w = Ok true -> py_lt u w = Ok true.
Proof.
  intros H1 H2.
  destruct (as_ext u) as [a |] eqn:Eu, (as_ext v) as [b |] eqn:Ev,
    (as_ext w) as [c |] eqn:Ew;
    try (unfold py_lt in H1, H2; rewrite ?Eu, ?Ev, ?Ew in H1; rewrite ?Eu, ?Ev, ?Ew in H2;
         congruence).
  - unfold py_lt in *. rewrite Eu, Ev, Ew in *.
    injection H1 as H1. injection H2 as H2. f_equal.
    eapply ext_ltb_trans; eauto.
  - destruct (py_eq_other_w _ _ Eu Ev) as (u' & v' & -> & -> & _ & Huv & _).
    destruct (py_eq_other_w _ _ Ev Ew) as (v'' & w' & [= <-] & -> & _ & Hvw & _).
    destruct (py_eq_other_w _ _ Eu Ew) as (u'' & w'' & [= <-] & [= <-] & _ & -> & _).
    rewrite Huv in H1. rewrite Hvw in H2. eapply py_lt_trans; eauto.
Qed.

(** Apart from NaN, two keys of one class are equal or one is below the
    other. *)
Lemma py_lt_total_w v w :
  is_nan v = false -> is_nan w = false ->
  py_lt w v = Ok false -> py_eq v w = false -> py_lt v w = Ok true.
Proof.
  intros Hv Hw H1 H2.
  destruct (as_ext v) as [a |] eqn:Ev, (as_ext w) as [b |] eqn:Ew;
    try (unfold py_lt in H1; rewrite ?Ev, ?Ew in H1; congruence).
  - unfold py_lt, py_eq in *. rewrite Ev, Ew in *. injection H1 as H1. f_equal.
    apply ext_ltb_total; eauto using as_ext_not_nan.
  - destruct (py_eq_other_w _ _ Ev Ew) as (v' & w' & -> & -> & He & -> & Hl).
    rewrite He in H2. rewrite Hl in H1. apply py_lt_total; assumption.
Qed.

Lemma py_le_trans_w u v w :
  is_nan v = false ->
  py_lt v u = Ok false -> py_lt w v = Ok false -> py_lt w u = Ok false.
Proof.
  intros Hv H1 H2.
  destruct (as_ext u) as [a |] eqn:Eu, (as_ext v) as [b |] eqn:Ev,
    (as_ext w) as [c |] eqn:Ew;
    try (unfold py_lt in H1, H2; rewrite ?Eu, ?Ev, ?Ew in H1; rewrite ?Eu, ?Ev, ?Ew in H2;
         congruence).
  - unfold py_lt in *. rewrite Eu, Ev, Ew in *.
    injection H1 as H1. injection H2 as H2. f_equal.
    eapply ext_le_trans; eauto using as_ext_not_nan.
  - destruct (py_eq_other_w _ _ Eu Ev) as (u' & v' & -> & -> & _ & _ & Hvu).
    destruct (py_eq_other_w _ _ Ev Ew) as (v'' & w' & [= <-] & -> & _ & _ & Hwv).
    destruct (py_eq_other_w _ _ Eu Ew) as (u'' & w'' & [= <-] & [= <-] & _ & _ & ->).
    rewrite Hvu in H1. rewrite Hwv in H2. eapply py_le_trans; eauto.
Qed.

Lemma py_lt_not_eq_w v w : py_lt v w = Ok true -> py_eq v w = false.
Proof.
  intros H.
  destruct (as_ext v) as [a |] eqn:Ev, (as_ext w) as [b |] eqn:Ew;
    try (unfold py_lt in H; rewrite ?Ev, ?Ew in H; congruence).
  - unfold py_lt, py_eq in *. rewrite Ev, Ew in *. injection H as H.
    apply ext_ltb_not_eq. exact H.
  - destruct (py_eq_other_w _ _ Ev Ew) as (v' & w' & -> & -> & -> & Hl & _).
    rewrite Hl in H. apply py_lt_not_eq. exact H.
Qed.

Lemma py_lt_number v w : number v -> number w -> exists r, py_lt v w = Ok r.
Proof. intros [a Ha] [b Hb]. unfold py_lt. rewrite Ha, Hb. eauto. Qed.

Lemma py_gt_number v w : number v -> number w -> exists r, py_gt v w = Ok r.
Proof. rewrite py_gt_lt_w. intros; apply py_lt_number; assumption. Qed.

(** ** Dictionary keys *)

Lemma same_key_refl k : same_key k k = true.
Proof.
  unfold same_key. destruct (is_nan k) eqn:E.
  - apply orb_true_r.
  - rewrite py_eq_refl_w; auto.
Qed.

Lemma same_key_sym k k' : same_key k k' = same_key k' k.
Proof. unfold same_key. rewrite py_eq_sym_w, andb_comm. reflexivity. Qed.

Lemma same_key_trans a b c :
  same_key a b = true -> same_key b c = true -> same_key a c = true.
Proof.
  unfold same_key. rewrite !orb_true_iff, !andb_true_iff.
  intros [H1 | [H1 H1']] [H2 | [H2 H2']].
  - left. eapply py_eq_trans_w; eauto.
  - apply py_eq_not_nan_w in H1 as [_ H1]. congruence.
  - apply py_eq_not_nan_w in H2 as [H2 _]. congruence.
  - auto.
Qed.

Lemma same_key_congr a b c : same_key a b = true -> same_key a c = same_key b c.
Proof.
  intros H. destruct (same_key b c) eqn:E.
  - eapply same_key_trans; eauto.
  - destruct (same_key a c) eqn:E'; auto.
    rewrite <- E. symmetry. eapply same_key_trans; [| exact E'].
    rewrite same_key_sym. exact H.
Qed.

(** Without NaN, the same key means equal under [==]. *)
Lemma same_key_eq k k' : is_nan k = false -> same_key k k' = py_eq k k'.
Proof. intros H. unfold same_key. rewrite H. apply orb_false_r. Qed.

Lemma py_eq_same_key k k' : py_eq k k' = true -> same_key k k' = true.
Proof. intros H. unfold same_key. rewrite H. reflexivity. Qed.

Lemma dict_lookup_set_w (d : dict) k r k' :
  dict_lookup (dict_set d k r) k' =
  if same_key k k' then Some r else dict_lookup d k'.
Proof.
  induction d as [| [k0 r0] d IH]; simpl.
  - reflexivity.
  - destruct (same_key k0 k) eqn:E; simpl.
    + rewrite (same_key_congr _ _ k' E). destruct (same_key k k'); reflexivity.
    + destruct (same_key k0 k') eqn:E'; auto.
      destruct (same_key k k') eqn:E''; auto.
      rewrite same_key_sym in E''. rewrite (same_key_trans _ _ _ E' E'') in E. discriminate.
Qed.

Lemma dict_lookup_set_eq_w (d : dict) k r : dict_lookup (dict_set d k r) k = Some r.
Proof. rewrite dict_lookup_set_w, same_key_refl. reflexivity. Qed.

Lemma select_step_cases_w d r d' :
  select_step d r = Ok d' ->
  d' = d \/ d' = dict_set d (conc_key r) r.
Proof.
  unfold select_step, conc_key. intros H.
  destruct (dict_lookup d _) as [cur|]; [| inv_ok; auto].
  destruct (py_eq (get r "tp" _) _); [inv_ok; auto |].
  destruct (negb _); [| inv_ok; auto].
  inv_ok. destruct a0; inv_ok; auto.
Qed.

Lemma dict_set_Forall_key_w (P : value -> Prop) d k r :
  Forall (fun e => P (fst e)) d -> P k ->
  Forall (fun e => P (fst e)) (dict_set d k r).
Proof.
  intros Hd Hk. induction Hd as [| [k0 r0] d H0 Hd IH]; simpl.
  - repeat constructor. exact Hk.
  - destruct (same_key k0 k); constructor; auto.
Qed.

Lemma dict_set_keys_distinct_w d k r :
  keys_distinct d -> keys_distinct (dict_set d k r).
Proof.
  unfold keys_distinct.
  induction 1 as [| [k0 r0] d H0 Hd IH]; simpl.
  - repeat constructor.
  - destruct (same_key k0 k) eqn:E; constructor; auto.
    apply (dict_set_Forall_key_w (fun k' => same_key k0 k' = false)); auto.
Qed.

Lemma dict_set_keys_match_w d r :
  keys_match d -> keys_match (dict_set d (conc_key r) r).
Proof.
  unfold keys_match.
  induction 1 as [| [k0 r0] d H0 Hd IH]; simpl.
  - repeat constructor. apply same_key_refl.
  - destruct (same_key k0 (conc_key r)) eqn:E; constructor; auto.
Qed.

Lemma select_loop_invariant_w rs : forall d d',
  keys_distinct d -> keys_match d ->
  select_loop d rs = Ok d' ->
  keys_distinct d' /\ keys_match d'.
Proof.
  induction rs as [| r rs IH]; simpl; intros d d' H1 H2 H.
  - inv_ok. auto.
  - inv_ok. apply select_step_cases_w in Ha as [-> | ->].
    + eapply IH; eauto.
    + eapply IH; [| | exact H].
      * apply dict_set_keys_distinct_w; auto.
      * apply dict_set_keys_match_w; auto.
Qed.

(** No two records of the dictionary have the same concurrency. *)
Lemma dict_values_distinct_w d :
  keys_distinct d -> keys_match d ->
  ForallOrdPairs (fun a b => same_key (conc_key a) (conc_key b) = false) (dict_values d).
Proof.
  unfold keys_distinct, keys_match, dict_values.
  induction 1 as [| [k0 r0] d H0 Hd IH]; simpl; intros Hm.
  - constructor.
  - apply Forall_cons_iff in Hm as [Hk Hm]. simpl in Hk.
    constructor; auto.
    apply Forall_map. rewrite Forall_forall in H0, Hm |- *.
    intros [k1 r1] Hin. specialize (H0 _ Hin). specialize (Hm _ Hin).
    simpl in *.
    rewrite <- (same_key_congr _ _ _ Hk), same_key_sym, <- (same_key_congr _ _ _ Hm),
      same_key_sym.
    exact H0.
Qed.

Lemma dict_set_values_Forall_w (P : record -> Prop) d k r :
  Forall P (dict_values d) -> P r -> Forall P (dict_values (dict_set d k r)).
Proof.
  unfold dict_values. induction d as [| [k0 r0] d IH]; simpl; intros Hd Hr.
  - repeat constructor. exact Hr.
  - apply Forall_cons_iff in Hd as [H0 Hd].
    destruct (same_key k0 k); simpl; constructor; auto.
Qed.

Lemma dict_lookup_values_w d k r :
  dict_lookup d k = Some r -> In r (dict_values d).
Proof.
  induction d as [| [k0 r0] d IH]; simpl; [discriminate |].
  destruct (same_key k0 k); [intros [= ->]; auto | auto].
Qed.

Lemma select_step_total_w d r :
  Forall well_formed_b200 (dict_values d) -> well_formed_b200 r ->
  exists d', select_step d r = Ok d'.
Proof.
  intros Hd [_ (v & Hv & Hn)]. unfold select_step.
  destruct (dict_lookup d _) as [cur|] eqn:El; eauto.
  destruct (py_eq (get r "tp" _) _); eauto.
  destruct (negb _); eauto.
  apply dict_lookup_values_w in El. rewrite Forall_forall in Hd.
  apply list_elem_of_In, Hd in El. destruct El as [_ (v' & Hv' & Hn')].
  unfold getitem, get. rewrite Hv', Hv. simpl.
  destruct (py_gt_number _ _ Hn Hn') as [[|] ->]; simpl; eauto.
Qed.

Lemma select_loop_total_w rs : forall d,
  Forall well_formed_b200 (dict_values d) -> Forall well_formed_b200 rs ->
  exists d', select_loop d rs = Ok d' /\ Forall well_formed_b200 (dict_values d').
Proof.
  induction rs as [| r rs IH]; simpl; intros d Hd Hrs; eauto.
  apply Forall_cons_iff in Hrs as [Hr Hrs].
  destruct (select_step_total_w d r Hd Hr) as [d1 H1]. rewrite H1. simpl.
  apply IH; auto.
  apply select_step_cases_w in H1 as [-> | ->]; auto.
  apply dict_set_values_Forall_w; auto.
Qed.

Lemma select_step_lookup_mono_w d r d' k :
  select_step d r = Ok d' -> is_Some (dict_lookup d k) -> is_Some (dict_lookup d' k).
Proof.
  intros H Hk. apply select_step_cases_w in H as [-> | ->]; auto.
  rewrite dict_lookup_set_w. destruct (same_key _ _); eauto.
Qed.

Lemma select_step_lookup_self_w d r d' :
  select_step d r = Ok d' -> is_Some (dict_lookup d' (conc_key r)).
Proof.
  intros H. destruct (dict_lookup d (conc_key r)) eqn:E.
  - eapply select_step_lookup_mono_w; [exact H | rewrite E; eauto].
  - unfold select_step in H. fold (conc_key r) in H. rewrite E in H.
    inv_ok. rewrite dict_lookup_set_eq_w. eauto.
Qed.

Lemma select_loop_lookup_w rs : forall d d',
  select_loop d rs = Ok d' ->
  (forall k, is_Some (dict_lookup d k) -> is_Some (dict_lookup d' k))
  /\ (forall r, In r rs -> is_Some (dict_lookup d' (conc_key r))).
Proof.
  induction rs as [| r rs IH]; simpl; intros d d' H.
  - inv_ok. split; [auto | contradiction].
  - inv_ok. destruct (IH _ _ H) as [IH1 IH2]. split.
    + intros k Hk. apply IH1. eapply select_step_lookup_mono_w; eauto.
    + intros r' [<- | Hin]; auto.
      apply IH1. eapply select_step_lookup_self_w; eauto.
Qed.

Lemma dict_set_values_In_w d k r x :
  In x (dict_values (dict_set d k r)) -> x = r \/ In x (dict_values d).
Proof.
  unfold dict_values. induction d as [| [k0 r0] d IH]; simpl.
  - intros [<- | []]; auto.
  - destruct (same_key k0 k); simpl; intros [<- | Hin]; auto.
    destruct (IH Hin); auto.
Qed.

Lemma select_loop_values_w rs : forall d d' x,
  select_loop d rs = Ok d' -> In x (dict_values d') ->
  In x (dict_values d) \/ In x rs.
Proof.
  induction rs as [| r rs IH]; simpl; intros d d' x H Hx.
  - inv_ok. auto.
  - inv_ok. destruct (IH _ _ _ H Hx) as [Hin | Hin]; auto.
    apply select_step_cases_w in Ha as [-> | ->]; auto.
    apply dict_set_values_In_w in Hin as [-> | Hin]; auto.
Qed.

Lemma dict_lookup_key_w d k r :
  keys_match d -> dict_lookup d k = Some r -> same_key (conc_key r) k = true.
Proof.
  unfold keys_match. induction 1 as [| [k0 r0] d H0 Hd IH]; simpl; [discriminate |].
  destruct (same_key k0 k) eqn:E; auto.
  intros [= ->]. simpl in H0. rewrite same_key_sym in H0.
  eapply same_key_trans; eauto.
Qed.

(** ** Sorting *)

(** Pairs of different keys stay so in any rearrangement. *)
Lemma ordpairs_perm {A : Type} (R : A -> A -> Prop) (l l' : list A) :
  (forall a b, R a b -> R b a) ->
  Permutation l l' -> ForallOrdPairs R l -> ForallOrdPairs R l'.
Proof.
  intros Hsym Hp. induction Hp as [| x l l' Hp IH | x y l | l l' l'' _ IH1 _ IH2];
    intros H; auto.
  - inversion H; subst. constructor; [| auto].
    eapply Permutation_Forall; eauto.
  - inversion H as [| ? ? Hy H']; subst. inversion H' as [| ? ? Hx H'']; subst.
    apply Forall_cons_iff in Hy as [Hyx Hy].
    constructor; [constructor; auto |]. constructor; auto.
Qed.

Lemma ordpairs_lookup {A : Type} (R : A -> A -> Prop) (l : list A) : forall i j a b,
  ForallOrdPairs R l -> l !! i = Some a -> l !! j = Some b -> (i < j)%nat -> R a b.
Proof.
  induction l as [| x l IH]; intros i j a b H Hi Hj Hij; [destruct i; discriminate |].
  inversion H as [| ? ? Hx H']; subst.
  destruct j as [| j]; [lia |]. simpl in Hj.
  destruct i as [| i]; simpl in Hi.
  - injection Hi as ->. rewrite Forall_forall in Hx. apply Hx.
    eapply list_elem_of_lookup_2; eauto.
  - eapply IH; eauto. lia.
Qed.

Section SortedWide.
Context {A : Type} (key : A -> value).

Lemma py_sorted_perm_w l s : py_sorted key l = Ok s -> Permutation l s.
Proof. apply sort_by_perm. Qed.

(** Neighbours are in order whatever the keys are. *)
Lemma py_sorted_neighbours l s :
  py_sorted key l = Ok s -> Sorted (key_le key) s.
Proof.
  intros H. apply (sort_by_sorted (fun a b => py_lt (key a) (key b))) in H; [exact H |].
  intros a b. apply py_lt_asym_w.
Qed.

(** Without NaN the whole list is in order. *)
Lemma py_sorted_sorted_le_w l s :
  Forall (fun a => is_nan (key a) = false) l ->
  py_sorted key l = Ok s -> StronglySorted (key_le key) s.
Proof.
  intros Hn H. pose proof (py_sorted_neighbours _ _ H) as Hs.
  assert (Hn' : Forall (fun a => is_nan (key a) = false) s).
  { eapply Permutation_Forall; [apply py_sorted_perm_w; exact H | exact Hn]. }
  clear H Hn. induction Hs as [| x s Hs IH Hx]; [constructor |].
  apply Forall_cons_iff in Hn' as [Hnx Hn']. specialize (IH Hn').
  constructor; [exact IH |].
  destruct Hx as [| y s Hxy]; [constructor |].
  apply StronglySorted_inv in IH as [_ Hy].
  apply Forall_cons_iff in Hn' as [Hny _].
  constructor; [exact Hxy |].
  eapply Forall_impl; [exact Hy |]. intros z Hz. unfold key_le in *.
  eapply py_le_trans_w; eauto.
Qed.

(** Without NaN and with pairwise different keys it is strictly ascending. *)
Lemma py_sorted_sorted_w l s :
  Forall (fun a => is_nan (key a) = false) l ->
  ForallOrdPairs (fun a b => same_key (key a) (key b) = false) l ->
  py_sorted key l = Ok s -> StronglySorted (key_lt key) s.
Proof.
  intros Hn Hd H.
  pose proof (py_sorted_sorted_le_w _ _ Hn H) as Hs.
  pose proof (py_sorted_perm_w _ _ H) as Hp.
  assert (Hn' : Forall (fun a => is_nan (key a) = false) s)
    by (eapply Permutation_Forall; eauto).
  assert (Hd' : ForallOrdPairs (fun a b => same_key (key a) (key b) = false) s).
  { eapply ordpairs_perm; [| exact Hp | exact Hd].
    intros a b Hab. rewrite same_key_sym. exact Hab. }
  clear H Hn Hd Hp. induction Hs as [| x s Hs IH Hx]; [constructor |].
  apply Forall_cons_iff in Hn' as [Hnx Hn'].
  inversion Hd' as [| ? ? Hdx Hd'']; subst.
  constructor; [apply IH; assumption |].
  rewrite Forall_forall in Hx, Hn', Hdx |- *. intros y Hy.
  unfold key_lt. apply py_lt_total_w; auto.
  - apply Hx. exact Hy.
  - rewrite <- (same_key_eq _ _ Hnx). apply Hdx. exact Hy.
Qed.

Lemma sort_insert_total_w x l :
  number (key x) -> Forall (fun y => number (key y)) l ->
  exists l', sort_insert_by (fun a b => py_lt (key a) (key b)) x l = Ok l'.
Proof.
  intros Hx. induction 1 as [| y l Hy _ [l' IH]]; simpl; eauto.
  destruct (py_lt_number _ _ Hy Hx) as [[|] ->]; simpl; eauto.
  rewrite IH. simpl. eauto.
Qed.

Lemma py_sorted_total_w l :
  Forall (fun y => number (key y)) l -> exists s, py_sorted key l = Ok s.
Proof.
  unfold py_sorted. induction 1 as [| x l Hx Hl [s IH]]; simpl; eauto.
  rewrite IH. simpl. apply sort_insert_total_w; auto.
  eapply Permutation_Forall; [eapply sort_by_perm; exact IH | exact Hl].
Qed.
End SortedWide.

End WideFacts.

(** ** Claims about Loader B on all inputs *)

(** C8 (as amended): whenever Loader B returns, no two records of
    [bestPerConcurrency] have the same concurrency, whatever the input
    array is; its records are records of the filtered array, one for each
    concurrency that occurs there.  When no filtered record has a
    concurrency of NaN, [bestPerConcurrency] is strictly ascending in
    concurrency.  The loader does return when the filtered records have a
    number as concurrency and a number as [tput_per_gpu]. *)
Theorem C8_best_unique_sorted (all_data : list Wide.record) :
  (forall best all,
     Wide.load_b200_trt_results all_data = Ok (best, all) ->
     (forall i j a b, best !! i = Some a -> best !! j = Some b ->
        Wide.same_key (Wide.conc_key a) (Wide.conc_key b) = true -> i = j)
     /\ (Forall (fun r => Wide.is_nan (Wide.conc_key r) = false) all ->
         StronglySorted (Wide.key_lt Wide.conc_key) best)
     /\ all = filter (fun r => Wide.is_b200_trt r = true) all_data
     /\ (forall b, In b best -> In b all)
     /\ (forall r, In r all ->
           exists b, In b best
             /\ Wide.same_key (Wide.conc_key b) (Wide.conc_key r) = true))
  /\ (Forall Wide.well_formed_b200
        (filter (fun r => Wide.is_b200_trt r = true) all_data) ->
      exists best,
        Wide.load_b200_trt_results all_data
        = Ok (best, filter (fun r => Wide.is_b200_trt r = true) all_data)).
Proof.
  unfold Wide.load_b200_trt_results. split.
  - intros best all H. inv_ok. rename a into d.
    destruct (WideFacts.select_loop_invariant_w _ _ _ (FOP_nil _) (List.Forall_nil _) Ha)
      as [Hd Hm].
    pose proof (WideFacts.dict_values_distinct_w _ Hd Hm) as Hv.
    pose proof (WideFacts.py_sorted_perm_w _ _ _ Ha0) as Hp.
    assert (Hin : forall b, In b best ->
              In b (filter (fun r => Wide.is_b200_trt r = true) all_data)).
    { intros b Hb. apply Permutation_sym in Hp. apply (Permutation_in _ Hp) in Hb.
      destruct (WideFacts.select_loop_values_w _ _ _ _ Ha Hb) as [[] | Hin]. exact Hin. }
    split; [| split; [| split; [reflexivity | split; [exact Hin |]]]].
    + assert (Hb : ForallOrdPairs
                (fun a b => Wide.same_key (Wide.conc_key a) (Wide.conc_key b) = false) best).
      { eapply WideFacts.ordpairs_perm; [| exact Hp | exact Hv].
        intros a b Hab. rewrite WideFacts.same_key_sym. exact Hab. }
      intros i j x y Hi Hj He.
      destruct (lt_eq_lt_dec i j) as [[H | H] | H]; auto; exfalso.
      * pose proof (WideFacts.ordpairs_lookup _ _ _ _ _ _ Hb Hi Hj H) as Hne.
        simpl in Hne. congruence.
      * pose proof (WideFacts.ordpairs_lookup _ _ _ _ _ _ Hb Hj Hi H) as Hne.
        simpl in Hne. rewrite WideFacts.same_key_sym in Hne. congruence.
    + intros Hn. eapply WideFacts.py_sorted_sorted_w; [| exact Hv | exact Ha0].
      apply Forall_forall. intros r Hr. rewrite Forall_forall in Hn. apply Hn.
      apply list_elem_of_In in Hr. apply list_elem_of_In.
      destruct (WideFacts.select_loop_values_w _ _ _ _ Ha Hr) as [[] | Hr']. exact Hr'.
    + intros r Hr. destruct (WideFacts.select_loop_lookup_w _ _ _ Ha) as [_ Hl].
      destruct (Hl r Hr) as [b Hb]. exists b. split.
      * eapply Permutation_in; [exact Hp |]. eapply WideFacts.dict_lookup_values_w; eauto.
      * eapply WideFacts.dict_lookup_key_w; eauto.
  - intros Hwf.
    destruct (WideFacts.select_loop_total_w _ [] (List.Forall_nil _) Hwf) as (d & Hd & Hv).
    rewrite Hd. simpl.
    destruct (WideFacts.py_sorted_total_w Wide.conc_key (Wide.dict_values d)) as [s Hs].
    + eapply Forall_impl; [exact Hv |]. intros r [Hr _]. exact Hr.
    + rewrite Hs. simpl. eauto.
Qed.

Lemma C8_best_unique_sorted_witness :
  StronglySorted (Wide.key_lt Wide.conc_key)
    [Wide.b200_at (Wide.Inf true); Wide.b200_at (Wide.Val (VFloat 16));
     Wide.b200_at (Wide.Val (VFloat (65 # 2))); Wide.b200_at (Wide.Inf false)]
  /\ exists best,
       Wide.load_b200_trt_results
         [Wide.b200_at (Wide.Val (VFloat (65 # 2))); Wide.b200_at (Wide.Inf false);
          Wide.b200_at (Wide.Val (VInt 16)); Wide.b200_at (Wide.Inf true);
          Wide.b200_at (Wide.Val (VFloat 16))]
       = Ok (best,
             filter (fun r => Wide.is_b200_trt r = true)
               [Wide.b200_at (Wide.Val (VFloat (65 # 2))); Wide.b200_at (Wide.Inf false);
                Wide.b200_at (Wide.Val (VInt 16)); Wide.b200_at (Wide.Inf true);
                Wide.b200_at (Wide.Val (VFloat 16))]).
Proof.
  pose (data := [Wide.b200_at (Wide.Val (VFloat (65 # 2))); Wide.b200_at (Wide.Inf false);
                 Wide.b200_at (Wide.Val (VInt 16)); Wide.b200_at (Wide.Inf true);
                 Wide.b200_at (Wide.Val (VFloat 16))]).
  split.
  - refine (proj1 (proj2 (proj1 (C8_best_unique_sorted data) _ data _)) _).
    + reflexivity.
    + repeat constructor.
  - apply (proj2 (C8_best_unique_sorted data)).
    change (filter (fun r => Wide.is_b200_trt r = true) data) with data.
    repeat constructor; try (eexists; reflexivity).
    all: eexists; split; [reflexivity | eexists; reflexivity].
Defined.

(** C8 as stated fails on a concurrency of NaN, which [json.load] accepts:
    NaN is neither below nor above any number, the records at concurrencies
    2, NaN, 1 are returned in this order, and the record at 2 comes before
    the record at 1. *)
Lemma C8_counterexample :
  Wide.load_b200_trt_results
    [Wide.b200_at (Wide.Val (VInt 2)); Wide.b200_at Wide.NaN;
     Wide.b200_at (Wide.Val (VInt 1))]
  = Ok ([Wide.b200_at (Wide.Val (VInt 2)); Wide.b200_at Wide.NaN;
         Wide.b200_at (Wide.Val (VInt 1))],
        [Wide.b200_at (Wide.Val (VInt 2)); Wide.b200_at Wide.NaN;
         Wide.b200_at (Wide.Val (VInt 1))])
  /\ Wide.py_lt (Wide.conc_key (Wide.b200_at (Wide.Val (VInt 1))))
       (Wide.conc_key (Wide.b200_at (Wide.Val (VInt 2)))) = Ok true
  /\ ~ StronglySorted (Wide.key_le Wide.conc_key)
         [Wide.b200_at (Wide.Val (VInt 2)); Wide.b200_at Wide.NaN;
          Wide.b200_at (Wide.Val (VInt 1))].
Proof.
  split; [reflexivity |]. split; [reflexivity |].
  intros H. apply StronglySorted_inv in H as [_ H].
  apply Forall_cons_iff in H as [_ H]. apply Forall_cons_iff in H as [H _].
  discriminate H.
Qed.

(** * Properties of the concurrency taken from a file name *)

Module NameFacts.
Import Wide.

Section Names.
Context (decimal : N -> option Z).

Lemma span_digits_app_w ds rest :
  Forall (fun c => is_digit decimal c = true) ds -> no_leading_digit decimal rest ->
  span_digits decimal (ds ++ rest) = (ds, rest).
Proof.
  induction 1 as [| c ds Hc _ IH]; simpl; intros Hr.
  - destruct rest as [| c rest]; simpl in *; auto. rewrite Hr. reflexivity.
  - rewrite Hc, IH; auto.
Qed.

Lemma span_digits_spec_w s : forall ds rest,
  span_digits decimal s = (ds, rest) ->
  s = ds ++ rest /\ Forall (fun c => is_digit decimal c = true) ds /\ no_leading_digit decimal rest.
Proof.
  induction s as [| c s IH]; simpl; intros ds rest H.
  - injection H as <- <-. simpl. auto.
  - destruct (is_digit decimal c) eqn:Ec.
    + destruct (span_digits decimal s) as [ds' rest'] eqn:E. injection H as <- <-.
      destruct (IH _ _ eq_refl) as (-> & Hd & Hr). simpl. auto.
    + injection H as <- <-. simpl. auto.
Qed.

Lemma strip_prefix_spec_w p : forall s rest,
  strip_prefix p s = Some rest <-> s = p ++ rest.
Proof.
  induction p as [| a p IH]; simpl; intros s rest.
  - split; congruence.
  - destruct s as [| b s]; [split; discriminate |].
    destruct (N.eqb_spec a b) as [<- | Hne].
    + rewrite IH. split; congruence.
    + split; [discriminate | congruence].
Qed.

(** A match at the start of the name. *)
Lemma match_conc_here_some s ds :
  match_conc_here decimal s = Some ds <->
  exists rest, s = codes "conc" ++ ds ++ rest
    /\ ds <> [] /\ Forall (fun c => is_digit decimal c = true) ds /\ no_leading_digit decimal rest.
Proof.
  unfold match_conc_here. split.
  - intros H.
    destruct (strip_prefix (codes "conc") s) as [t |] eqn:E; [| discriminate].
    apply strip_prefix_spec_w in E as ->.
    destruct (span_digits decimal t) as [ds' rest] eqn:Et. simpl in H.
    destruct (span_digits_spec_w _ _ _ Et) as (-> & Hd & Hr).
    exists rest. destruct ds'; [discriminate |]. injection H as <-.
    repeat split; auto.
  - intros (rest & -> & Hne & Hd & Hr).
    rewrite (proj2 (strip_prefix_spec_w _ _ _) eq_refl).
    rewrite span_digits_app_w by assumption. simpl.
    destruct ds; [contradiction | reflexivity].
Qed.

Lemma match_conc_here_none s :
  match_conc_here decimal s = None <-> ~ conc_digit_after decimal [] s.
Proof.
  split.
  - intros H (d & rest & -> & Hd). unfold match_conc_here in H.
    rewrite app_nil_l, (proj2 (strip_prefix_spec_w _ _ _) eq_refl) in H.
    simpl in H. rewrite Hd in H. destruct (span_digits decimal rest). discriminate H.
  - intros Hn. destruct (match_conc_here decimal s) as [ds |] eqn:E; [| reflexivity].
    exfalso. apply Hn. apply match_conc_here_some in E as (rest & -> & Hne & Hd & _).
    destruct Hd as [| d ds Hd _]; [contradiction |].
    exists d, (ds ++ rest). split; [reflexivity | exact Hd].
Qed.

Lemma conc_digit_after_cons a pre s :
  conc_digit_after decimal (a :: pre) (a :: s) <-> conc_digit_after decimal pre s.
Proof.
  unfold conc_digit_after. split; intros (d & rest & E & Hd); exists d, rest.
  - simpl in E. injection E as E. auto.
  - rewrite E. auto.
Qed.

Lemma conc_digit_after_inv pre a s :
  conc_digit_after decimal pre (a :: s) ->
  (pre = [] /\ conc_digit_after decimal [] (a :: s))
  \/ exists pre', pre = a :: pre' /\ conc_digit_after decimal pre' s.
Proof.
  intros H. destruct pre as [| b pre]; [left; auto | right].
  destruct H as (d & rest & E & Hd). simpl in E. injection E as -> E.
  exists pre. split; [reflexivity |]. exists d, rest. auto.
Qed.

(** What [re.search] finds is the leftmost [conc<digits>], with all the
    digits that follow. *)
Lemma re_search_conc_some s : forall ds,
  re_search_conc decimal s = Some ds <->
  exists pre rest,
    s = pre ++ codes "conc" ++ ds ++ rest
    /\ ds <> [] /\ Forall (fun c => is_digit decimal c = true) ds
    /\ no_leading_digit decimal rest
    /\ forall pre', conc_digit_after decimal pre' s -> (length pre <= length pre')%nat.
Proof.
  induction s as [| a s IH]; intros ds.
  - split; [discriminate |].
    intros (pre & rest & E & _). destruct pre; discriminate E.
  - cbn [re_search_conc].
    destruct (match_conc_here decimal (a :: s)) as [ds' |] eqn:E.
    + split.
      * intros [= <-]. apply match_conc_here_some in E as (rest & E & H).
        exists [], rest. split; [exact E |].
        destruct H as (H1 & H2 & H3). repeat (split; [assumption |]).
        intros pre' _. simpl. lia.
      * intros (pre & rest & Es & Hne & Hd & Hr & Hmin). f_equal.
        assert (Hhere : conc_digit_after decimal [] (a :: s)).
        { apply match_conc_here_some in E as (rest' & E & Hne' & Hd' & _).
          destruct Hd' as [| d ds0 Hd' _]; [contradiction |].
          exists d, (ds0 ++ rest'). split; [exact E | exact Hd']. }
        apply Hmin in Hhere. destruct pre; [| simpl in Hhere; lia].
        assert (E' : match_conc_here decimal (a :: s) = Some ds).
        { apply match_conc_here_some. exists rest. auto. }
        congruence.
    + rewrite IH. apply match_conc_here_none in E. split.
      * intros (pre & rest & -> & Hne & Hd & Hr & Hmin).
        exists (a :: pre), rest. split; [reflexivity |].
        repeat (split; [assumption |]).
        intros pre' H. apply conc_digit_after_inv in H as [[-> H] | (p & -> & H)];
          [contradiction |].
        simpl. apply Hmin in H. lia.
      * intros (pre & rest & Es & Hne & Hd & Hr & Hmin).
        destruct pre as [| b pre].
        { exfalso. apply E. destruct Hd as [| d ds0 Hd _]; [contradiction |].
          exists d, (ds0 ++ rest). split; [exact Es | exact Hd]. }
        simpl in Es. injection Es as <- ->.
        exists pre, rest. split; [reflexivity |].
        repeat (split; [assumption |]).
        intros pre' H. apply (conc_digit_after_cons a) in H. apply Hmin in H.
        simpl in H. lia.
Qed.

(** It finds nothing exactly when the name has no [conc] followed by a
    digit. *)
Lemma re_search_conc_none s :
  re_search_conc decimal s = None <-> forall pre, ~ conc_digit_after decimal pre s.
Proof.
  induction s as [| a s IH].
  - split; [| reflexivity]. intros _ pre (d & rest & E & _).
    destruct pre; discriminate E.
  - cbn [re_search_conc].
    destruct (match_conc_here decimal (a :: s)) as [ds' |] eqn:E.
    + split; [discriminate |]. intros H. exfalso. apply (H []).
      apply match_conc_here_some in E as (rest' & E & Hne' & Hd' & _).
      destruct Hd' as [| d ds0 Hd' _]; [contradiction |].
      exists d, (ds0 ++ rest'). split; [exact E | exact Hd'].
    + rewrite IH. apply match_conc_here_none in E. split.
      * intros H pre Hp. apply conc_digit_after_inv in Hp as [[-> Hp] | (p & -> & Hp)];
          [contradiction | exact (H _ Hp)].
      * intros H pre Hp. apply (H (a :: pre)). apply conc_digit_after_cons. exact Hp.
Qed.

(** Reading digits is positional. *)
Lemma int_of_digits_acc_snoc_w ds c : forall acc,
  int_of_digits_acc decimal acc (ds ++ [c])
  = 10 * int_of_digits_acc decimal acc ds + default 0 (decimal c).
Proof.
  induction ds as [| d ds IH]; intros acc; simpl; [reflexivity | apply IH].
Qed.

Lemma int_of_digits_snoc ds c v :
  decimal c = Some v ->
  int_of_digits decimal (ds ++ [c]) = 10 * int_of_digits decimal ds + v.
Proof.
  intros H. unfold int_of_digits. rewrite int_of_digits_acc_snoc_w, H. reflexivity.
Qed.

Lemma int_of_digits_acc_bounds ds : forall acc,
  digit_values decimal -> 0 <= acc ->
  10 ^ Z.of_nat (length ds) * acc <= int_of_digits_acc decimal acc ds
  < 10 ^ Z.of_nat (length ds) * (acc + 1).
Proof.
  intros acc Hv. revert acc.
  induction ds as [| c ds IH]; intros acc Hacc.
  - simpl. lia.
  - cbn [int_of_digits_acc length]. rewrite Nat2Z.inj_succ, Z.pow_succ_r by lia.
    assert (Hc : 0 <= default 0 (decimal c) <= 9).
    { destruct (decimal c) as [d |] eqn:E; simpl; [eapply Hv; eauto | lia]. }
    specialize (IH (10 * acc + default 0 (decimal c)) ltac:(lia)).
    assert (Hp : 0 < 10 ^ Z.of_nat (length ds)) by (apply Z.pow_pos_nonneg; lia).
    nia.
Qed.
End Names.

(** The search and the reading only look at the characters of the name. *)
Section Tables.
Context (decimal decimal' : N -> option Z).

Lemma span_digits_ext s :
  Forall (fun c => decimal c = decimal' c) s ->
  span_digits decimal s = span_digits decimal' s.
Proof.
  induction 1 as [| c s Hc _ IH]; simpl; [reflexivity |].
  unfold is_digit. rewrite Hc, IH. reflexivity.
Qed.

Lemma match_conc_here_ext s :
  Forall (fun c => decimal c = decimal' c) s ->
  match_conc_here decimal s = match_conc_here decimal' s.
Proof.
  intros H. unfold match_conc_here.
  destruct (strip_prefix (codes "conc") s) as [t |] eqn:E; [| reflexivity].
  apply strip_prefix_spec_w in E as ->. apply Forall_app in H as [_ H].
  rewrite (span_digits_ext _ H). reflexivity.
Qed.

Lemma re_search_conc_ext s :
  Forall (fun c => decimal c = decimal' c) s ->
  re_search_conc decimal s = re_search_conc decimal' s.
Proof.
  induction 1 as [| c s Hc Hs IH]; [reflexivity |].
  cbn [re_search_conc]. rewrite (match_conc_here_ext (c :: s)) by (constructor; auto).
  rewrite IH. reflexivity.
Qed.

Lemma int_of_digits_acc_ext ds : forall acc,
  Forall (fun c => decimal c = decimal' c) ds ->
  int_of_digits_acc decimal acc ds = int_of_digits_acc decimal' acc ds.
Proof.
  intros acc H. revert acc. induction H as [| c ds Hc _ IH]; intros acc; simpl;
    [reflexivity |].
  rewrite Hc. apply IH.
Qed.

Lemma resolve_concurrency_ext stem result :
  Forall (fun c => decimal c = decimal' c) stem ->
  resolve_concurrency decimal stem result = resolve_concurrency decimal' stem result.
Proof.
  intros H. unfold resolve_concurrency. rewrite (re_search_conc_ext _ H).
  destruct (re_search_conc decimal' stem) as [ds |] eqn:E; [| reflexivity].
  assert (Hds : Forall (fun c => decimal c = decimal' c) ds).
  { apply re_search_conc_some in E as (pre & rest & -> & _).
    apply Forall_app in H as [_ H]. apply Forall_app in H as [_ H].
    apply Forall_app in H as [H _]. exact H. }
  unfold int_of_digits. rewrite (int_of_digits_acc_ext _ _ Hds). reflexivity.
Qed.
End Tables.

(** On an ASCII name every interpreter reads what the sample table reads. *)
Lemma codes_ascii s : Forall (fun c => (c < 128)%N) (codes s) <->
  Forall (fun c => (N_of_ascii c < 128)%N) (list_ascii_of_string s).
Proof. unfold codes. rewrite Forall_map. reflexivity. Qed.

Lemma ascii_digits_agree decimal s :
  ascii_digits decimal -> Forall (fun c => (c < 128)%N) s ->
  Forall (fun c => decimal c = sample_decimal c) s.
Proof.
  intros H Hs. eapply Forall_impl; [exact Hs |]. intros c Hc. simpl. rewrite (H c Hc).
  unfold sample_decimal. apply N.ltb_lt in Hc. rewrite Hc. reflexivity.
Qed.

Lemma resolve_concurrency_ascii decimal stem result :
  ascii_digits decimal -> forallb (fun c => (c <? 128)%N) stem = true ->
  resolve_concurrency decimal stem result = resolve_concurrency sample_decimal stem result.
Proof.
  intros H Hs. apply resolve_concurrency_ext. apply ascii_digits_agree; [exact H |].
  apply Forall_forall. intros c Hc. rewrite forallb_forall in Hs.
  apply N.ltb_lt. apply Hs. apply list_elem_of_In. exact Hc.
Qed.

End NameFacts.

(** ** Claims about Loader A on all inputs *)

Lemma load_one_ascii decimal file :
  Wide.ascii_digits decimal -> forallb (fun c => (c <? 128)%N) (fst file) = true ->
  Wide.load_one decimal file = Wide.load_one Wide.sample_decimal file.
Proof.
  intros H Hf. destruct file as [stem [result |]]; [| reflexivity]. simpl in *.
  rewrite (NameFacts.resolve_concurrency_ascii _ _ _ H Hf). reflexivity.
Qed.

Lemma load_baseten_results_ascii decimal files :
  Wide.ascii_digits decimal ->
  Forall (fun f => forallb (fun c => (c <? 128)%N) (fst f) = true) files ->
  Wide.load_baseten_results decimal files
  = Wide.load_baseten_results Wide.sample_decimal files.
Proof.
  intros H Hf. unfold Wide.load_baseten_results. f_equal.
  induction Hf as [| f files Hf _ IH]; [reflexivity |].
  cbn [omap list_omap]. rewrite (load_one_ascii _ _ H Hf), IH. reflexivity.
Qed.

(** C7 (as amended): the concurrency of a file is its [max_concurrency]
    field when the field is there and not null.  Otherwise it is the
    integer read from the leftmost [conc<digits>] of the file name, with
    all the digits that follow [conc] there, so that the names
    [baseten_conc42] and [cluster_conc42] give 42 and [bench_conc16] gives
    16; it is nothing when the name has no [conc] followed by a digit.  A
    file with neither, like a file that cannot be decoded, adds no record
    to the output of Loader A.  The digits are those of the interpreter's
    Unicode tables ([decimal]), which have the ASCII digits. *)
Theorem C7_concurrency_resolution (decimal : N -> option Z) :
  Wide.ascii_digits decimal ->
  (forall stem result conc,
     result !! "max_concurrency"%string = Some conc -> conc <> Wide.Val VNone ->
     Wide.resolve_concurrency decimal stem result = conc)
  /\ (forall stem result,
        Wide.get result "max_concurrency" (Wide.Val VNone) = Wide.Val VNone ->
        (forall pre ds rest,
           stem = pre ++ Wide.codes "conc" ++ ds ++ rest ->
           ds <> [] -> Forall (fun c => is_Some (decimal c)) ds ->
           match rest with [] => True | c :: _ => decimal c = None end ->
           (forall pre', Wide.conc_digit_after decimal pre' stem ->
                         (length pre <= length pre')%nat) ->
           Wide.resolve_concurrency decimal stem result
           = Wide.Val (VInt (Wide.int_of_digits decimal ds)))
        /\ ((forall pre, ~ Wide.conc_digit_after decimal pre stem) <->
            Wide.resolve_concurrency decimal stem result = Wide.Val VNone))
  /\ (forall pre stem,
        Wide.conc_digit_after decimal pre stem <->
        exists d rest, stem = pre ++ [99; 111; 110; 99]%N ++ d :: rest
                       /\ is_Some (decimal d))
  /\ Wide.codes "conc" = [99; 111; 110; 99]%N
  /\ (forall c v, decimal c = Some v -> Wide.int_of_digits decimal [c] = v)
  /\ (forall ds c v,
        ds <> [] -> Forall (fun c => is_Some (decimal c)) ds -> decimal c = Some v ->
        Wide.int_of_digits decimal (ds ++ [c]) = 10 * Wide.int_of_digits decimal ds + v)
  /\ (forall result,
        Wide.get result "max_concurrency" (Wide.Val VNone) = Wide.Val VNone ->
        Wide.resolve_concurrency decimal (Wide.codes "baseten_conc42") result
        = Wide.Val (VInt 42)
        /\ Wide.resolve_concurrency decimal (Wide.codes "cluster_conc42") result
           = Wide.Val (VInt 42)
        /\ Wide.resolve_concurrency decimal (Wide.codes "bench_conc16") result
           = Wide.Val (VInt 16)
        /\ Wide.resolve_concurrency decimal (Wide.codes "conc7x_conc22") result
           = Wide.Val (VInt 7)
        /\ Wide.resolve_concurrency decimal (Wide.codes "concurrency_x8") result
           = Wide.Val VNone)
  /\ (forall stem result,
        Wide.load_one decimal (stem, Some result) =
        match Wide.resolve_concurrency decimal stem result with
        | Wide.Val VNone => None
        | conc => Some (<["concurrency"%string := conc]> result)
        end)
  /\ (forall stem, Wide.load_one decimal (stem, None) = None)
  /\ (forall files out,
        Wide.load_baseten_results decimal files = Ok out ->
        Permutation (omap (Wide.load_one decimal) files) out
        /\ length out = length (filter (fun f => is_Some (Wide.load_one decimal f)) files))
  /\ Wide.load_baseten_results decimal
       [(Wide.codes "baseten_conc42",
         Some (Wide.mk [("completed", Wide.Val (VInt 60))]%string));
        (Wide.codes "summary", Some (Wide.mk [("completed", Wide.Val (VInt 60))]%string));
        (Wide.codes "broken", None);
        (Wide.codes "run", Some (Wide.mk [("max_concurrency", Wide.Val (VInt 8))]%string))]
     = Ok [Wide.mk [("max_concurrency", Wide.Val (VInt 8));
                    ("concurrency", Wide.Val (VInt 8))]%string;
           Wide.mk [("completed", Wide.Val (VInt 60));
                    ("concurrency", Wide.Val (VInt 42))]%string].
Proof.
  intros Hascii.
  assert (Hdig : forall l, Forall (fun c => is_Some (decimal c)) l <->
                           Forall (fun c => Wide.is_digit decimal c = true) l).
  { intros l. apply Forall_iff. intros c. unfold Wide.is_digit.
    destruct (decimal c); split; intros H; eauto; try discriminate.
    destruct H as [? H]. discriminate H. }
  repeat apply conj.
  - intros stem result conc H Hne. unfold Wide.resolve_concurrency, Wide.get.
    rewrite H. simpl. destruct conc as [[] | |]; congruence.
  - intros stem result H. split; [| split].
    + intros pre ds rest Es Hne Hd Hr Hmin.
      unfold Wide.resolve_concurrency. rewrite H.
      rewrite (proj2 (NameFacts.re_search_conc_some decimal stem ds)); [reflexivity |].
      exists pre, rest. split; [exact Es |]. split; [exact Hne |].
      split; [apply Hdig; exact Hd |]. split; [| exact Hmin].
      destruct rest as [| c rest]; simpl; auto.
      unfold Wide.is_digit. rewrite Hr. reflexivity.
    + intros Hno. unfold Wide.resolve_concurrency. rewrite H.
      rewrite (proj2 (NameFacts.re_search_conc_none decimal stem) Hno). reflexivity.
    + intros Hr. apply NameFacts.re_search_conc_none.
      unfold Wide.resolve_concurrency in Hr. rewrite H in Hr.
      destruct (Wide.re_search_conc decimal stem); [discriminate | reflexivity].
  - intros pre stem. split.
    + intros (d & rest & E & Hd). exists d, rest. split; [exact E |].
      unfold Wide.is_digit in Hd. destruct (decimal d); [eauto | discriminate].
    + intros (d & rest & E & [v Hd]). exists d, rest. split; [exact E |].
      unfold Wide.is_digit. rewrite Hd. reflexivity.
  - reflexivity.
  - intros c v H. unfold Wide.int_of_digits. simpl. rewrite H. reflexivity.
  - intros ds c v _ _. apply NameFacts.int_of_digits_snoc.
  - intros result H.
    repeat split;
      (rewrite NameFacts.resolve_concurrency_ascii by (exact Hascii || reflexivity);
       unfold Wide.resolve_concurrency; rewrite H; reflexivity).
  - reflexivity.
  - reflexivity.
  - intros files out H. unfold Wide.load_baseten_results in H.
    pose proof (WideFacts.py_sorted_perm_w _ _ _ H) as Hp. split; [exact Hp |].
    rewrite <- (Permutation_length Hp). apply length_omap_filter.
  - rewrite load_baseten_results_ascii; [reflexivity | exact Hascii |].
    repeat constructor.
Qed.

Lemma C7_concurrency_resolution_witness :
  Wide.resolve_concurrency Wide.sample_decimal (Wide.codes "conc1" ++ [1634%N]) ∅
  = Wide.Val (VInt (Wide.int_of_digits Wide.sample_decimal [49%N; 1634%N])).
Proof.
  refine (proj1 (proj1 (proj2 (C7_concurrency_resolution Wide.sample_decimal _))
                   (Wide.codes "conc1" ++ [1634%N]) ∅ _)
            [] [49%N; 1634%N] [] _ _ _ _ _).
  - intros c Hc. unfold Wide.sample_decimal. apply N.ltb_lt in Hc. rewrite Hc. reflexivity.
  - reflexivity.
  - reflexivity.
  - discriminate.
  - repeat constructor; eexists; reflexivity.
  - exact I.
  - intros pre' _. simpl. lia.
Defined.

(** C7 as stated fails on a [max_concurrency] field that is there with the
    value null: the concurrency is then taken from the file name, here 42,
    and without a [conc<digits>] in the name the file adds no record. *)
Lemma C7_counterexample :
  Wide.mk [("max_concurrency", Wide.Val VNone)]%string !! "max_concurrency"%string
  = Some (Wide.Val VNone)
  /\ Wide.load_baseten_results Wide.sample_decimal
       [(Wide.codes "baseten_conc42",
         Some (Wide.mk [("max_concurrency", Wide.Val VNone)]%string))]
     = Ok [Wide.mk [("max_concurrency", Wide.Val VNone);
                    ("concurrency", Wide.Val (VInt 42))]%string]
  /\ Wide.load_baseten_results Wide.sample_decimal
       [(Wide.codes "summary",
         Some (Wide.mk [("max_concurrency", Wide.Val VNone)]%string))]
     = Ok [].
Proof. repeat split; reflexivity. Qed.

(** ** More on Loader A *)

Section StableWide.
Context {A : Type} (key : A -> Wide.value).

(** Stability: the records of one key keep their order. *)
Lemma sort_insert_stable_w k x l : forall l',
  sort_insert_by (fun a b => Wide.py_lt (key a) (key b)) x l = Ok l' ->
  filter (fun y => Wide.py_eq (key y) k = true) l'
  = filter (fun y => Wide.py_eq (key y) k = true) (x :: l).
Proof.
  induction l as [| y l IH]; simpl; intros l' H.
  - inv_ok. reflexivity.
  - inv_ok. destruct a; inv_ok; [| reflexivity].
    rewrite filter_cons, (IH _ Ha0), !filter_cons.
    destruct (decide (Wide.py_eq (key x) k = true)) as [Hx | Hx];
      destruct (decide (Wide.py_eq (key y) k = true)) as [Hy | Hy]; try reflexivity.
    exfalso. apply WideFacts.py_lt_not_eq_w in Ha.
    rewrite (WideFacts.py_eq_congr_w _ _ _ Hy), WideFacts.py_eq_sym_w, Hx in Ha.
    discriminate.
Qed.

Lemma py_sorted_stable_w k l : forall s,
  Wide.py_sorted key l = Ok s ->
  filter (fun y => Wide.py_eq (key y) k = true) s
  = filter (fun y => Wide.py_eq (key y) k = true) l.
Proof.
  unfold Wide.py_sorted. induction l as [| x l IH]; simpl; intros s H.
  - inv_ok. reflexivity.
  - inv_ok. rewrite (sort_insert_stable_w _ _ _ _ H), !filter_cons, (IH _ Ha).
    reflexivity.
Qed.
End StableWide.

(** X7: when no file has a concurrency of NaN, the output of Loader A is
    ascending in concurrency (no record is above a later one), and the sort
    is stable: the records of one concurrency come out in the order of the
    directory listing. *)
Theorem loader_a_sorted_stable (decimal : N -> option Z)
    (files : list (list N * option Wide.record)) (out : list Wide.record) :
  Forall (fun r => Wide.is_nan (Wide.concurrency_key r) = false)
    (omap (Wide.load_one decimal) files) ->
  Wide.load_baseten_results decimal files = Ok out ->
  StronglySorted (Wide.key_le Wide.concurrency_key) out
  /\ forall c,
       filter (fun r => Wide.py_eq (Wide.concurrency_key r) c = true) out
       = filter (fun r => Wide.py_eq (Wide.concurrency_key r) c = true)
           (omap (Wide.load_one decimal) files).
Proof.
  intros Hn H. unfold Wide.load_baseten_results in H. split.
  - eapply WideFacts.py_sorted_sorted_le_w; eauto.
  - intros c. eapply py_sorted_stable_w; eauto.
Qed.

(** X10: a concurrency taken from the file name is a non-negative integer
    with as many decimal places as the name has digits after its leftmost
    [conc]: the value of these digits, up to the first character that is
    not a digit. *)
Theorem filename_concurrency (decimal : N -> option Z) (stem : list N)
    (result : Wide.record) (v : Wide.value) :
  Wide.digit_values decimal ->
  Wide.get result "max_concurrency" (Wide.Val VNone) = Wide.Val VNone ->
  Wide.resolve_concurrency decimal stem result = v -> v <> Wide.Val VNone ->
  exists pre ds rest,
    stem = pre ++ [99; 111; 110; 99]%N ++ ds ++ rest
    /\ ds <> [] /\ Forall (fun c => is_Some (decimal c)) ds
    /\ match rest with [] => True | c :: _ => decimal c = None end
    /\ (forall pre' d rest',
          stem = pre' ++ [99; 111; 110; 99]%N ++ d :: rest' -> is_Some (decimal d) ->
          (length pre <= length pre')%nat)
    /\ v = Wide.Val (VInt (Wide.int_of_digits decimal ds))
    /\ 0 <= Wide.int_of_digits decimal ds < 10 ^ Z.of_nat (length ds).
Proof.
  intros Hv Hm Hr Hne. unfold Wide.resolve_concurrency in Hr. rewrite Hm in Hr.
  destruct (Wide.re_search_conc decimal stem) as [ds |] eqn:E; [| congruence].
  apply NameFacts.re_search_conc_some in E as (pre & rest & Hs & H1 & H2 & H3 & H4).
  exists pre, ds, rest. split; [exact Hs |]. split; [exact H1 |]. split; [| split; [| split]].
  - eapply Forall_impl; [exact H2 |]. intros c Hc. simpl in Hc. unfold Wide.is_digit in Hc.
    destruct (decimal c); [eauto | discriminate].
  - destruct rest as [| c rest]; [exact I |]. simpl in H3. unfold Wide.is_digit in H3.
    destruct (decimal c); [discriminate | reflexivity].
  - intros pre' d rest' Es [w Hd]. apply H4. exists d, rest'. split; [exact Es |].
    unfold Wide.is_digit. rewrite Hd. reflexivity.
  - split; [congruence |].
    pose proof (NameFacts.int_of_digits_acc_bounds decimal ds 0 Hv ltac:(lia)) as Hb.
    unfold Wide.int_of_digits. lia.
Qed.
Lemma loader_a_sorted_stable_witness :
  StronglySorted (Wide.key_le Wide.concurrency_key)
    [Wide.mk [("max_concurrency", Wide.Val (VInt 8));
              ("concurrency", Wide.Val (VInt 8))]%string;
     Wide.mk [("completed", Wide.Val (VInt 60));
              ("concurrency", Wide.Val (VInt 32))]%string].
Proof.
  refine (proj1 (loader_a_sorted_stable Wide.sample_decimal Wide.sample_files _ _ _)).
  - change (omap (Wide.load_one Wide.sample_decimal) Wide.sample_files)
      with [Wide.mk [("completed", Wide.Val (VInt 60));
                     ("concurrency", Wide.Val (VInt 32))]%string;
            Wide.mk [("max_concurrency", Wide.Val (VInt 8));
                     ("concurrency", Wide.Val (VInt 8))]%string].
    repeat constructor.
  - reflexivity.
Defined.

Lemma filename_concurrency_witness :
  exists pre ds rest,
    Wide.codes "baseten_conc42" = pre ++ [99; 111; 110; 99]%N ++ ds ++ rest
    /\ ds <> [] /\ Forall (fun c => is_Some (Wide.sample_decimal c)) ds
    /\ match rest with [] => True | c :: _ => Wide.sample_decimal c = None end
    /\ (forall pre' d rest',
          Wide.codes "baseten_conc42" = pre' ++ [99; 111; 110; 99]%N ++ d :: rest' ->
          is_Some (Wide.sample_decimal d) -> (length pre <= length pre')%nat)
    /\ Wide.Val (VInt 42) = Wide.Val (VInt (Wide.int_of_digits Wide.sample_decimal ds))
    /\ 0 <= Wide.int_of_digits Wide.sample_decimal ds < 10 ^ Z.of_nat (length ds).
Proof.
  refine (filename_concurrency Wide.sample_decimal (Wide.codes "baseten_conc42") ∅
            (Wide.Val (VInt 42)) _ _ _ _).
  - intros c d. unfold Wide.sample_decimal.
    destruct (c <? 128)%N.
    + destruct ((48 <=? c) && (c <=? 57))%N eqn:E; [| discriminate].
      intros [= <-]. apply andb_true_iff in E as [E1 E2].
      apply N.leb_le in E1, E2. lia.
    + destruct ((1632 <=? c) && (c <=? 1641))%N eqn:E; [| discriminate].
      intros [= <-]. apply andb_true_iff in E as [E1 E2].
      apply N.leb_le in E1, E2. lia.
  - reflexivity.
  - reflexivity.
  - discriminate.
Defined.

(** ** The trend lines *)

Lemma ext_eqb_ltb_r a b c :
  Wide.ext_eqb a b = true -> Wide.ext_ltb c a = Wide.ext_ltb c b.
Proof.
  destruct a, b, c; simpl; try discriminate; auto. intros H.
  apply Qeq_bool_iff in H. apply eq_true_iff_eq. rewrite !Qlt_bool_iff, H. reflexivity.
Qed.

(** Values that are equal under [==] compare alike with any other. *)
Lemma py_eq_same a b :
  Wide.py_eq a b = true ->
  (exists x y, Wide.as_ext a = Some x /\ Wide.as_ext b = Some y
               /\ Wide.ext_eqb x y = true)
  \/ (Wide.as_ext a = None /\ a = b).
Proof.
  unfold Wide.py_eq.
  destruct (Wide.as_ext a) as [x |] eqn:Ea, (Wide.as_ext b) as [y |] eqn:Eb;
    try discriminate.
  - intros H. left. eauto.
  - intros H. right. split; [reflexivity |].
    destruct a as [[] | |], b as [[] | |]; try discriminate; auto.
    apply String.eqb_eq in H as ->. reflexivity.
Qed.

Lemma py_lt_eq_l_w a b c : Wide.py_eq a b = true -> Wide.py_lt a c = Wide.py_lt b c.
Proof.
  intros H. apply py_eq_same in H as [(x & y & Ea & Eb & E) | [_ ->]]; [| reflexivity].
  unfold Wide.py_lt. rewrite Ea, Eb. destruct (Wide.as_ext c); [| reflexivity].
  f_equal. apply WideFacts.ext_eqb_ltb_l. exact E.
Qed.

Lemma py_lt_eq_r_w a b c : Wide.py_eq a b = true -> Wide.py_lt c a = Wide.py_lt c b.
Proof.
  intros H. apply py_eq_same in H as [(x & y & Ea & Eb & E) | [_ ->]]; [| reflexivity].
  unfold Wide.py_lt. rewrite Ea, Eb. destruct (Wide.as_ext c); [| reflexivity].
  f_equal. apply ext_eqb_ltb_r. exact E.
Qed.

Lemma val_le_trans_w a b c : Wide.val_le a b -> Wide.val_le b c -> Wide.val_le a c.
Proof.
  unfold Wide.val_le. intros [H1 | H1] [H2 | H2].
  - left. eapply WideFacts.py_eq_trans_w; eauto.
  - right. rewrite (py_lt_eq_l_w _ _ _ H1). exact H2.
  - right. rewrite <- (py_lt_eq_r_w _ _ _ H2). exact H1.
  - right. eapply WideFacts.py_lt_trans_w; eauto.
Qed.

Lemma tuple3_lt_asym_w a b :
  Wide.tuple3_lt a b = Ok true -> Wide.tuple3_lt b a = Ok false.
Proof.
  destruct a as [[a1 a2] a3], b as [[b1 b2] b3]. unfold Wide.tuple3_lt.
  rewrite (WideFacts.py_eq_sym_w b1 a1), (WideFacts.py_eq_sym_w b2 a2),
    (WideFacts.py_eq_sym_w b3 a3).
  destruct (Wide.py_eq a1 b1); simpl; [| apply WideFacts.py_lt_asym_w].
  destruct (Wide.py_eq a2 b2); simpl; [| apply WideFacts.py_lt_asym_w].
  destruct (Wide.py_eq a3 b3); simpl; [discriminate | apply WideFacts.py_lt_asym_w].
Qed.

Lemma tuple3_not_above_w a b :
  Wide.is_nan (Wide.vertex_conc a) = false -> Wide.is_nan (Wide.vertex_conc b) = false ->
  Wide.tuple3_lt b a = Ok false ->
  Wide.val_le (Wide.vertex_conc a) (Wide.vertex_conc b).
Proof.
  destruct a as [[a1 a2] a3], b as [[b1 b2] b3].
  unfold Wide.tuple3_lt, Wide.val_le. simpl. intros Ha Hb.
  rewrite (WideFacts.py_eq_sym_w b1 a1).
  destruct (Wide.py_eq a1 b1) eqn:E; simpl; [auto |].
  intros H. right. apply WideFacts.py_lt_total_w; assumption.
Qed.

Lemma tuple3_lt_number a b :
  Wide.number (fst (fst a)) -> Wide.number (snd (fst a)) -> Wide.number (snd a) ->
  Wide.number (fst (fst b)) -> Wide.number (snd (fst b)) -> Wide.number (snd b) ->
  exists r, Wide.tuple3_lt a b = Ok r.
Proof.
  destruct a as [[a1 a2] a3], b as [[b1 b2] b3]. simpl. intros.
  unfold Wide.tuple3_lt.
  destruct (Wide.py_eq a1 b1); simpl; [| apply WideFacts.py_lt_number; assumption].
  destruct (Wide.py_eq a2 b2); simpl; [| apply WideFacts.py_lt_number; assumption].
  destruct (Wide.py_eq a3 b3); simpl; [eauto | apply WideFacts.py_lt_number; assumption].
Qed.

Section SortByTotal.
Context {A : Type} (lt : A -> A -> res bool) (P : A -> Prop).
Hypothesis lt_total : forall a b, P a -> P b -> exists r, lt a b = Ok r.

Lemma sort_insert_by_total x l :
  P x -> Forall P l -> exists l', sort_insert_by lt x l = Ok l'.
Proof.
  intros Hx. induction 1 as [| y l Hy _ [l' IH]]; simpl; eauto.
  destruct (lt_total _ _ Hy Hx) as [[|] ->]; simpl; eauto.
  rewrite IH. simpl. eauto.
Qed.

Lemma sort_by_total l : Forall P l -> exists s, sort_by lt l = Ok s.
Proof.
  induction 1 as [| x l Hx Hl [s IH]]; simpl; eauto.
  rewrite IH. simpl. apply sort_insert_by_total; auto.
  eapply Permutation_Forall; [eapply sort_by_perm; exact IH | exact Hl].
Qed.
End SortByTotal.

(** X19: a trend line is drawn only for two points or more; its vertices
    are the points of the series, each once; when no coordinate is NaN they
    come in ascending order of concurrency, whatever the latencies are.
    The line is computed whenever all the coordinates are numbers. *)
Theorem trend_line_by_concurrency (pts : list Wide.vertex) :
  (forall s, Wide.trend_line pts = Ok (Some s) ->
     (2 <= length pts)%nat
     /\ Permutation pts s
     /\ (Forall Wide.no_nan pts ->
         StronglySorted (fun a b => Wide.val_le (Wide.vertex_conc a) (Wide.vertex_conc b)) s))
  /\ (Wide.trend_line pts = Ok None <-> (length pts <= 1)%nat)
  /\ (Forall (fun v => Wide.number (fst (fst v)) /\ Wide.number (snd (fst v))
                       /\ Wide.number (snd v)) pts ->
      exists r, Wide.trend_line pts = Ok r).
Proof.
  unfold Wide.trend_line. split; [| split].
  - intros s H. destruct (1 <? length pts)%nat eqn:E; [| discriminate].
    apply Nat.ltb_lt in E.
    destruct (sort_by Wide.tuple3_lt pts) as [s' |] eqn:Ha; [| discriminate].
    simpl in H. injection H as ->. split; [lia |].
    pose proof (sort_by_perm _ _ _ Ha) as Hp. split; [exact Hp |].
    intros Hn.
    assert (Hn' : Forall Wide.no_nan s) by (eapply Permutation_Forall; eauto).
    pose proof (sort_by_sorted _ tuple3_lt_asym_w _ _ Ha) as Hs.
    apply Sorted_StronglySorted; [intros x y z; apply val_le_trans_w |].
    clear - Hs Hn'. induction Hs as [| x l Hs IH Hx]; [constructor |].
    apply Forall_cons_iff in Hn' as [[Hnx _] Hn']. constructor; [auto |].
    destruct Hx as [| y l Hxy]; constructor.
    apply Forall_cons_iff in Hn' as [[Hny _] _].
    apply tuple3_not_above_w; assumption.
  - destruct (1 <? length pts)%nat eqn:E.
    + apply Nat.ltb_lt in E. split; [| lia].
      destruct (sort_by Wide.tuple3_lt pts); discriminate.
    + apply Nat.ltb_ge in E. split; auto.
  - intros Hn. destruct (1 <? length pts)%nat; [| eauto].
    destruct (sort_by_total Wide.tuple3_lt _
                (fun a b Ha Hb => tuple3_lt_number a b (proj1 Ha) (proj1 (proj2 Ha))
                                    (proj2 (proj2 Ha)) (proj1 Hb) (proj1 (proj2 Hb))
                                    (proj2 (proj2 Hb))) pts Hn) as [s ->].
    simpl. eauto.
Qed.

(** ** The scatter groups of the detailed chart *)

Lemma py_set_incl_w l v : In v (Wide.py_set l) -> In v l.
Proof.
  induction l as [| x l IH]; simpl; [auto |].
  intros [-> | H]; [auto |].
  apply list_elem_of_In, list_elem_of_filter in H as [_ H].
  right. apply IH. apply list_elem_of_In. exact H.
Qed.

Lemma py_set_covers_w l v :
  In v l -> exists w, In w (Wide.py_set l) /\ Wide.same_key w v = true.
Proof.
  induction l as [| x l IH]; simpl; [contradiction |].
  intros [-> | H].
  - exists v. split; [auto | apply WideFacts.same_key_refl].
  - destruct (IH H) as (w & Hw & Hwv).
    destruct (Wide.same_key x w) eqn:E.
    + exists x. split; [auto | eapply WideFacts.same_key_trans; eauto].
    + exists w. split; [| exact Hwv]. right.
      apply list_elem_of_In, list_elem_of_filter. split; [exact E |].
      apply list_elem_of_In. exact Hw.
Qed.

Lemma py_set_distinct_w l :
  ForallOrdPairs (fun a b => Wide.same_key a b = false) (Wide.py_set l).
Proof.
  induction l as [| x l IH]; simpl; constructor.
  - apply Forall_forall. intros w Hw. apply list_elem_of_filter in Hw as [Hw _]. exact Hw.
  - clear - IH. induction IH as [| a l' Ha _ IH']; [constructor |].
    rewrite filter_cons. destruct (decide _); [| exact IH'].
    constructor; [| exact IH'].
    apply Forall_forall. intros w Hw. apply list_elem_of_filter in Hw as [_ Hw].
    rewrite Forall_forall in Ha. auto.
Qed.

(** Groups taken by pairwise different keys that cover all the points
    split the points: no point is lost and none is taken twice. *)
Lemma groups_partition_w (tps : list Wide.value) : forall pts : list Wide.config_point,
  ForallOrdPairs (fun a b => Wide.py_eq a b = false) tps ->
  (forall p, In p pts -> exists t, In t tps /\ Wide.py_eq (Wide.cp_tp p) t = true) ->
  Permutation
    (concat (map (fun tp => filter (fun p => Wide.py_eq (Wide.cp_tp p) tp = true) pts) tps))
    pts.
Proof.
  induction tps as [| t ts IH]; intros pts Hd Hc.
  - destruct pts as [| p pts]; [reflexivity |].
    destruct (Hc p (or_introl eq_refl)) as (t & [] & _).
  - inversion Hd as [| ? ? Ht Hd']; subst. simpl.
    set (rest := filter (fun p => ~ Wide.py_eq (Wide.cp_tp p) t = true) pts).
    assert (E : map (fun tp => filter (fun p => Wide.py_eq (Wide.cp_tp p) tp = true) pts) ts
                = map (fun tp => filter (fun p => Wide.py_eq (Wide.cp_tp p) tp = true) rest) ts).
    { apply map_ext_in. intros tp Htp. unfold rest.
      rewrite list_filter_filter. apply list_filter_iff. intros p.
      split; [| tauto]. intros Hp. split; [exact Hp |]. intros Hpt.
      rewrite Forall_forall in Ht. apply list_elem_of_In, Ht in Htp.
      rewrite WideFacts.py_eq_sym_w in Hpt.
      rewrite (WideFacts.py_eq_trans_w _ _ _ Hpt Hp) in Htp. discriminate. }
    rewrite E, (IH rest Hd').
    + apply filter_app_complement.
    + intros p Hp. unfold rest in Hp.
      apply list_elem_of_In, list_elem_of_filter in Hp as [Hn Hp].
      destruct (Hc p (proj1 (list_elem_of_In _ _) Hp)) as (t' & [<- | Ht'] & Hpt');
        [contradiction | eauto].
Qed.

Lemma sorted_pairwise_ne_w (l : list Wide.value) :
  StronglySorted (Wide.key_lt (fun v => v)) l ->
  ForallOrdPairs (fun a b => Wide.py_eq a b = false) l.
Proof.
  induction 1 as [| x l _ IH Hx]; constructor; [| exact IH].
  eapply Forall_impl; [exact Hx |]. intros y Hy. apply WideFacts.py_lt_not_eq_w. exact Hy.
Qed.

(** X21: when no record has a degree of NaN, the scatter groups of the
    detailed chart split the filtered B200 records by parallelism degree:
    every record is drawn in exactly one group (the groups together are a
    rearrangement of the records), every group is non-empty and holds
    records of its own degree, and the groups come in strictly ascending
    degree. *)
Theorem tp_groups_partition (pts : list Wide.config_point)
    (groups : list (Wide.value * list Wide.config_point)) :
  Forall (fun p => Wide.is_nan (Wide.cp_tp p) = false) pts ->
  Wide.tp_groups pts = Ok groups ->
  Permutation (concat (map snd groups)) pts
  /\ Forall (fun g => snd g <> []
                      /\ Forall (fun p => Wide.py_eq (Wide.cp_tp p) (fst g) = true) (snd g))
            groups
  /\ StronglySorted (fun a b => Wide.py_lt a b = Ok true) (map fst groups).
Proof.
  intros Hn H. unfold Wide.tp_groups in H. inv_ok. rename a into tps.
  pose proof (WideFacts.py_sorted_perm_w _ _ _ Ha) as Hp.
  assert (Hn' : Forall (fun v => Wide.is_nan v = false) (Wide.py_set (map Wide.cp_tp pts))).
  { apply Forall_forall. intros v Hv. apply list_elem_of_In, py_set_incl_w in Hv.
    apply in_map_iff in Hv as (p & <- & Hp'). rewrite Forall_forall in Hn.
    apply Hn. apply list_elem_of_In. exact Hp'. }
  assert (Hs : StronglySorted (Wide.key_lt (fun v : Wide.value => v)) tps).
  { eapply WideFacts.py_sorted_sorted_w; [exact Hn' | | exact Ha]. apply py_set_distinct_w. }
  rewrite !map_map. simpl. split; [| split].
  - apply groups_partition_w.
    + apply sorted_pairwise_ne_w. exact Hs.
    + intros p Hin.
      destruct (py_set_covers_w (map Wide.cp_tp pts) (Wide.cp_tp p)) as (w & Hw & Hwp).
      { apply in_map. exact Hin. }
      exists w. split; [eapply Permutation_in; eauto |].
      rewrite WideFacts.same_key_sym, WideFacts.same_key_eq in Hwp; [exact Hwp |].
      rewrite Forall_forall in Hn. apply Hn. apply list_elem_of_In. exact Hin.
  - apply Forall_forall. intros g Hg.
    apply list_elem_of_In, in_map_iff in Hg as (tp & <- & Htp). simpl. split.
    + apply Permutation_sym in Hp. apply (Permutation_in _ Hp), py_set_incl_w in Htp.
      apply in_map_iff in Htp as (p & Hp' & Hin). intros Hnil.
      eapply filter_nil_not_elem_of; [exact Hnil | | apply list_elem_of_In; exact Hin].
      simpl. rewrite Hp'. apply WideFacts.py_eq_refl_w. rewrite <- Hp'.
      rewrite Forall_forall in Hn. apply Hn. apply list_elem_of_In. exact Hin.
    + apply Forall_forall. intros p Hpin. apply list_elem_of_filter in Hpin as [Hpin _].
      exact Hpin.
  - rewrite map_id. exact Hs.
Qed.

Lemma trend_line_by_concurrency_witness :
  StronglySorted (fun a b => Wide.val_le (Wide.vertex_conc a) (Wide.vertex_conc b))
    [(Wide.Val (VInt 16), Wide.Val (VInt 3), Wide.Val (VInt 400));
     (Wide.Val (VInt 32), Wide.Val (VInt 1), Wide.Val (VInt 600));
     (Wide.Inf false, Wide.Val (VInt 2), Wide.Val (VInt 500))].
Proof.
  refine (proj2 (proj2 (proj1 (trend_line_by_concurrency
            [(Wide.Val (VInt 32), Wide.Val (VInt 1), Wide.Val (VInt 600));
             (Wide.Inf false, Wide.Val (VInt 2), Wide.Val (VInt 500));
             (Wide.Val (VInt 16), Wide.Val (VInt 3), Wide.Val (VInt 400))]) _ _)) _).
  - reflexivity.
  - repeat constructor.
Defined.

Lemma tp_groups_partition_witness :
  Permutation
    (concat (map snd
       [(Wide.Val (VInt 2),
         map Wide.config_point_of [Wide.b200_tp 32 2; Wide.b200_tp 16 2]);
        (Wide.Val (VInt 8), map Wide.config_point_of [Wide.b200_tp 16 8])]))
    (map Wide.config_point_of [Wide.b200_tp 32 2; Wide.b200_tp 16 8; Wide.b200_tp 16 2]).
Proof.
  refine (proj1 (tp_groups_partition
           (map Wide.config_point_of [Wide.b200_tp 32 2; Wide.b200_tp 16 8; Wide.b200_tp 16 2])
           [(Wide.Val (VInt 2),
             map Wide.config_point_of [Wide.b200_tp 32 2; Wide.b200_tp 16 2]);
            (Wide.Val (VInt 8), map Wide.config_point_of [Wide.b200_tp 16 8])] _ _)).
  - repeat constructor.
  - reflexivity.
Defined.

(** * The loaders of [Py] are the loaders of [Wide] on finite values *)

Lemma lift_get r k d : Wide.get (lift r) k (Wide.Val d) = Wide.Val (get r k d).
Proof.
  unfold Wide.get, get, lift. rewrite lookup_fmap. destruct (r !! k); reflexivity.
Qed.

Lemma lift_getitem r k :
  Wide.getitem (lift r) k = lift_res Wide.Val (getitem r k).
Proof.
  unfold Wide.getitem, getitem, lift. rewrite lookup_fmap. destruct (r !! k); reflexivity.
Qed.

Lemma lift_py_eq a b : Wide.py_eq (Wide.Val a) (Wide.Val b) = py_eq a b.
Proof. destruct a, b; reflexivity. Qed.

Lemma lift_py_lt a b : Wide.py_lt (Wide.Val a) (Wide.Val b) = py_lt a b.
Proof. destruct a, b; reflexivity. Qed.

Lemma lift_py_gt a b : Wide.py_gt (Wide.Val a) (Wide.Val b) = py_gt a b.
Proof. destruct a, b; reflexivity. Qed.

Lemma lift_same_key a b : Wide.same_key (Wide.Val a) (Wide.Val b) = py_eq a b.
Proof. unfold Wide.same_key. rewrite lift_py_eq. apply orb_false_r. Qed.

Lemma lift_is_b200_trt r : Wide.is_b200_trt (lift r) = is_b200_trt r.
Proof.
  unfold Wide.is_b200_trt, is_b200_trt. rewrite !lift_get, !lift_py_eq. reflexivity.
Qed.

Lemma lift_dict_lookup d k :
  Wide.dict_lookup (lift_dict d) (Wide.Val k) = lift <$> dict_lookup d k.
Proof.
  induction d as [| [k0 r0] d IH]; simpl; [reflexivity |].
  rewrite lift_same_key. destruct (py_eq k0 k); [reflexivity | exact IH].
Qed.

Lemma lift_dict_set d k r :
  Wide.dict_set (lift_dict d) (Wide.Val k) (lift r) = lift_dict (dict_set d k r).
Proof.
  induction d as [| [k0 r0] d IH]; simpl; [reflexivity |].
  rewrite lift_same_key. destruct (py_eq k0 k); simpl; [reflexivity |].
  rewrite IH. reflexivity.
Qed.

Lemma lift_dict_values d : Wide.dict_values (lift_dict d) = map lift (dict_values d).
Proof. unfold Wide.dict_values, dict_values, lift_dict. rewrite !map_map. reflexivity. Qed.

Lemma lift_select_step d r :
  Wide.select_step (lift_dict d) (lift r) = lift_res lift_dict (select_step d r).
Proof.
  unfold Wide.select_step, select_step.
  rewrite !lift_get, lift_dict_lookup, lift_py_eq.
  destruct (dict_lookup d _) as [cur |]; simpl; [| rewrite lift_dict_set; reflexivity].
  destruct (py_eq (get r "tp" _) _); simpl; [rewrite lift_dict_set; reflexivity |].
  rewrite lift_get, lift_py_eq. destruct (negb _); simpl; [| reflexivity].
  rewrite lift_getitem. destruct (getitem cur "tput_per_gpu") as [v |]; simpl;
    [| reflexivity].
  rewrite lift_py_gt. destruct (py_gt _ v) as [[|] |]; simpl;
    [rewrite lift_dict_set |..]; reflexivity.
Qed.

Lemma lift_select_loop rs : forall d,
  Wide.select_loop (lift_dict d) (map lift rs) = lift_res lift_dict (select_loop d rs).
Proof.
  induction rs as [| r rs IH]; intros d; simpl; [reflexivity |].
  rewrite lift_select_step. destruct (select_step d r) as [d' |]; simpl;
    [apply IH | reflexivity].
Qed.

(** The two sorts are one sort. *)
Lemma sort_insert_as_by {A : Type} (key : A -> value) x l :
  sort_insert key x l = sort_insert_by (fun a b => py_lt (key a) (key b)) x l.
Proof.
  induction l as [| y l IH]; simpl; [reflexivity |].
  destruct (py_lt (key y) (key x)) as [[|] |]; simpl; [rewrite IH |..]; reflexivity.
Qed.

Lemma py_sorted_as_by {A : Type} (key : A -> value) l :
  py_sorted key l = sort_by (fun a b => py_lt (key a) (key b)) l.
Proof.
  induction l as [| x l IH]; simpl; [reflexivity |].
  rewrite IH. destruct (sort_by _ l); simpl; [apply sort_insert_as_by | reflexivity].
Qed.

Section SortMap.
Context {A B : Type} (f : A -> B) (lt : A -> A -> res bool) (lt' : B -> B -> res bool).
Hypothesis lt_f : forall a b, lt' (f a) (f b) = lt a b.

Lemma sort_insert_by_map x l :
  sort_insert_by lt' (f x) (map f l) = lift_res (map f) (sort_insert_by lt x l).
Proof.
  induction l as [| y l IH]; simpl; [reflexivity |].
  rewrite lt_f. destruct (lt y x) as [[|] |]; simpl; [| reflexivity..].
  rewrite IH. destruct (sort_insert_by lt x l); reflexivity.
Qed.

Lemma sort_by_map l : sort_by lt' (map f l) = lift_res (map f) (sort_by lt l).
Proof.
  induction l as [| x l IH]; simpl; [reflexivity |].
  rewrite IH. destruct (sort_by lt l); simpl; [apply sort_insert_by_map | reflexivity].
Qed.
End SortMap.

Lemma lift_py_sorted (key : record -> value) (key' : Wide.record -> Wide.value) l :
  (forall r, key' (lift r) = Wide.Val (key r)) ->
  Wide.py_sorted key' (map lift l) = lift_res (map lift) (py_sorted key l).
Proof.
  intros H. unfold Wide.py_sorted. rewrite py_sorted_as_by. apply sort_by_map.
  intros a b. rewrite !H. apply lift_py_lt.
Qed.

Lemma filter_map_lift (l : list record) :
  filter (fun r => Wide.is_b200_trt r = true) (map lift l)
  = map lift (filter (fun r => is_b200_trt r = true) l).
Proof.
  induction l as [| r l IH]; [reflexivity |].
  cbn [map]. rewrite !filter_cons, IH, lift_is_b200_trt.
  destruct (decide (is_b200_trt r = true)); reflexivity.
Qed.

(** On an array of finite values Loader B of [Wide] is Loader B of [Py]. *)
Lemma lift_load_b200_trt_results all_data :
  Wide.load_b200_trt_results (map lift all_data)
  = lift_res (fun p => (map lift (fst p), map lift (snd p)))
      (load_b200_trt_results all_data).
Proof.
  unfold Wide.load_b200_trt_results, load_b200_trt_results.
  rewrite filter_map_lift.
  rewrite (lift_select_loop _ []).
  destruct (select_loop [] _) as [d |]; simpl; [| reflexivity].
  rewrite lift_dict_values, (lift_py_sorted conc_key).
  - destruct (py_sorted conc_key (dict_values d)); reflexivity.
  - intros r. apply lift_get.
Qed.

(** The file names: an ASCII name read by any interpreter. *)
Section AsciiNames.
Context (decimal : N -> option Z) (Hdecimal : Wide.ascii_digits decimal).

Lemma decimal_code c :
  (N_of_ascii c < 128)%N ->
  decimal (N_of_ascii c)
  = if is_digit c then Some (Z.of_nat (nat_of_ascii c) - 48) else None.
Proof.
  intros Hc. rewrite (Hdecimal _ Hc). unfold is_digit, nat_of_ascii.
  rewrite N_nat_Z.
  destruct (N.leb_spec 48 (N_of_ascii c)), (Z.leb_spec 48 (Z.of_N (N_of_ascii c)));
    try lia;
    destruct (N.leb_spec (N_of_ascii c) 57), (Z.leb_spec (Z.of_N (N_of_ascii c)) 57);
    try lia; reflexivity.
Qed.

Lemma is_digit_code c :
  (N_of_ascii c < 128)%N -> Wide.is_digit decimal (N_of_ascii c) = is_digit c.
Proof.
  intros Hc. unfold Wide.is_digit. rewrite (decimal_code _ Hc).
  destruct (is_digit c); reflexivity.
Qed.

Lemma is_digit_ascii c : is_digit c = true -> (N_of_ascii c < 128)%N.
Proof.
  unfold is_digit, nat_of_ascii. rewrite N_nat_Z. intros H.
  apply andb_true_iff in H as [_ H]. apply Z.leb_le in H. lia.
Qed.

Lemma span_digits_codes s :
  is_ascii s ->
  Wide.span_digits decimal (Wide.codes s)
  = (Wide.codes (fst (span_digits s)), Wide.codes (snd (span_digits s))).
Proof.
  induction s as [| c s IH]; intros Hs; [reflexivity |].
  apply Forall_cons in Hs as [Hc Hs].
  change (Wide.codes (String c s)) with (N_of_ascii c :: Wide.codes s).
  cbn [Wide.span_digits span_digits]. rewrite (is_digit_code _ Hc), (IH Hs).
  destruct (is_digit c); [| reflexivity].
  destruct (span_digits s) as [ds rest]. reflexivity.
Qed.

Lemma span_digits_digits s :
  Forall (fun c => is_digit c = true) (list_ascii_of_string (fst (span_digits s))).
Proof.
  induction s as [| c s IH]; simpl; [constructor |].
  destruct (is_digit c) eqn:E; [| constructor].
  destruct (span_digits s) as [ds rest]. simpl in *. constructor; assumption.
Qed.

Lemma strip_prefix_codes p : forall s,
  Wide.strip_prefix (Wide.codes p) (Wide.codes s) = Wide.codes <$> strip_prefix p s.
Proof.
  induction p as [| a p IH]; intros s; [reflexivity |].
  destruct s as [| b s]; [reflexivity |].
  change (Wide.codes (String a p)) with (N_of_ascii a :: Wide.codes p).
  change (Wide.codes (String b s)) with (N_of_ascii b :: Wide.codes s).
  cbn [Wide.strip_prefix strip_prefix].
  destruct (Ascii.eqb_spec a b) as [-> | Hab].
  - rewrite N.eqb_refl. apply IH.
  - destruct (N.eqb_spec (N_of_ascii a) (N_of_ascii b)) as [E |]; [| reflexivity].
    exfalso. apply Hab. rewrite <- (ascii_N_embedding a), <- (ascii_N_embedding b), E.
    reflexivity.
Qed.

Lemma strip_prefix_ascii p : forall s rest,
  strip_prefix p s = Some rest -> is_ascii s -> is_ascii rest.
Proof.
  induction p as [| a p IH]; intros s rest H Hs; simpl in H.
  - destruct s; congruence.
  - destruct s as [| b s]; [discriminate |].
    destruct (Ascii.eqb a b); [| discriminate].
    apply Forall_cons in Hs as [_ Hs]. exact (IH _ _ H Hs).
Qed.

Lemma match_conc_here_codes s :
  is_ascii s ->
  Wide.match_conc_here decimal (Wide.codes s) = Wide.codes <$> match_conc_here s.
Proof.
  intros Hs. unfold Wide.match_conc_here, match_conc_here.
  rewrite strip_prefix_codes.
  destruct (strip_prefix "conc" s) as [rest |] eqn:E; [| reflexivity].
  cbn [fmap option_fmap option_map].
  rewrite (span_digits_codes _ (strip_prefix_ascii _ _ _ E Hs)). cbn [fst].
  destruct (fst (span_digits rest)); reflexivity.
Qed.

Lemma match_conc_here_digits s ds :
  match_conc_here s = Some ds ->
  Forall (fun c => is_digit c = true) (list_ascii_of_string ds).
Proof.
  unfold match_conc_here. destruct (strip_prefix "conc" s) as [rest |]; [| discriminate].
  pose proof (span_digits_digits rest) as H.
  destruct (fst (span_digits rest)); [discriminate |].
  intros [= <-]. exact H.
Qed.

Lemma re_search_conc_codes s :
  is_ascii s ->
  Wide.re_search_conc decimal (Wide.codes s) = Wide.codes <$> re_search_conc s.
Proof.
  induction s as [| c s IH]; intros Hs.
  - reflexivity.
  - change (Wide.codes (String c s)) with (N_of_ascii c :: Wide.codes s).
    cbn [Wide.re_search_conc re_search_conc].
    change (N_of_ascii c :: Wide.codes s) with (Wide.codes (String c s)).
    rewrite (match_conc_here_codes _ Hs).
    destruct (match_conc_here (String c s)); [reflexivity |].
    cbn [fmap option_fmap option_map].
    apply Forall_cons in Hs as [_ Hs]. exact (IH Hs).
Qed.

Lemma re_search_conc_digits s : forall ds,
  re_search_conc s = Some ds ->
  Forall (fun c => is_digit c = true) (list_ascii_of_string ds).
Proof.
  induction s as [| c s IH]; intros ds; cbn [re_search_conc].
  - destruct (match_conc_here "") eqn:E; [| discriminate].
    intros [= <-]. exact (match_conc_here_digits _ _ E).
  - destruct (match_conc_here (String c s)) eqn:E.
    + intros [= <-]. exact (match_conc_here_digits _ _ E).
    + apply IH.
Qed.

Lemma int_of_digits_acc_codes ds : forall acc,
  Forall (fun c => is_digit c = true) (list_ascii_of_string ds) ->
  Wide.int_of_digits_acc decimal acc (Wide.codes ds) = int_of_digits_acc acc ds.
Proof.
  induction ds as [| c ds IH]; intros acc H; [reflexivity |].
  apply Forall_cons in H as [Hc H].
  change (Wide.codes (String c ds)) with (N_of_ascii c :: Wide.codes ds).
  cbn [Wide.int_of_digits_acc int_of_digits_acc].
  rewrite (decimal_code _ (is_digit_ascii _ Hc)), Hc. simpl. apply IH. exact H.
Qed.

Lemma resolve_concurrency_codes stem result :
  is_ascii stem ->
  Wide.resolve_concurrency decimal (Wide.codes stem) (lift result)
  = Wide.Val (resolve_concurrency stem result).
Proof.
  intros Hs. unfold Wide.resolve_concurrency, resolve_concurrency.
  rewrite lift_get, (re_search_conc_codes _ Hs).
  destruct (get result "max_concurrency" VNone); try reflexivity.
  destruct (re_search_conc stem) as [ds |] eqn:E; [| reflexivity].
  cbn [fmap option_fmap option_map]. unfold Wide.int_of_digits, int_of_digits.
  rewrite (int_of_digits_acc_codes _ _ (re_search_conc_digits _ _ E)). reflexivity.
Qed.

Lemma load_one_codes file :
  is_ascii (fst file) ->
  Wide.load_one decimal (lift_file file) = lift <$> load_one file.
Proof.
  destruct file as [stem [result |]]; [| reflexivity]. intros Hs.
  unfold lift_file, Wide.load_one, load_one. cbn [fst snd fmap option_fmap option_map].
  cbn [fst] in Hs. rewrite (resolve_concurrency_codes _ _ Hs).
  destruct (resolve_concurrency stem result); try reflexivity;
    cbn [fmap option_fmap option_map]; unfold lift; rewrite fmap_insert; reflexivity.
Qed.

Lemma omap_load_one_codes files :
  Forall (fun file => is_ascii (fst file)) files ->
  omap (Wide.load_one decimal) (map lift_file files) = map lift (omap load_one files).
Proof.
  induction 1 as [| file files Hf _ IH]; [reflexivity |].
  cbn [map omap list_omap]. rewrite (load_one_codes _ Hf).
  destruct (load_one file); cbn [fmap option_fmap option_map map];
    [f_equal |]; exact IH.
Qed.

(** On ASCII file names and finite values Loader A of [Wide], with the
    digits of any interpreter, is Loader A of [Py]. *)
Lemma lift_load_baseten_results files :
  Forall (fun file => is_ascii (fst file)) files ->
  Wide.load_baseten_results decimal (map lift_file files)
  = lift_res (map lift) (load_baseten_results files).
Proof.
  intros Hf. unfold Wide.load_baseten_results, load_baseten_results.
  rewrite (omap_load_one_codes _ Hf). apply lift_py_sorted.
  intros r. apply lift_get.
Qed.
End AsciiNames.
